(** * The two notebooks of [01_machineLearning], embedded and verified

    - [00_make_slimmed_dataset]: a pandas pipeline that filters the rows of a
      real-estate table, keeps two columns and writes a CSV file;
    - the MNIST notebook: a linear regressor trained by batch gradient descent
      written with numpy arrays, followed by the definitions of a sigmoid and a
      softmax classifier and of two multi-layer perceptrons.

    Numbers.  numpy's [float32]/[float64] entries are modelled by the real
    numbers of the Standard Library: rounding, overflow, [inf] and [nan] are
    outside the model.  Where numpy would produce [nan] from an empty array
    the model has no value to give and fails.

    Arrays.  A numpy array object is a reference to a buffer together with
    the view it takes of it (slices, transposition and reshaping share the
    buffer, as in numpy); the functions of numpy allocate their result.  All
    Python exceptions are modelled by the failure [None]. *)

From Stdlib Require Import Reals Lra Lia ZArith Ascii String.
From stdpp Require Import base option list gmap strings pretty.

(** ** Real-valued kernels of the numpy functions the notebook calls *)

Module np.

Local Open Scope R_scope.

Definition matrix := list (list R).

(** Contents of an array of dimension 0 to 3. *)
Inductive ndarray :=
| A0 (x : R)
| A1 (v : list R)
| A2 (m : matrix)
| A3 (t : list matrix).

Definition ncols (m : matrix) : nat :=
  match m with [] => 0%nat | r :: _ => length r end.

(** [Forall (λ r, length r = c) m]: the rows of a 2-D array have one length. *)
Definition rect (c : nat) (m : matrix) : Prop := Forall (λ r, length r = c) m.

Definition sum (v : list R) : R := foldr Rplus 0 v.

Definition col (j : nat) (m : matrix) : list R := map (λ r, nth j r 0) m.

(** [a.transpose()] of a 2-D array. *)
Definition transpose (m : matrix) : matrix :=
  map (λ j, col j m) (seq 0 (ncols m)).

Definition dotp (u v : list R) : R := sum (zip_with Rmult u v).

Definition matmul (a b : matrix) : matrix :=
  map (λ r, map (λ j, dotp r (col j b)) (seq 0 (ncols b))) a.

(** [numpy.dot(a, b)]: the inner dimensions must agree ([ValueError]).  The
    products of arrays of dimension 3 are not used by the notebook and not
    modelled. *)
Definition dot (a b : ndarray) : option ndarray :=
  match a, b with
  | A0 x, A0 y => Some (A0 (x * y))
  | A0 x, A1 v => Some (A1 (map (Rmult x) v))
  | A1 v, A0 y => Some (A1 (map (λ t, t * y) v))
  | A0 x, A2 m => Some (A2 (map (map (Rmult x)) m))
  | A2 m, A0 y => Some (A2 (map (map (λ t, t * y)) m))
  | A1 u, A1 v =>
      if decide (length u = length v) then Some (A0 (dotp u v)) else None
  | A2 m, A1 v =>
      if forallb (λ r, Nat.eqb (length r) (length v)) m
      then Some (A1 (map (λ r, dotp r v) m)) else None
  | A1 u, A2 m =>
      if decide (length u = length m)
      then Some (A1 (map (λ j, dotp u (col j m)) (seq 0 (ncols m)))) else None
  | A2 x, A2 y =>
      if forallb (λ r, Nat.eqb (length r) (length y)) x
      then Some (A2 (matmul x y)) else None
  | _, _ => None
  end.

(** Broadcasting of an elementwise binary operation along one axis: equal
    lengths, or one side of length 1 which is then repeated. *)
Definition zip1 (f : R → R → R) (u v : list R) : option (list R) :=
  if decide (length u = length v) then Some (zip_with f u v)
  else match u, v with
       | [a], _ => Some (map (f a) v)
       | _, [b] => Some (map (λ t, f t b) u)
       | _, _ => None
       end.

Definition zip2 (f : R → R → R) (a b : matrix) : option matrix :=
  if decide (length a = length b)
  then mapM (λ p, zip1 f p.1 p.2) (zip a b)
  else match a, b with
       | [r], _ => mapM (zip1 f r) b
       | _, [s] => mapM (λ r, zip1 f r s) a
       | _, _ => None
       end.

(** [a - b], [a + b], [a / b] on arrays and scalars, with numpy's
    broadcasting (a 1-D array against a 2-D one counts as a single row). *)
Definition broadcast (f : R → R → R) (a b : ndarray) : option ndarray :=
  match a, b with
  | A0 x, A0 y => Some (A0 (f x y))
  | A0 x, A1 v => Some (A1 (map (f x) v))
  | A1 v, A0 y => Some (A1 (map (λ t, f t y) v))
  | A0 x, A2 m => Some (A2 (map (map (f x)) m))
  | A2 m, A0 y => Some (A2 (map (map (λ t, f t y)) m))
  | A0 x, A3 t => Some (A3 (map (map (map (f x))) t))
  | A3 t, A0 y => Some (A3 (map (map (map (λ t, f t y))) t))
  | A1 u, A1 v => A1 <$> zip1 f u v
  | A1 u, A2 m => A2 <$> zip2 f [u] m
  | A2 m, A1 v => A2 <$> zip2 f m [v]
  | A2 m, A2 n => A2 <$> zip2 f m n
  | _, _ => None
  end.

(** An elementwise function ([numpy.exp], [-a], [a ** 2], [astype]). *)
Definition map_nd (f : R → R) (a : ndarray) : ndarray :=
  match a with
  | A0 x => A0 (f x)
  | A1 v => A1 (map f v)
  | A2 m => A2 (map (map f) m)
  | A3 t => A3 (map (map (map f)) t)
  end.

(** The entries of an array in C order. *)
Definition flat (m : matrix) : list R := concat m.

Definition ravel (a : ndarray) : list R :=
  match a with
  | A0 x => [x]
  | A1 v => v
  | A2 m => flat m
  | A3 t => concat (map flat t)
  end.

(** [numpy.mean(a)] over all entries; [nan] on an empty array. *)
Definition mean (a : ndarray) : option R :=
  match ravel a with
  | [] => None
  | x :: v => Some (sum (x :: v) / INR (length (x :: v)))
  end.

(** [numpy.sum(a, axis=1)]; an array of dimension 1 has no axis 1. *)
Definition sum_axis1 (a : ndarray) : option ndarray :=
  match a with
  | A2 m => Some (A1 (map sum m))
  | _ => None
  end.

(** [a.shape[0]] and [a.shape[1]]. *)
Definition shape0 (a : ndarray) : option nat :=
  match a with
  | A0 _ => None
  | A1 v => Some (length v)
  | A2 m => Some (length m)
  | A3 t => Some (length t)
  end.

Definition shape1 (a : ndarray) : option nat :=
  match a with
  | A2 m => Some (ncols m)
  | A3 t => Some (match t with [] => 0%nat | im :: _ => length im end)
  | _ => None
  end.

(** Rows of [k] entries cut from a flat list, [n] of them. *)
Fixpoint chunks (k n : nat) (l : list R) : matrix :=
  match n with
  | O => []
  | S n' => take k l :: chunks k n' (drop k l)
  end.

(** [a.reshape(n, k)]: the entries in C order regrouped in [n] rows of [k];
    the sizes must agree ([ValueError]). *)
Definition reshape (n k : nat) (a : ndarray) : option ndarray :=
  if decide (length (ravel a) = (n * k)%nat)
  then Some (A2 (chunks k n (ravel a))) else None.

(** [numpy.prod(a[0,:,:].shape)] for a 3-D array [a]; [a[0,:,:]] raises an
    [IndexError] when [a] has no entry 0 or fewer than three dimensions. *)
Definition prod_image_shape (a : ndarray) : option nat :=
  match a with
  | A3 (im :: _) => Some (length im * ncols im)%nat
  | _ => None
  end.

End np.

(** ** Array objects, the notebook's namespace and its heap *)

Definition loc := positive.

(** The views the notebook takes of an array; each shares the buffer. *)
Inductive vop :=
| VRows (k : nat)        (* a[:k, :] *)
| VRowsNew (k : nat)     (* a[:k, numpy.newaxis] *)
| VNew                   (* a[:, None] *)
| VT                     (* a.transpose() *)
| VReshape (n k : nat).  (* a.reshape(n, k) *)

Definition apply_vop (o : vop) (a : np.ndarray) : option np.ndarray :=
  match o, a with
  | VRows k, np.A2 m => Some (np.A2 (take k m))
  | VRows k, np.A3 t => Some (np.A3 (take k t))
  | VRowsNew k, np.A1 v => Some (np.A2 (map (λ x, [x]) (take k v)))
  | VRowsNew k, np.A2 m => Some (np.A3 (map (λ r, [r]) (take k m)))
  | VNew, np.A1 v => Some (np.A2 (map (λ x, [x]) v))
  | VNew, np.A2 m => Some (np.A3 (map (λ r, [r]) m))
  | VT, np.A0 x => Some (np.A0 x)
  | VT, np.A1 v => Some (np.A1 v)
  | VT, np.A2 m => Some (np.A2 (np.transpose m))
  | VReshape n k, a => np.reshape n k a
  | _, _ => None
  end.

(** An array object: a buffer and the views taken of it, innermost first. *)
Record ndref := Ndref { buf : loc; view : list vop }.

Definition whole (l : loc) : ndref := Ndref l [].

Definition with_view (o : vop) (a : ndref) : ndref :=
  Ndref (buf a) (view a ++ [o]).

(** The functions the notebook defines with [def]. *)
Inductive fn :=
| Flinear_model | Fevaluate | Flearn | Fsigmoid | Fsoftmax
| Fclassification_model_sigmoid | Fclassification_model_softmax
| Fnonlinear_model2 | Fnonlinear_model3.

(** The objects a global name can be bound to. *)
Inductive value :=
| VArr (a : ndref)
| VFloat (x : R)
| VInt (n : Z)
| VFun (f : fn)
| VModule (name : string).

Record state := State {
  globals : gmap string value;
  heap : gmap loc np.ndarray
}.

(** The contents an array object shows in a heap. *)
Definition deref (h : gmap loc np.ndarray) (a : ndref) : option np.ndarray :=
  foldl (λ acc o, acc ≫= apply_vop o) (h !! buf a) (view a).

(** Computations of the notebook: they read and change the state, and
    fail where Python raises. *)
Definition M (A : Type) : Type := state → option (A * state).

#[export] Instance M_ret : MRet M := λ A a s, Some (a, s).
#[export] Instance M_bind : MBind M :=
  λ A B f c s, match c s with Some (a, s') => f a s' | None => None end.

Definition raise {A} : M A := λ _, None.

Definition lift {A} (o : option A) : M A :=
  λ s, match o with Some a => Some (a, s) | None => None end.

Definition load (a : ndref) : M np.ndarray := λ s, lift (deref (heap s) a) s.

(** A new array: a fresh buffer holding [v]. *)
Definition alloc (v : np.ndarray) : M ndref :=
  λ s, let l := fresh (dom (heap s)) in
       Some (whole l, State (globals s) (<[l := v]> (heap s))).

(** Reading a global name ([NameError] when it is unbound). *)
Definition global (x : string) : M value := λ s, lift (globals s !! x) s.

Definition global_arr (x : string) : M ndref :=
  v ← global x; match v with VArr a => mret a | _ => raise end.

Definition global_float (x : string) : M R :=
  v ← global x;
  match v with VFloat r => mret r | VInt n => mret (IZR n) | _ => raise end.

Definition global_int (x : string) : M Z :=
  v ← global x; match v with VInt n => mret n | _ => raise end.

(** [x = v] at the top level of the notebook. *)
Definition assign (x : string) (v : value) : M unit :=
  λ s, Some (tt, State (<[x := v]> (globals s)) (heap s)).

(** numpy functions as computations: operands are read, the result is a new
    array. *)
Definition np_dot (a b : ndref) : M ndref :=
  x ← load a; y ← load b; z ← lift (np.dot x y); alloc z.

Definition np_binop (f : R → R → R) (a b : ndref) : M ndref :=
  x ← load a; y ← load b; z ← lift (np.broadcast f x y); alloc z.

Definition np_map (f : R → R) (a : ndref) : M ndref :=
  x ← load a; alloc (np.map_nd f x).

Definition np_mean (a : ndref) : M R := x ← load a; lift (np.mean x).

Definition np_sum_axis1 (a : ndref) : M ndref :=
  x ← load a; z ← lift (np.sum_axis1 x); alloc z.

(** A view must make sense for the array it is taken of. *)
Definition np_view (o : vop) (a : ndref) : M ndref :=
  _ ← load (with_view o a); mret (with_view o a).

Definition np_shape0 (a : ndref) : M nat := x ← load a; lift (np.shape0 x).
Definition np_shape1 (a : ndref) : M nat := x ← load a; lift (np.shape1 x).

(** In-place updates.  Only an array that owns its whole buffer is updated
    in place by the notebook; updates through a view are not modelled. *)
Definition np_imap (f : R → R) (a : ndref) : M unit :=
  λ s, match view a, heap s !! buf a with
       | [], Some x =>
           Some (tt, State (globals s) (<[buf a := np.map_nd f x]> (heap s)))
       | _, _ => None
       end.

(** [a[i] = x] for a 1-D array; [IndexError] out of range. *)
Definition np_setitem (a : ndref) (i : nat) (x : R) : M unit :=
  λ s, match view a, heap s !! buf a with
       | [], Some (np.A1 v) =>
           if decide (i < length v)
           then Some (tt, State (globals s) (<[buf a := np.A1 (<[i := x]> v)]> (heap s)))
           else None
       | _, _ => None
       end.

(** ** The functions defined by the MNIST notebook

    Names of functions and modules are resolved statically; global variables
    ([W] in the first [classification_model]) are read from the namespace at
    the call. *)

Local Open Scope R_scope.

(** [numpy.dot(input_images, W)] *)
Definition linear_model (W input_images : ndref) : M ndref :=
  np_dot input_images W.

Definition evaluate (W input_images true_labels : ndref) : M R :=
  predicted_label ← linear_model W input_images;
  diff ← np_binop Rminus true_labels predicted_label;
  sq ← np_map (λ t, t ^ 2) diff;
  np_mean sq.

(** The default value of [learn]'s parameter [learning_rate]. *)
Definition learning_rate_default : R := 1 / 1000000.

(** [2./n] raises [ZeroDivisionError] for the Python integer [n = 0]. *)
Definition learn (input_images true_labels current_W : ndref)
    (learning_rate : R) : M ndref :=
  n ← np_shape0 input_images;
  label_predictions ← linear_model current_W input_images;
  c ← (if decide (n = 0%nat) then raise else mret (2 / INR n));
  xt ← np_view VT input_images;
  diff ← np_binop Rminus label_predictions true_labels;
  g ← np_dot xt diff;
  dJW_dW ← np_map (Rmult c) g;
  step ← np_map (Rmult learning_rate) dJW_dW;
  new_W ← np_binop Rminus current_W step;
  mret new_W.

(** The scalar function computed entrywise by [sigmoid]. *)
Definition sigmoid1 (x : R) : R := 1 / (1 + exp (- x)).

(** [z = 1/(1 + numpy.exp(-x))], one new array per operation.  The entries
    are real numbers and [exp] is the real exponential: what is proved of
    the values of [sigmoid] holds in exact arithmetic (in [float64] the
    result is rounded, and is 1.0 for a score of 40 and 0.0 for a score of
    -1000). *)
Definition sigmoid (x : ndref) : M ndref :=
  nx ← np_map Ropp x;
  e ← np_map exp nx;
  d ← np_map (Rplus 1) e;
  z ← np_map (Rdiv 1) d;
  mret z.

(** The first [classification_model]: its body names the global [W]; the
    parameter [A] does not occur in it. *)
Definition classification_model (A b input_images : ndref) : M ndref :=
  W ← global_arr "W";
  xw ← np_dot input_images W;
  s ← np_binop Rplus xw b;
  sigmoid s.

(** [normalization = numpy.sum(numpy.exp(x), axis=1)],
    [z = numpy.exp(x) / normalization[:,None]].  As for [sigmoid], the
    entries are real numbers: what is proved of the values of [softmax]
    holds in exact arithmetic (in [float64] the entries of a row sum to 1
    only up to rounding, and a score of 1000 overflows to [inf], which
    gives [nan]). *)
Definition softmax (x : ndref) : M ndref :=
  e ← np_map exp x;
  normalization ← np_sum_axis1 e;
  e' ← np_map exp x;
  ncol ← np_view VNew normalization;
  z ← np_binop Rdiv e' ncol;
  mret z.

(** The second [classification_model], with softmax; here [W] is the
    parameter. *)
Definition classification_model_softmax (W b input_images : ndref) : M ndref :=
  xw ← np_dot input_images W;
  s ← np_binop Rplus xw b;
  softmax s.

(** The first [nonlinear_model], two layers. *)
Definition nonlinear_model (W1 W2 b1 b2 input_images : ndref) : M ndref :=
  x1 ← np_dot input_images W1;
  s1 ← np_binop Rplus x1 b1;
  h1 ← sigmoid s1;
  x2 ← np_dot h1 W2;
  s2 ← np_binop Rplus x2 b2;
  sigmoid s2.

(** The second [nonlinear_model], three layers. *)
Definition nonlinear_model3 (A1 A2 A3 b1 b2 b3 input_images : ndref) : M ndref :=
  x1 ← np_dot input_images A1;
  s1 ← np_binop Rplus x1 b1;
  h1 ← sigmoid s1;
  x2 ← np_dot h1 A2;
  s2 ← np_binop Rplus x2 b2;
  h2 ← sigmoid s2;
  x3 ← np_dot h2 A3;
  s3 ← np_binop Rplus x3 b3;
  sigmoid s3.

(** ** The cells of the MNIST notebook

    What the notebook takes from outside: the MNIST arrays returned by
    [tf.keras.datasets.mnist.load_data()] (pixels and labels are integers)
    and, for each call of [numpy.random.rand], the stream of its draws. *)

Record world := World {
  mnist_x_train : list (list (list Z));
  mnist_y_train : list Z;
  mnist_x_test : list (list (list Z));
  mnist_y_test : list Z;
  draws_W : nat → R;
  draws_W10 : nat → R;
  draws_b : nat → R
}.

Definition pixels (t : list (list (list Z))) : np.ndarray :=
  np.A3 (map (map (map IZR)) t).

Definition labels (v : list Z) : np.ndarray := np.A1 (map IZR v).

(** [numpy.random.rand(r, c)] and [numpy.random.rand(n,)] filled from a
    stream of draws. *)
Definition rand2 (draws : nat → R) (r c : nat) : np.matrix :=
  map (λ i, map (λ j, draws (i * c + j)%nat) (seq 0 c)) (seq 0 r).

Definition rand1 (draws : nat → R) (n : nat) : list R := map draws (seq 0 n).

(** [numpy.zeros(n,)] *)
Definition np_zeros (n : Z) : M ndref :=
  if decide (n < 0)%Z then raise else alloc (np.A1 (replicate (Z.to_nat n) 0)).

(** [numpy.arange(-10, 10, step=.1)]: 200 points. *)
Definition np_arange_sigmoid_plot : M ndref :=
  alloc (np.A1 (map (λ k, -10 + INR k * (1 / 10)) (seq 0 200))).

Definition one_hot (nb : nat) (x : R) : list R :=
  map (λ j, if Req_dec_T x (INR j) then 1 else 0) (seq 0 nb).

(** [tf.keras.utils.to_categorical(y, nb)] for a 1-D array of labels, each
    below [nb] ([IndexError] otherwise). *)
Definition to_categorical (y : ndref) (nb : Z) : M ndref :=
  x ← load y;
  match x with
  | np.A1 v =>
      if forallb (λ t, if Rlt_dec t (IZR nb) then true else false) v
      then alloc (np.A2 (map (one_hot (Z.to_nat nb)) v))
      else raise
  | _ => raise
  end.

(** [a[i]] and [a[i,:]] are read for display only: they must exist. *)
Definition np_item (a : ndref) (i : nat) : M unit :=
  n ← np_shape0 a; if decide (i < n)%nat then mret tt else raise.

Definition np_row (a : ndref) (i : nat) : M (list R) :=
  x ← load a;
  match x with np.A2 m => lift (m !! i) | _ => raise end.

(** [for x in range(lo, hi): body], at the top level of a cell: the loop
    variable is a global name. *)
Fixpoint for_each (x : string) (l : list nat) (body : nat → M unit) : M unit :=
  match l with
  | [] => mret tt
  | i :: l' => assign x (VInt (Z.of_nat i));; body i;; for_each x l' body
  end.

Definition for_range (x : string) (lo hi : nat) (body : nat → M unit) : M unit :=
  for_each x (seq lo (hi - lo)) body.

(** [import tensorflow as tf], [import numpy], [import matplotlib.pyplot
    as plt] *)
Definition cell_imports : M unit :=
  assign "tf" (VModule "tensorflow");;
  assign "numpy" (VModule "numpy");;
  assign "plt" (VModule "matplotlib.pyplot").

Definition cell_load_data (w : world) : M unit :=
  xtr ← alloc (pixels (mnist_x_train w));
  ytr ← alloc (labels (mnist_y_train w));
  xte ← alloc (pixels (mnist_x_test w));
  yte ← alloc (labels (mnist_y_test w));
  assign "x_train" (VArr xtr);;
  assign "y_train" (VArr ytr);;
  assign "x_test" (VArr xte);;
  assign "y_test" (VArr yte).

(** [x = x.astype(...)]: a copy with the same entries. *)
Definition astype (x : string) : M unit :=
  a ← global_arr x; a' ← np_map (λ t, t) a; assign x (VArr a').

(** [x /= 255.], in place. *)
Definition idiv255 (x : string) : M unit :=
  a ← global_arr x; np_imap (λ t, t / 255) a.

Definition cell_normalize : M unit :=
  astype "x_train";; astype "x_test";;
  idiv255 "x_train";; idiv255 "x_test".

(** [x = x.reshape(x.shape[0], numpy.prod(x[0,:,:].shape))] *)
Definition flatten (x : string) : M unit :=
  a ← global_arr x;
  n ← np_shape0 a;
  v ← load a;
  k ← lift (np.prod_image_shape v);
  a' ← np_view (VReshape n k) a;
  assign x (VArr a').

Definition cell_flatten : M unit := flatten "x_train";; flatten "x_test".

Definition cell_labels : M unit := astype "y_train";; astype "y_test".

(** The cells that draw the first ten digits: the figures are output, the
    namespace keeps [pltsize] and the loop variable. *)
Definition show_digit (i : nat) : M unit :=
  x ← global_arr "x_train";
  r ← np_row x i;
  (if decide (length r = 28 * 28)%nat then mret tt else raise);;
  y ← global_arr "y_train";
  np_item y i.

Definition cell_show_digits : M unit :=
  assign "pltsize" (VInt 1);;
  for_range "i" 0 10 show_digit.

Definition cell_def_linear_model : M unit :=
  assign "linear_model" (VFun Flinear_model).
Definition cell_def_evaluate : M unit := assign "evaluate" (VFun Fevaluate).
Definition cell_def_learn : M unit := assign "learn" (VFun Flearn).

Definition cell_batch : M unit :=
  assign "batch_size" (VInt 100);;
  bs ← global_int "batch_size";
  x ← global_arr "x_train";
  xb ← np_view (VRows (Z.to_nat bs)) x;
  assign "x_train_batch" (VArr xb);;
  bs' ← global_int "batch_size";
  y ← global_arr "y_train";
  yb ← np_view (VRowsNew (Z.to_nat bs')) y;
  assign "y_train_batch" (VArr yb).

(** [W = .01 * numpy.random.rand(r, c)] *)
Definition init_weights (x : string) (draws : nat → R) (r c : nat) : M unit :=
  a ← alloc (np.A2 (rand2 draws r c));
  a' ← np_map (Rmult (1 / 100)) a;
  assign x (VArr a').

(** The body of the training loop. *)
Definition training_step (i : nat) : M unit :=
  xb ← global_arr "x_train_batch";
  yb ← global_arr "y_train_batch";
  W ← global_arr "W";
  lr ← global_float "learning_rate";
  W' ← learn xb yb W lr;
  assign "W" (VArr W');;
  W ← global_arr "W";
  xb ← global_arr "x_train_batch";
  yb ← global_arr "y_train_batch";
  loss ← evaluate W xb yb;
  losses ← global_arr "losses";
  np_setitem losses i loss.

(** [for i in range(0, num_iters): ...] *)
Definition training_loop : M unit :=
  n ← global_int "num_iters";
  for_range "i" 0 (Z.to_nat n) training_step.

Definition num_iters : Z := 5000.

(** The statements of the training cell that come before its loop. *)
Definition train_setup (w : world) : M unit :=
  x ← global_arr "x_train";
  nf ← np_shape1 x;
  assign "num_features" (VInt (Z.of_nat nf));;
  nf ← global_int "num_features";
  init_weights "W" (draws_W w) (Z.to_nat nf) 1;;
  assign "learning_rate" (VFloat (5 / 10000));;
  assign "num_iters" (VInt num_iters);;
  n ← global_int "num_iters";
  losses ← np_zeros n;
  assign "losses" (VArr losses).

(** The training cell; [plt.plot(losses)] after the loop draws a figure. *)
Definition cell_train (w : world) : M unit :=
  train_setup w;; training_loop.

Definition show_prediction (i : nat) : M unit :=
  x ← global_arr "x_train";
  r ← np_row x i;
  (if decide (length r = 28 * 28)%nat then mret tt else raise);;
  p ← global_arr "predicted_labels";
  np_item p i.

Definition cell_check_results : M unit :=
  assign "pltsize" (VInt 1);;
  W ← global_arr "W";
  x ← global_arr "x_train";
  x10 ← np_view (VRows 10) x;
  p ← linear_model W x10;
  assign "predicted_labels" (VArr p);;
  for_range "i" 0 10 show_prediction.

Definition cell_def_sigmoid : M unit :=
  assign "sigmoid" (VFun Fsigmoid);;
  assign "classification_model" (VFun Fclassification_model_sigmoid).

Definition cell_plot_sigmoid : M unit :=
  x ← np_arange_sigmoid_plot;
  assign "x" (VArr x);;
  x ← global_arr "x";
  _ ← sigmoid x;
  mret tt.

Definition cell_onehot : M unit :=
  assign "nb_classes" (VInt 10);;
  y ← global_arr "y_train";
  nb ← global_int "nb_classes";
  a ← to_categorical y nb;
  assign "y_train_onehot" (VArr a);;
  y ← global_arr "y_test";
  nb ← global_int "nb_classes";
  a ← to_categorical y nb;
  assign "y_test_onehot" (VArr a).

Definition show_onehot (i : nat) : M unit :=
  show_digit i;;
  y ← global_arr "y_train_onehot";
  np_item y i.

Definition cell_show_onehot : M unit :=
  assign "pltsize" (VInt 1);;
  for_range "i" 0 10 show_onehot.

Definition cell_def_softmax : M unit := assign "softmax" (VFun Fsoftmax).

Definition cell_init_classifier (w : world) : M unit :=
  nf ← global_int "num_features";
  init_weights "W" (draws_W10 w) (Z.to_nat nf) 10;;
  b ← alloc (np.A1 (rand1 (draws_b w) 10));
  b' ← np_map (Rmult (1 / 100)) b;
  assign "b" (VArr b');;
  assign "classification_model" (VFun Fclassification_model_softmax).

Definition cell_apply_classifier : M unit :=
  W ← global_arr "W";
  b ← global_arr "b";
  x ← global_arr "x_train";
  x5 ← np_view (VRows 5) x;
  p ← classification_model_softmax W b x5;
  assign "predicted_labels" (VArr p).

(** [print(predicted_labels[0,:])], [print(sum(predicted_labels[0,:]))] *)
Definition cell_print_probabilities : M unit :=
  p ← global_arr "predicted_labels";
  _ ← np_row p 0;
  mret tt.

Definition cell_def_nonlinear_model : M unit :=
  assign "nonlinear_model" (VFun Fnonlinear_model2).

Definition cell_def_nonlinear_model3 : M unit :=
  assign "nonlinear_model" (VFun Fnonlinear_model3).

(** The code cells in the order of the notebook. *)
Definition notebook (w : world) : list (M unit) :=
  [ cell_imports; cell_load_data w; cell_normalize; cell_flatten; cell_labels;
    cell_show_digits; cell_def_linear_model; cell_def_evaluate; cell_def_learn;
    cell_batch; cell_train w; cell_check_results; cell_def_sigmoid;
    cell_plot_sigmoid; cell_onehot; cell_show_onehot; cell_def_softmax;
    cell_init_classifier w; cell_apply_classifier; cell_print_probabilities;
    cell_def_nonlinear_model; cell_def_nonlinear_model3 ].

(** Running cells one after the other. *)
Definition run (cells : list (M unit)) : M unit :=
  foldr (λ c k, c;; k) (mret tt) cells.

(** A fresh kernel: nothing is bound, nothing is allocated. *)
Definition fresh_kernel : state := State ∅ ∅.

(** ** The pandas operations of the dataset notebook

    A data frame is a list of column names and, in order, its rows: the
    index label of the row and its cells, one per column.  Cells are the
    integers, texts and missing values ([NaN]) of the real-estate table. *)

Module pd.

Inductive cell := Num (z : Z) | Text (s : string) | NaN.

Record DataFrame := Frame {
  columns : list string;
  rows : list (Z * list cell)
}.

Definition Series : Type := list (Z * cell).

Definition position (name : string) (cols : list string) : option nat :=
  fst <$> list_find (λ c, c = name) cols.

(** [df[name]]: a [KeyError] when there is no such column. *)
Definition getitem (df : DataFrame) (name : string) : option Series :=
  p ← position name (columns df);
  mapM (λ r, c ← r.2 !! p; Some (r.1, c)) (rows df).

(** [s > k]: a missing value compares false, a text raises [TypeError]. *)
Definition gt_cell (k : Z) (c : cell) : option bool :=
  match c with
  | Num z => Some (bool_decide (k < z)%Z)
  | NaN => Some false
  | Text _ => None
  end.

Definition series_gt (s : Series) (k : Z) : option (list (Z * bool)) :=
  mapM (λ ic, b ← gt_cell k ic.2; Some (ic.1, b)) s.

(** [df[mask]] for a boolean series with the index of [df]: the rows whose
    entry is [True], in order. *)
Definition getitem_mask (df : DataFrame) (mask : list (Z * bool)) : option DataFrame :=
  if decide (mask.*1 = (rows df).*1)
  then Some (Frame (columns df)
               ((filter (λ rb, rb.2 = true) (zip (rows df) mask.*2)).*1))
  else None.

(** [df[[name1, name2, ...]]]: the named columns, in the order asked. *)
Definition getitem_cols (df : DataFrame) (names : list string) : option DataFrame :=
  ps ← mapM (λ n, position n (columns df)) names;
  rs ← mapM (λ r, cs ← mapM (λ p, r.2 !! p) ps; Some (r.1, cs)) (rows df);
  Some (Frame names rs).

(** [df.to_csv(path)] with its default arguments ([index=True],
    [header=True], [sep=','], minimal quoting, and the line terminator of
    the platform, here a line feed): the header line starts with the empty
    name of the index, and every record starts with the index label of its
    row.  A field is quoted when it holds the separator, the quote or a
    character of the line terminator. *)
Definition dquote : ascii := ascii_of_nat 34.
Definition newline : string := String (ascii_of_nat 10) EmptyString.

Definition special (c : ascii) : bool :=
  bool_decide (c ∈ [ascii_of_nat 44; dquote; ascii_of_nat 10]).

Fixpoint double_quotes (s : string) : string :=
  match s with
  | EmptyString => EmptyString
  | String c s' =>
      if bool_decide (c = dquote) then String c (String c (double_quotes s'))
      else String c (double_quotes s')
  end.

Definition field (s : string) : string :=
  if existsb special (list_ascii_of_string s)
  then String dquote (double_quotes s +:+ String dquote EmptyString)
  else s.

(** The text of a cell of a column of integers or of texts.  A column of
    numbers with a missing value is a column of floats in pandas, whose
    numbers are written with a decimal point ([208500.0]): the text of such
    a column is not what [fmt] gives, and the theorem on the written file
    is stated for columns of integers. *)
Definition fmt (c : cell) : string :=
  match c with
  | Num z => pretty z
  | Text s => field s
  | NaN => ""
  end.

(** The table of the written file: a header, then one record per row. *)
Definition csv_table (df : DataFrame) : list (list string) :=
  ("" :: map field (columns df))
  :: map (λ r, pretty r.1 :: map fmt r.2) (rows df).

Definition csv_text (t : list (list string)) : string :=
  String.concat "" (map (λ l, String.concat "," l +:+ newline) t).

Definition to_csv (df : DataFrame) : string := csv_text (csv_table df).

End pd.

(** ** The dataset notebook: [df2], [slim_df] and the file it writes *)

(** [df2 = df[df['OverallCond'] > 5]] *)
Definition df2 (df : pd.DataFrame) : option pd.DataFrame :=
  s ← pd.getitem df "OverallCond";
  mask ← pd.series_gt s 5;
  pd.getitem_mask df mask.

(** [slim_df = df2[['SalePrice','GrLivArea']]] *)
Definition slim_df (df : pd.DataFrame) : option pd.DataFrame :=
  d ← df2 df; pd.getitem_cols d ["SalePrice"; "GrLivArea"].

(** The contents of [slimmed_realestate_data.csv] after
    [slim_df.to_csv('slimmed_realestate_data.csv')]. *)
Definition slimmed_realestate_data (df : pd.DataFrame) : option string :=
  pd.to_csv <$> slim_df df.

(** ** Reference definitions, written after the specification

    These follow the formulas of the specification, entry by entry; the
    theorems below compare them with what the code above computes. *)

Definition entry (m : np.matrix) (i j : nat) : R := nth j (nth i m []) 0.

(** [F 0 + F 1 + ... + F (n-1)] *)
Fixpoint sum_upto (n : nat) (F : nat → R) : R :=
  match n with
  | O => 0
  | S n' => sum_upto n' F + F n'
  end.

Definition tabulate (r c : nat) (F : nat → nat → R) : np.matrix :=
  map (λ i, map (F i) (seq 0 c)) (seq 0 r).

(** [(X W)[i, c]], the prediction of the linear model. *)
Definition prediction (X W : np.matrix) (i c : nat) : R :=
  sum_upto (length W) (λ k, entry X i k * entry W k c).

(** [W - eta * (2/n) * X^T (X W - y)]: entry [(j, c)] is
    [W[j,c] - eta * (2/n) * sum_i X[i,j] * ((X W)[i,c] - y[i,c])]. *)
Definition gradient_step (X y W : np.matrix) (eta : R) : np.matrix :=
  tabulate (length W) (np.ncols W) (λ j c,
    entry W j c
    - eta * (2 / INR (length X))
      * sum_upto (length X) (λ i, entry X i j * (prediction X W i c - entry y i c))).

(** [(1/n) * sum_i (y_i - (X W)_i)^2] for a column of labels [y] and a
    column of weights [W]. *)
Definition mean_squared_error (X y W : np.matrix) : R :=
  1 / INR (length X)
  * sum_upto (length X) (λ i, (entry y i 0 - prediction X W i 0) ^ 2).

(** The same two formulas when the labels and the weights are arrays of
    one dimension. *)
Definition prediction_1d (X : np.matrix) (W : list R) (i : nat) : R :=
  sum_upto (length W) (λ k, entry X i k * nth k W 0).

Definition gradient_step_1d (X : np.matrix) (y W : list R) (eta : R) : list R :=
  map (λ j,
    nth j W 0
    - eta * (2 / INR (length X))
      * sum_upto (length X) (λ i, entry X i j * (prediction_1d X W i - nth i y 0)))
    (seq 0 (length W)).

Definition mean_squared_error_1d (X : np.matrix) (y W : list R) : R :=
  1 / INR (length X)
  * sum_upto (length X) (λ i, (nth i y 0 - prediction_1d X W i) ^ 2).

(** A 2-D array of shape [(r, c)]. *)
Definition has_shape (r c : nat) (m : np.matrix) : Prop :=
  length m = r ∧ np.rect c m.

(** A row that is a probability distribution. *)
Definition distribution (p : list R) : Prop :=
  Forall (λ t, 0 < t) p ∧ np.sum p = 1.

(** The table of the real-estate notebook: the cell of a row in a named
    column, and the rows the filter is meant to keep. *)
Definition cell_at (df : pd.DataFrame) (name : string) (r : Z * list pd.cell) :
    option pd.cell :=
  p ← pd.position name (pd.columns df); r.2 !! p.

Definition rated_above_5 (df : pd.DataFrame) (r : Z * list pd.cell) : bool :=
  match cell_at df "OverallCond" r with
  | Some (pd.Num z) => bool_decide (5 < z)%Z
  | _ => false
  end.

(** A column that exists in every row and holds no text. *)
Definition numeric_column (df : pd.DataFrame) (name : string) : Prop :=
  ∃ p, pd.position name (pd.columns df) = Some p ∧
       Forall (λ r, ∃ c, r.2 !! p = Some c ∧ ∀ s, c ≠ pd.Text s) (pd.rows df).

Definition has_column (df : pd.DataFrame) (name : string) : Prop :=
  ∃ p, pd.position name (pd.columns df) = Some p ∧
       Forall (λ r, is_Some (r.2 !! p)) (pd.rows df).

(** The file as the specification describes it: the sale price and the
    living area of the filtered rows, and nothing else. *)
Definition two_column_file (df : pd.DataFrame) : string :=
  pd.csv_text
    (["SalePrice"; "GrLivArea"]
     :: map (λ r, [pd.fmt (default pd.NaN (cell_at df "SalePrice" r));
                   pd.fmt (default pd.NaN (cell_at df "GrLivArea" r))])
          (filter (λ r, rated_above_5 df r = true) (pd.rows df))).

(** The file with the index labels in front, as [to_csv] writes it. *)
Definition indexed_file (df : pd.DataFrame) : string :=
  pd.csv_text
    ([""; "SalePrice"; "GrLivArea"]
     :: map (λ r, [pretty r.1;
                   pd.fmt (default pd.NaN (cell_at df "SalePrice" r));
                   pd.fmt (default pd.NaN (cell_at df "GrLivArea" r))])
          (filter (λ r, rated_above_5 df r = true) (pd.rows df))).

(** A column that holds an integer in every row of the table (a column of
    dtype [int64], written by [to_csv] in decimal), and the integer that a
    row holds in it. *)
Definition integer_column (df : pd.DataFrame) (name : string) : Prop :=
  ∃ p, pd.position name (pd.columns df) = Some p ∧
       Forall (λ r, ∃ z, r.2 !! p = Some (pd.Num z)) (pd.rows df).

Definition integer_at (df : pd.DataFrame) (name : string)
    (r : Z * list pd.cell) : Z :=
  match cell_at df name r with Some (pd.Num z) => z | _ => 0%Z end.

(** The text of the file for a table whose prices and areas are integers,
    character by character: the line [,SalePrice,GrLivArea], then one line
    for each row rated above 5, in the order of the table, with the index
    label, the price and the area of the row in decimal, separated by
    commas. *)
Definition record_line (r : Z) (price area : Z) : string :=
  pretty r +:+ "," +:+ pretty price +:+ "," +:+ pretty area +:+ pd.newline.

Definition integer_file (df : pd.DataFrame) : string :=
  ",SalePrice,GrLivArea" +:+ pd.newline
  +:+ String.concat ""
        (map (λ r, record_line r.1 (integer_at df "SalePrice" r)
                     (integer_at df "GrLivArea" r))
           (filter (λ r, rated_above_5 df r = true) (pd.rows df))).

(** The first rows of a table shaped like the Kaggle file. *)
Definition example_df : pd.DataFrame :=
  pd.Frame ["Id"; "OverallCond"; "GrLivArea"; "SalePrice"]
    [ (0, [pd.Num 1; pd.Num 5; pd.Num 1710; pd.Num 208500]);
      (1, [pd.Num 2; pd.Num 8; pd.Num 1262; pd.Num 181500]);
      (2, [pd.Num 3; pd.Num 6; pd.Num 1786; pd.Num 223500]);
      (3, [pd.Num 4; pd.Num 5; pd.Num 1717; pd.Num 140000]);
      (4, [pd.Num 5; pd.Num 4; pd.Num 2198; pd.Num 250000]) ]%Z.

(** ** Predicates on computations and states *)

(** [s'] has the namespace of [s] and every buffer of [s], unchanged. *)
Definition extends (s s' : state) : Prop :=
  globals s' = globals s ∧ heap s ⊆ heap s'.

(** A computation that binds no name and writes to no existing buffer. *)
Definition readonly {A} (c : M A) : Prop :=
  ∀ s a s', c s = Some (a, s') → extends s s'.

(** [c] returns from [s], having only allocated, with a result and a state
    that satisfy [Q]. *)
Definition computes {A} (c : M A) (s : state) (Q : A → state → Prop) : Prop :=
  ∃ a s', c s = Some (a, s') ∧ extends s s' ∧ Q a s'.

(** [c] returns from [s] with a result and a state that satisfy [Q]. *)
Definition wp {A} (c : M A) (s : state) (Q : A → state → Prop) : Prop :=
  ∃ a s', c s = Some (a, s') ∧ Q a s'.

(** The global [x] is bound to an array whose contents are [v]. *)
Definition holds (s : state) (x : string) (v : np.ndarray) : Prop :=
  ∃ a, globals s !! x = Some (VArr a) ∧ deref (heap s) a = Some v.

(** A computation that leaves the binding of the name [x] as it is. *)
Definition keeps {A} (x : string) (c : M A) : Prop :=
  ∀ s a s', c s = Some (a, s') → globals s' !! x = globals s !! x.

(** What [softmax] makes of one row of scores. *)
Definition softmax_row (u : list R) : list R :=
  map (λ t, t / np.sum (map exp u)) (map exp u).

(** A label vector as the column [y[:, numpy.newaxis]]. *)
Definition column (v : list R) : np.matrix := map (λ t, [t]) v.

(** The pixel [(r, c)] of image [i] in a 3-D array. *)
Definition pixel (t : list np.matrix) (i r c : nat) : R :=
  nth c (nth r (nth i t []) []) 0.

(** A 3-D array of shape [(n, h, w)]. *)
Definition has_shape3 (n h w : nat) (t : list np.matrix) : Prop :=
  length t = n ∧ Forall (has_shape h w) t.

(** The weights after [j] gradient steps on the batch [(X, y)], and the
    loss recorded by iteration [i] of the loop. *)
Definition weights_after (X y W0 : np.matrix) (eta : R) (j : nat) : np.matrix :=
  Nat.iter j (λ W, gradient_step X y W eta) W0.

Definition loss_at (X y W0 : np.matrix) (eta : R) (i : nat) : R :=
  mean_squared_error X y (weights_after X y W0 eta (S i)).

(** The state of the notebook once [j] iterations of the loop are done,
    compared with the state [s1] in which the loop started; [ll] is the
    buffer of [losses], which holds [N] entries. *)
Definition after_iterations (X y W0 : np.matrix) (eta : R) (N : nat)
    (ll : loc) (s1 : state) (j : nat) (s : state) : Prop :=
  (∀ name, name ≠ "W" → name ≠ "i" → globals s !! name = globals s1 !! name) ∧
  (∀ l v, heap s1 !! l = Some v → l ≠ ll → heap s !! l = Some v) ∧
  holds s "W" (np.A2 (weights_after X y W0 eta j)) ∧
  heap s !! ll = Some (np.A1 (map (loss_at X y W0 eta) (seq 0 j)
                                ++ replicate (N - j) 0)) ∧
  (∀ j', j = S j' → globals s !! "i" = Some (VInt (Z.of_nat j'))).

(** The weights the training cell starts from: [.01 * rand(f, 1)]. *)
Definition initial_weights (w : world) (f : nat) : np.matrix :=
  map (map (Rmult (1 / 100))) (rand2 (draws_W w) f 1).

(** The learning rate set by the training cell. *)
Definition learning_rate : R := 5 / 10000.

(** A small run: one training example of one pixel. *)
Definition example_world : world :=
  World [] [] [] [] (λ _, 0) (λ _, 0) (λ _, 0).

Definition example_state : state :=
  State (<["x_train" := VArr (whole 1%positive)]>
           (<["y_train" := VArr (whole 2%positive)]> ∅))
        (<[1%positive := np.A2 [[1]]]> (<[2%positive := np.A1 [1]]> ∅)).

(** The frame the specification gives the loop: no name other than [W]
    and [losses] is bound to another object by it. *)
Definition only_W_and_losses_change (s1 s2 : state) : Prop :=
  ∀ name, name ≠ "W" → name ≠ "losses" → globals s2 !! name = globals s1 !! name.

(** Some cell of [cells] binds the name [x] to another object: an update
    of the variable [x] by the notebook. *)
Definition updates (x : string) (cells : list (M unit)) : Prop :=
  ∃ c s s', c ∈ cells ∧ c s = Some (tt, s') ∧ globals s' !! x ≠ globals s !! x.

(** The names of the parameters of the two-layer perceptron. *)
Definition perceptron_parameters : list string := ["W1"; "b1"; "W2"; "b2"].

(** The MNIST arrays as loaded: [n] images of [h] rows of [w] pixels, each
    pixel an integer from 0 to 255. *)
Definition images_shape (n h w : nat) (t : list (list (list Z))) : Prop :=
  length t = n ∧ Forall (λ im, length im = h ∧ Forall (λ r, length r = w) im) t.

Definition pixels_in_range (t : list (list (list Z))) : Prop :=
  Forall (Forall (Forall (λ p, (0 ≤ p ≤ 255)%Z))) t.

(** The images after [astype(numpy.float32)] and [/= 255.]. *)
Definition normalized (t : list (list (list Z))) : list np.matrix :=
  map (map (map (λ p, IZR p / 255))) t.

Definition in_unit_interval (t : R) : Prop := 0 <= t <= 1.

(** Two images of two rows of two pixels, and one test image. *)
Definition example_mnist : world :=
  World [[[0; 255]; [128; 7]]; [[1; 2]; [3; 4]]]%Z [5; 0]%Z
        [[[9; 8]; [7; 6]]]%Z [3]%Z (λ _, 0) (λ _, 0) (λ _, 0).

(** A heap with a batch of one example [X = [[2]]], its label and a weight
    as columns ([[[1]]], [[[0]]]) and as arrays of one dimension ([[1]],
    [[0]]); and one with a score matrix of one row and no column. *)
Definition example_arrays : state :=
  State ∅ (<[1%positive := np.A2 [[2]]]>
             (<[2%positive := np.A2 [[1]]]>
                (<[3%positive := np.A2 [[0]]]>
                   (<[4%positive := np.A1 [1]]>
                      (<[5%positive := np.A1 [0]]> ∅))))).

Definition no_scores : state := State ∅ (<[1%positive := np.A2 [[]]]> ∅).

(** A state in which an iteration of the training loop can run: a batch of
    one example [X = [[2]]] with its label [[[1]]], the weight [[[0]]], the
    learning rate of the notebook and a record of one loss. *)
Definition example_step : state :=
  State (<["x_train_batch" := VArr (whole 1%positive)]>
           (<["y_train_batch" := VArr (whole 2%positive)]>
              (<["W" := VArr (whole 3%positive)]>
                 (<["learning_rate" := VFloat (5 / 10000)]>
                    (<["losses" := VArr (whole 4%positive)]> ∅)))))
        (<[1%positive := np.A2 [[2]]]>
           (<[2%positive := np.A2 [[1]]]>
              (<[3%positive := np.A2 [[0]]]>
                 (<[4%positive := np.A1 [0]]> ∅)))).

(** A heap with a batch of two examples [X = [[1]; [2]]], their labels as
    an array of one dimension [[1; 2]] and a weight as a column [[[1]]]: the
    weight fits the labels. *)
Definition flat_labels : state :=
  State ∅ (<[1%positive := np.A2 [[1]; [2]]]>
             (<[2%positive := np.A1 [1; 2]]>
                (<[3%positive := np.A2 [[1]]]> ∅))).

(** ** Further computations, reference definitions and example inputs *)

(** [numpy.reshape(x_train[i,:], (28, 28))], the array that the display
    cells pass to [plt.imshow]. *)
Definition displayed_digit (i : nat) : M np.ndarray :=
  x ← global_arr "x_train";
  r ← np_row x i;
  lift (np.reshape 28 28 (np.A1 r)).

(** A layer [act(x W + b)], the bias being added to every row: entry
    [(i, l)] is [act((x W)[i, l] + b[l])]. *)
Definition dense (act : R → R) (x W : np.matrix) (b : list R) : np.matrix :=
  tabulate (length x) (length b) (λ i l, act (prediction x W i l + nth l b 0)).

(** [z] is the one-hot encoding of the labels [ls] in [nb] classes: one row
    of [nb] entries per label, with 1 at the position of the label and 0
    elsewhere. *)
Definition encodes (ls : list Z) (nb : nat) (z : list (list R)) : Prop :=
  has_shape (length ls) nb z ∧
  ∀ i l row, ls !! i = Some l → z !! i = Some row →
    np.sum row = 1 ∧
    ∀ j, (j < nb)%nat → nth j row 0 = if decide (Z.of_nat j = l) then 1 else 0.

(** A heap with a batch of no example, and one with a batch of one feature
    next to weights for two features. *)
Definition empty_batch : state := State ∅ (<[1%positive := np.A2 []]> ∅).

Definition mismatched : state :=
  State ∅ (<[1%positive := np.A2 [[2]]]> (<[2%positive := np.A2 [[1]; [1]]]> ∅)).

(** Two blank training images of 28 by 28 pixels and one test image. *)
Definition blank_image : list (list Z) := replicate 28 (replicate 28 0%Z).

Definition example_digits : world :=
  World [blank_image; blank_image] [5; 0]%Z [blank_image] [3]%Z
        (λ _, 0) (λ _, 0) (λ _, 0).

(** Two training labels and one test label, bound to their names. *)
Definition example_labels : state :=
  State (<["y_train" := VArr (whole 1%positive)]>
           (<["y_test" := VArr (whole 2%positive)]> ∅))
        (<[1%positive := labels [2; 0]%Z]> (<[2%positive := labels [9]%Z]> ∅)).

(** The training set of one example, with its number of features bound. *)
Definition example_features : state :=
  State (<["num_features" := VInt 1]> (globals example_state))
        (heap example_state).

(** A table without the rating column, and one whose rating column holds
    a text. *)
Definition unrated_df : pd.DataFrame :=
  pd.Frame ["Id"; "GrLivArea"; "SalePrice"]
    [ (0, [pd.Num 1; pd.Num 1710; pd.Num 208500]) ]%Z.

Definition text_rated_df : pd.DataFrame :=
  pd.Frame ["Id"; "OverallCond"; "GrLivArea"; "SalePrice"]
    [ (0, [pd.Num 1; pd.Num 8; pd.Num 1710; pd.Num 208500]);
      (1, [pd.Num 2; pd.Text "good"; pd.Num 1262; pd.Num 181500]) ]%Z.

(** * Proofs *)

(** ** Lists of reals and tabulated matrices *)

Lemma sum_map_seq (n : nat) (F : nat → R) :
  np.sum (map F (seq 0 n)) = sum_upto n F.
Proof.
  induction n as [|n IH]; [done|].
  rewrite seq_S, map_app. cbn [sum_upto]. rewrite <- IH.
  unfold np.sum. rewrite foldr_app. cbn.
  generalize (map F (seq 0 n)) as l. intros l.
  induction l as [|x l IHl]; cbn; [lra|]. rewrite IHl. lra.
Qed.

Lemma sum_upto_ext (n : nat) (F G : nat → R) :
  (∀ i, (i < n)%nat → F i = G i) → sum_upto n F = sum_upto n G.
Proof.
  induction n as [|n IH]; intros H; [done|].
  cbn. rewrite IH by (intros; apply H; lia). rewrite H by lia. done.
Qed.

Lemma map_seq_ext {A} (n : nat) (F G : nat → A) :
  (∀ i, (i < n)%nat → F i = G i) → map F (seq 0 n) = map G (seq 0 n).
Proof.
  intros H. apply map_ext_in. intros i Hi. apply in_seq in Hi. apply H. lia.
Qed.

Lemma list_tabulate {A} (d : A) (l : list A) :
  l = map (λ i, nth i l d) (seq 0 (length l)).
Proof.
  induction l as [|x l IH]; [done|].
  cbn [length seq map nth]. f_equal.
  rewrite <- seq_shift, map_map. exact IH.
Qed.

Lemma tabulate_ext r c F G :
  (∀ i j, (i < r)%nat → (j < c)%nat → F i j = G i j) →
  tabulate r c F = tabulate r c G.
Proof.
  intros H. apply map_seq_ext. intros i Hi.
  apply map_seq_ext. intros j Hj. by apply H.
Qed.

Lemma tabulate_length r c F : length (tabulate r c F) = r.
Proof. unfold tabulate. by rewrite length_map, length_seq. Qed.

Lemma tabulate_rect r c F : np.rect c (tabulate r c F).
Proof.
  unfold np.rect, tabulate. rewrite Forall_map. apply Forall_forall.
  intros i _. by rewrite length_map, length_seq.
Qed.

Lemma tabulate_ncols r c F : (0 < r)%nat → np.ncols (tabulate r c F) = c.
Proof.
  destruct r; [lia|]. intros _. cbn. by rewrite length_map, length_seq.
Qed.

Lemma nth_map_seq {A} (d : A) (F : nat → A) (n i : nat) :
  (i < n)%nat → nth i (map F (seq 0 n)) d = F i.
Proof.
  intros Hi. rewrite (nth_indep _ d (F 0%nat)) by (by rewrite length_map, length_seq).
  rewrite (map_nth F (seq 0 n) 0%nat i). by rewrite seq_nth.
Qed.

Lemma tabulate_entry r c F i j :
  (i < r)%nat → (j < c)%nat → entry (tabulate r c F) i j = F i j.
Proof.
  intros Hi Hj. unfold entry, tabulate.
  rewrite (nth_map_seq [] (λ i, map (F i) (seq 0 c))) by done.
  by rewrite nth_map_seq.
Qed.

Lemma matrix_tabulate r c (m : np.matrix) :
  has_shape r c m → m = tabulate r c (entry m).
Proof.
  intros [<- Hrect]. unfold tabulate, entry.
  rewrite (list_tabulate [] m) at 1.
  apply map_seq_ext. intros i Hi.
  assert (Hlen : length (nth i m []) = c).
  { unfold np.rect in Hrect. rewrite Forall_forall in Hrect. apply Hrect.
    apply list_elem_of_In. by apply nth_In. }
  rewrite (list_tabulate 0 (nth i m [])) at 1. by rewrite Hlen.
Qed.

Lemma zip_with_map_seq {A B C} (f : A → B → C) n F G :
  zip_with f (map F (seq 0 n)) (map G (seq 0 n)) = map (λ i, f (F i) (G i)) (seq 0 n).
Proof.
  generalize 0%nat. induction n as [|n IH]; intros k; [done|].
  cbn. by rewrite IH.
Qed.

Lemma zip_with_tabulate f r c F G :
  zip_with (zip_with f) (tabulate r c F) (tabulate r c G)
  = tabulate r c (λ i j, f (F i j) (G i j)).
Proof.
  unfold tabulate. rewrite zip_with_map_seq.
  apply map_ext. intros i. apply zip_with_map_seq.
Qed.

Lemma map_tabulate f r c F :
  map (map f) (tabulate r c F) = tabulate r c (λ i j, f (F i j)).
Proof.
  unfold tabulate. rewrite map_map. apply map_ext. intros i. by rewrite map_map.
Qed.

Lemma col_tabulate r c F j :
  (j < c)%nat → np.col j (tabulate r c F) = map (λ i, F i j) (seq 0 r).
Proof.
  intros Hj. unfold np.col, tabulate. rewrite map_map.
  apply map_ext. intros i. by rewrite nth_map_seq.
Qed.

Lemma dotp_map_seq n F G :
  np.dotp (map F (seq 0 n)) (map G (seq 0 n)) = sum_upto n (λ k, F k * G k).
Proof. unfold np.dotp. by rewrite zip_with_map_seq, sum_map_seq. Qed.

Lemma matmul_tabulate r n c F G :
  (0 < n)%nat →
  np.matmul (tabulate r n F) (tabulate n c G)
  = tabulate r c (λ i j, sum_upto n (λ k, F i k * G k j)).
Proof.
  intros Hn. unfold np.matmul. rewrite tabulate_ncols by done.
  set (B := tabulate n c G). unfold tabulate. rewrite map_map.
  apply map_ext. intros i. apply map_seq_ext. intros j Hj.
  subst B. rewrite col_tabulate by done. apply dotp_map_seq.
Qed.

Lemma transpose_tabulate r c F :
  (0 < r)%nat → np.transpose (tabulate r c F) = tabulate c r (λ j i, F i j).
Proof.
  intros Hr. unfold np.transpose. rewrite tabulate_ncols by done.
  apply map_seq_ext. intros j Hj. by apply col_tabulate.
Qed.

Lemma zip1_same f u v :
  length u = length v → np.zip1 f u v = Some (zip_with f u v).
Proof. intros H. unfold np.zip1. by rewrite decide_True. Qed.

Lemma zip2_same f r c (a b : np.matrix) :
  has_shape r c a → has_shape r c b →
  np.zip2 f a b = Some (zip_with (zip_with f) a b).
Proof.
  intros [Ha Hra] [Hb Hrb]. unfold np.zip2. rewrite decide_True by congruence.
  clear Ha Hb. revert b Hrb. induction Hra as [|u a Hu _ IH]; intros b Hrb.
  - by destruct b.
  - destruct Hrb as [|v b Hv Hrb]; [done|].
    cbn. rewrite zip1_same by congruence. cbn.
    specialize (IH b Hrb). cbn in IH. by rewrite IH.
Qed.

Lemma has_shape_tabulate r c F : has_shape r c (tabulate r c F).
Proof. split; [apply tabulate_length | apply tabulate_rect]. Qed.

Lemma dot_check n (a b : np.matrix) :
  np.rect n a → length b = n →
  forallb (λ r, Nat.eqb (length r) (length b)) a = true.
Proof.
  intros Ha Hb. apply forallb_forall. intros x Hx.
  apply Nat.eqb_eq. rewrite Hb. unfold np.rect in Ha. rewrite Forall_forall in Ha.
  apply Ha. by apply list_elem_of_In.
Qed.

(** ** Computations that only read and allocate *)

Lemma extends_refl s : extends s s.
Proof. by split. Qed.

Lemma extends_trans s1 s2 s3 : extends s1 s2 → extends s2 s3 → extends s1 s3.
Proof. intros [? ?] [? ?]. split; [congruence | by etrans]. Qed.

Lemma bind_Some {A B} (c : M A) (f : A → M B) s b s' :
  (c ≫= f) s = Some (b, s') ↔ ∃ a s1, c s = Some (a, s1) ∧ f a s1 = Some (b, s').
Proof.
  unfold mbind, M_bind. destruct (c s) as [[a s1]|]; split.
  - intros H. by exists a, s1.
  - by intros (? & ? & [= -> ->] & H).
  - done.
  - by intros (? & ? & ? & _).
Qed.

Lemma readonly_ret {A} (a : A) : readonly (mret a).
Proof. intros s a' s' [= _ <-]. apply extends_refl. Qed.

Lemma readonly_raise {A} : readonly (@raise A).
Proof. by intros s a s'. Qed.

Lemma readonly_lift {A} (o : option A) : readonly (lift o).
Proof. intros s a s'. unfold lift. destruct o; [|done]. intros [= _ <-]. apply extends_refl. Qed.

Lemma readonly_bind {A B} (c : M A) (f : A → M B) :
  readonly c → (∀ a, readonly (f a)) → readonly (c ≫= f).
Proof.
  intros Hc Hf s b s' (a & s1 & H1 & H2)%bind_Some.
  eapply extends_trans; [by eapply Hc | by eapply Hf].
Qed.

Lemma readonly_load a : readonly (load a).
Proof. intros s x s'. unfold load. apply readonly_lift. Qed.

Lemma readonly_global x : readonly (global x).
Proof. intros s v s'. unfold global. apply readonly_lift. Qed.

Lemma alloc_extends v s :
  extends s (State (globals s) (<[fresh (dom (heap s)) := v]> (heap s))).
Proof.
  split; [done|]. cbn. apply insert_subseteq.
  apply not_elem_of_dom. apply is_fresh.
Qed.

Lemma readonly_alloc v : readonly (alloc v).
Proof. intros s a s' [= _ <-]. apply alloc_extends. Qed.

Lemma deref_Some_buf h a v : deref h a = Some v → is_Some (h !! buf a).
Proof.
  unfold deref. destruct (h !! buf a) as [b|]; [by eexists|].
  intros H. exfalso. revert H. induction (view a) as [|o l IH]; cbn; [done|]. exact IH.
Qed.

Lemma deref_weaken h h' a v : h ⊆ h' → deref h a = Some v → deref h' a = Some v.
Proof.
  intros Hsub H. destruct (deref_Some_buf _ _ _ H) as [b Hb].
  unfold deref in *. by rewrite (lookup_weaken _ _ _ _ Hb Hsub), <- Hb.
Qed.

Lemma deref_extends s s' a v :
  extends s s' → deref (heap s) a = Some v → deref (heap s') a = Some v.
Proof. intros [_ Hsub]. by apply deref_weaken. Qed.

Lemma fresh_extends s s' l : extends s s' → heap s' !! l = None → heap s !! l = None.
Proof.
  intros [_ Hsub] H. destruct (heap s !! l) as [v|] eqn:E; [|done].
  by rewrite (lookup_weaken _ _ _ _ E Hsub) in H.
Qed.

Lemma deref_whole h l : deref h (whole l) = h !! l.
Proof. done. Qed.

Lemma deref_with_view h o a : deref h (with_view o a) = deref h a ≫= apply_vop o.
Proof. unfold deref, with_view. cbn. by rewrite foldl_app. Qed.

Lemma computes_ret {A} (a : A) s (Q : A → state → Prop) :
  Q a s → computes (mret a) s Q.
Proof. intros H. exists a, s. split; [done|]. split; [apply extends_refl | done]. Qed.

Lemma computes_bind {A B} (c : M A) (f : A → M B) s (Q : B → state → Prop) :
  computes c s (λ a s', computes (f a) s' Q) → computes (c ≫= f) s Q.
Proof.
  intros (a & s1 & H1 & E1 & b & s2 & H2 & E2 & HQ).
  exists b, s2. split; [|split].
  - apply bind_Some. by exists a, s1.
  - by eapply extends_trans.
  - done.
Qed.

Lemma computes_lift {A} (o : option A) a s (Q : A → state → Prop) :
  o = Some a → Q a s → computes (lift o) s Q.
Proof. intros -> H. exists a, s. split; [done|]. split; [apply extends_refl | done]. Qed.

Lemma computes_load a x s (Q : np.ndarray → state → Prop) :
  deref (heap s) a = Some x → Q x s → computes (load a) s Q.
Proof. intros H HQ. unfold load. exists x, s. rewrite H. split; [done|]. split; [apply extends_refl | done]. Qed.

Lemma computes_alloc v s (Q : ndref → state → Prop) :
  (∀ r s', extends s s' → heap s !! buf r = None →
     deref (heap s') r = Some v → Q r s') →
  computes (alloc v) s Q.
Proof.
  intros H. eexists _, _. split; [done|]. split; [apply alloc_extends|].
  apply H; [apply alloc_extends | |].
  - cbn. apply not_elem_of_dom, is_fresh.
  - rewrite deref_whole. cbn. apply lookup_insert_eq.
Qed.

Lemma computes_mono {A} (c : M A) s (P Q : A → state → Prop) :
  computes c s P → (∀ a s', extends s s' → P a s' → Q a s') → computes c s Q.
Proof. intros (a & s' & H & E & HP) HPQ. exists a, s'. eauto. Qed.

Lemma computes_readonly {A} (c : M A) s (Q : A → state → Prop) :
  readonly c → is_Some (c s) → (∀ a s', c s = Some (a, s') → Q a s') → computes c s Q.
Proof. intros Hr [[a s'] H] HQ. exists a, s'. eauto. Qed.

(** Specifications of the numpy computations. *)

Lemma np_dot_spec a b x y z s (Q : ndref → state → Prop) :
  deref (heap s) a = Some x → deref (heap s) b = Some y → np.dot x y = Some z →
  (∀ r s', extends s s' → heap s !! buf r = None →
     deref (heap s') r = Some z → Q r s') →
  computes (np_dot a b) s Q.
Proof.
  intros Ha Hb Hz HQ. unfold np_dot.
  apply computes_bind, (computes_load _ x); [done|].
  apply computes_bind, (computes_load _ y); [done|].
  apply computes_bind, (computes_lift _ z); [done|].
  by apply computes_alloc.
Qed.

Lemma np_binop_spec f a b x y z s (Q : ndref → state → Prop) :
  deref (heap s) a = Some x → deref (heap s) b = Some y →
  np.broadcast f x y = Some z →
  (∀ r s', extends s s' → heap s !! buf r = None →
     deref (heap s') r = Some z → Q r s') →
  computes (np_binop f a b) s Q.
Proof.
  intros Ha Hb Hz HQ. unfold np_binop.
  apply computes_bind, (computes_load _ x); [done|].
  apply computes_bind, (computes_load _ y); [done|].
  apply computes_bind, (computes_lift _ z); [done|].
  by apply computes_alloc.
Qed.

Lemma np_map_spec f a x s (Q : ndref → state → Prop) :
  deref (heap s) a = Some x →
  (∀ r s', extends s s' → heap s !! buf r = None →
     deref (heap s') r = Some (np.map_nd f x) → Q r s') →
  computes (np_map f a) s Q.
Proof.
  intros Ha HQ. unfold np_map.
  apply computes_bind, (computes_load _ x); [done|].
  by apply computes_alloc.
Qed.

Lemma np_view_spec o a x y s (Q : ndref → state → Prop) :
  deref (heap s) a = Some x → apply_vop o x = Some y →
  (deref (heap s) (with_view o a) = Some y → Q (with_view o a) s) →
  computes (np_view o a) s Q.
Proof.
  intros Ha Hy HQ. unfold np_view.
  assert (Hd : deref (heap s) (with_view o a) = Some y).
  { rewrite deref_with_view, Ha. done. }
  apply computes_bind, (computes_load _ y); [done|].
  apply computes_ret. by apply HQ.
Qed.

Lemma np_shape0_spec a x n s (Q : nat → state → Prop) :
  deref (heap s) a = Some x → np.shape0 x = Some n → Q n s →
  computes (np_shape0 a) s Q.
Proof.
  intros Ha Hn HQ. unfold np_shape0.
  apply computes_bind, (computes_load _ x); [done|].
  by apply (computes_lift _ n).
Qed.

Lemma np_mean_spec a x r s (Q : R → state → Prop) :
  deref (heap s) a = Some x → np.mean x = Some r → Q r s →
  computes (np_mean a) s Q.
Proof.
  intros Ha Hn HQ. unfold np_mean.
  apply computes_bind, (computes_load _ x); [done|].
  by apply (computes_lift _ r).
Qed.

Ltac keep E :=
  repeat match goal with
  | H : deref (heap ?s) _ = Some _ |- _ =>
      lazymatch type of E with extends s _ => apply (deref_extends _ _ _ _ E) in H end
  end.

Lemma broadcast_same f r c a b :
  has_shape r c a → has_shape r c b →
  np.broadcast f (np.A2 a) (np.A2 b) = Some (np.A2 (zip_with (zip_with f) a b)).
Proof. intros Ha Hb. cbn. by rewrite (zip2_same f r c). Qed.

Lemma dot_matrices n (a b : np.matrix) :
  np.rect n a → length b = n →
  np.dot (np.A2 a) (np.A2 b) = Some (np.A2 (np.matmul a b)).
Proof. intros Ha Hb. cbn. by rewrite (dot_check n). Qed.

Lemma learn_spec (X y W : np.matrix) (n f k : nat) (eta : R) xr yr wr s
    (Q : ndref → state → Prop) :
  (0 < n)%nat → (0 < f)%nat →
  has_shape n f X → has_shape n k y → has_shape f k W →
  deref (heap s) xr = Some (np.A2 X) →
  deref (heap s) yr = Some (np.A2 y) →
  deref (heap s) wr = Some (np.A2 W) →
  (∀ r s', extends s s' → heap s !! buf r = None →
     deref (heap s') r = Some (np.A2 (gradient_step X y W eta)) → Q r s') →
  computes (learn xr yr wr eta) s Q.
Proof.
  intros Hn Hf HX Hy HW Hxr Hyr Hwr HQ.
  pose proof (matrix_tabulate _ _ _ HX) as EX.
  pose proof (matrix_tabulate _ _ _ Hy) as Ey.
  pose proof (matrix_tabulate _ _ _ HW) as EW.
  set (P := λ i c, sum_upto f (λ t, entry X i t * entry W t c)).
  set (D := λ i c, P i c - entry y i c).
  set (G := λ j c, sum_upto n (λ i, entry X i j * D i c)).
  unfold learn.
  apply computes_bind, (np_shape0_spec _ (np.A2 X) n); [done | cbn; f_equal; apply HX |].
  apply computes_bind. unfold linear_model.
  apply (np_dot_spec _ _ (np.A2 X) (np.A2 W) (np.A2 (tabulate n k P))); [done | done | |].
  { rewrite (dot_matrices f) by (by destruct HX, HW).
    rewrite EX, EW at 1. by rewrite matmul_tabulate. }
  intros pr s1 E1 _ Hpr. keep E1.
  apply computes_bind. rewrite decide_False by lia. apply computes_ret.
  apply computes_bind.
  apply (np_view_spec _ _ (np.A2 X) (np.A2 (tabulate f n (λ j i, entry X i j)))); [done | |].
  { cbn. rewrite EX at 1. by rewrite transpose_tabulate. }
  intros Hxt.
  apply computes_bind.
  apply (np_binop_spec _ _ _ (np.A2 (tabulate n k P)) (np.A2 y) (np.A2 (tabulate n k D))); [done | done | |].
  { rewrite (broadcast_same _ n k) by (done || apply has_shape_tabulate).
    rewrite Ey at 1. by rewrite zip_with_tabulate. }
  intros dr s2 E2 _ Hdr. keep E2.
  apply computes_bind.
  apply (np_dot_spec _ _ _ _ (np.A2 (tabulate f k G)) _ _ Hxt Hdr).
  { rewrite (dot_matrices n) by (apply tabulate_rect || apply tabulate_length).
    by rewrite matmul_tabulate. }
  intros gr s3 E3 _ Hgr. keep E3.
  apply computes_bind, (np_map_spec _ _ _ _ _ Hgr).
  intros cr s4 E4 _ Hcr. keep E4.
  apply computes_bind, (np_map_spec _ _ _ _ _ Hcr).
  intros sr s5 E5 _ Hsr. keep E5.
  apply computes_bind.
  eapply (np_binop_spec _ _ _ _ _ _ _ _ Hwr Hsr).
  { cbn [np.map_nd]. rewrite !map_tabulate.
    rewrite (broadcast_same _ f k) by (done || apply has_shape_tabulate).
    rewrite EW at 1. by rewrite zip_with_tabulate. }
  intros nr s6 E6 Fnr Hnr.
  apply computes_ret.
  assert (E : extends s s5).
  { repeat (eapply extends_trans; [|eassumption]). apply extends_refl. }
  apply HQ.
  { by eapply extends_trans. }
  { by eapply fresh_extends. }
  rewrite Hnr. do 2 f_equal. unfold gradient_step.
  destruct HX as [-> _]. destruct HW as [HlW HrW].
  assert (np.ncols W = k) as ->.
  { rewrite EW. apply tabulate_ncols. lia. }
  rewrite HlW. apply tabulate_ext. intros j c Hj Hc. cbn beta.
  unfold G, D, P, prediction. rewrite HlW. lra.
Qed.

Lemma concat_singletons (F : nat → nat → R) n :
  concat (map (λ i, map (F i) (seq 0 1)) (seq 0 n)) = map (λ i, F i 0%nat) (seq 0 n).
Proof. induction (seq 0 n) as [|i l IH]; [done|]. cbn in *. by f_equal. Qed.

Lemma mean_column n (F : nat → nat → R) :
  (0 < n)%nat →
  np.mean (np.A2 (tabulate n 1 F)) = Some (1 / INR n * sum_upto n (λ i, F i 0%nat)).
Proof.
  intros Hn. unfold np.mean. cbn [np.ravel]. unfold np.flat, tabulate.
  rewrite concat_singletons.
  destruct n as [|n]; [lia|].
  remember (map (λ i, F i 0%nat) (seq 0 (S n))) as l eqn:El.
  assert (Hlen : length l = S n) by (by rewrite El, length_map, length_seq).
  assert (Hsum : np.sum l = sum_upto (S n) (λ i, F i 0%nat)) by (by rewrite El, sum_map_seq).
  destruct l as [|x l]; [done|].
  rewrite Hlen, Hsum. f_equal. unfold Rdiv. lra.
Qed.

Lemma evaluate_spec (X y W : np.matrix) (n f : nat) xr yr wr s
    (Q : R → state → Prop) :
  (0 < n)%nat → (0 < f)%nat →
  has_shape n f X → has_shape n 1 y → has_shape f 1 W →
  deref (heap s) xr = Some (np.A2 X) →
  deref (heap s) yr = Some (np.A2 y) →
  deref (heap s) wr = Some (np.A2 W) →
  (∀ s', extends s s' → Q (mean_squared_error X y W) s') →
  computes (evaluate wr xr yr) s Q.
Proof.
  intros Hn Hf HX Hy HW Hxr Hyr Hwr HQ.
  pose proof (matrix_tabulate _ _ _ HX) as EX.
  pose proof (matrix_tabulate _ _ _ Hy) as Ey.
  pose proof (matrix_tabulate _ _ _ HW) as EW.
  set (P := λ i c, sum_upto f (λ t, entry X i t * entry W t c)).
  set (D := λ i c, entry y i c - P i c).
  unfold evaluate.
  apply computes_bind. unfold linear_model.
  apply (np_dot_spec _ _ (np.A2 X) (np.A2 W) (np.A2 (tabulate n 1 P))); [done | done | |].
  { rewrite (dot_matrices f) by (by destruct HX, HW).
    rewrite EX, EW at 1. by rewrite matmul_tabulate. }
  intros pr s1 E1 _ Hpr. keep E1.
  apply computes_bind.
  apply (np_binop_spec _ _ _ (np.A2 y) (np.A2 (tabulate n 1 P)) (np.A2 (tabulate n 1 D))); [done | done | |].
  { rewrite (broadcast_same _ n 1) by (done || apply has_shape_tabulate).
    rewrite Ey at 1. by rewrite zip_with_tabulate. }
  intros dr s2 E2 _ Hdr. keep E2.
  apply computes_bind, (np_map_spec _ _ _ _ _ Hdr).
  intros qr s3 E3 _ Hqr.
  eapply np_mean_spec; [exact Hqr | |].
  { cbn [np.map_nd]. rewrite map_tabulate. by apply mean_column. }
  replace (1 / INR n * _) with (mean_squared_error X y W).
  { apply HQ. repeat (eapply extends_trans; [|eassumption]). apply extends_refl. }
  unfold mean_squared_error. destruct HX as [-> _]. f_equal.
  apply sum_upto_ext. intros i Hi. unfold D, P, prediction. by destruct HW as [-> _].
Qed.

(** sigmoid and softmax *)

Lemma map_nd_compose f g a : np.map_nd f (np.map_nd g a) = np.map_nd (λ t, f (g t)) a.
Proof.
  destruct a; cbn; f_equal; rewrite ?map_map; try done.
  - apply map_ext. intros r. by rewrite map_map.
  - apply map_ext. intros m. rewrite map_map. apply map_ext. intros r. by rewrite map_map.
Qed.

Lemma sigmoid_spec x a s (Q : ndref → state → Prop) :
  deref (heap s) x = Some a →
  (∀ r s', extends s s' → deref (heap s') r = Some (np.map_nd sigmoid1 a) → Q r s') →
  computes (sigmoid x) s Q.
Proof.
  intros Hx HQ. unfold sigmoid.
  apply computes_bind, (np_map_spec _ _ _ _ _ Hx). intros r1 s1 E1 _ H1.
  apply computes_bind, (np_map_spec _ _ _ _ _ H1). intros r2 s2 E2 _ H2.
  apply computes_bind, (np_map_spec _ _ _ _ _ H2). intros r3 s3 E3 _ H3.
  apply computes_bind, (np_map_spec _ _ _ _ _ H3). intros r4 s4 E4 _ H4.
  apply computes_ret. apply HQ.
  { repeat (eapply extends_trans; [|eassumption]). apply extends_refl. }
  by rewrite H4, !map_nd_compose.
Qed.

Lemma sigmoid1_range t : 0 < sigmoid1 t < 1.
Proof.
  unfold sigmoid1. pose proof (exp_pos (- t)) as He. split.
  - apply Rdiv_lt_0_compat; lra.
  - apply (Rmult_lt_reg_r (1 + exp (- t))); [lra|].
    unfold Rdiv. rewrite Rmult_assoc, Rinv_l; lra.
Qed.

Lemma sum_scale (l : list R) b : np.sum (map (λ t, t / b) l) = np.sum l / b.
Proof. unfold np.sum. induction l as [|x l IH]; cbn; [lra|]. rewrite IH. lra. Qed.

Lemma sum_exp_nonneg (l : list R) : 0 <= np.sum (map exp l).
Proof.
  unfold np.sum. induction l as [|x l IH]; cbn; [lra|].
  pose proof (exp_pos x). lra.
Qed.

Lemma sum_exp_pos (l : list R) : l ≠ [] → 0 < np.sum (map exp l).
Proof.
  destruct l as [|x l]; [done|]. intros _.
  pose proof (sum_exp_nonneg l) as H. pose proof (exp_pos x).
  unfold np.sum in *. cbn. lra.
Qed.

Lemma zip1_column f (u : list R) b :
  np.zip1 f u [b] = Some (map (λ t, f t b) u).
Proof.
  unfold np.zip1. destruct (decide (length u = length [b])) as [H|H].
  - destruct u as [|a [|? ?]]; done.
  - destruct u as [|a [|? ?]]; done.
Qed.

Lemma softmax_rows (m : np.matrix) :
  np.zip2 Rdiv (map (map exp) m) (map (λ x, [x]) (map np.sum (map (map exp) m)))
  = Some (map softmax_row m).
Proof.
  unfold np.zip2. rewrite decide_True by (by rewrite !length_map).
  induction m as [|u m IH]; [done|].
  cbn. rewrite zip1_column. cbn. cbn in IH. by rewrite IH.
Qed.

Lemma softmax_spec x m s (Q : ndref → state → Prop) :
  deref (heap s) x = Some (np.A2 m) →
  (∀ r s', extends s s' → deref (heap s') r = Some (np.A2 (map softmax_row m)) → Q r s') →
  computes (softmax x) s Q.
Proof.
  intros Hx HQ. unfold softmax.
  apply computes_bind, (np_map_spec _ _ _ _ _ Hx). intros r1 s1 E1 _ H1. keep E1.
  apply computes_bind. unfold np_sum_axis1.
  apply computes_bind, (computes_load _ _ _ _ H1).
  apply computes_bind, (computes_lift _ (np.A1 (map np.sum (map (map exp) m)))); [done|].
  apply computes_alloc. intros r2 s2 E2 _ H2. keep E2.
  apply computes_bind, (np_map_spec _ _ _ _ _ Hx). intros r3 s3 E3 _ H3. keep E3.
  apply computes_bind. eapply (np_view_spec _ _ _ _ _ _ H2); [done|]. intros H4.
  apply computes_bind. eapply (np_binop_spec _ _ _ _ _ _ _ _ H3 H4).
  { cbn. by rewrite softmax_rows. }
  intros r5 s5 E5 _ H5. apply computes_ret. apply HQ; [|done].
  repeat (eapply extends_trans; [|eassumption]). apply extends_refl.
Qed.

Lemma softmax_row_distribution (u : list R) : u ≠ [] → distribution (softmax_row u).
Proof.
  intros Hu. pose proof (sum_exp_pos u Hu) as Hpos. split.
  - unfold softmax_row. rewrite !Forall_map. apply Forall_forall. intros t _.
    apply Rdiv_lt_0_compat; [apply exp_pos | done].
  - unfold softmax_row. rewrite sum_scale. unfold Rdiv. apply Rinv_r. lra.
Qed.

(** ** Read-only computations of the notebook *)

Ltac readonly_step :=
  first
    [ apply readonly_ret | apply readonly_raise | apply readonly_lift
    | apply readonly_load | apply readonly_alloc | apply readonly_global
    | apply readonly_bind; [|intros ?]
    | match goal with
      | |- readonly (if ?b then _ else _) => destruct b
      | |- readonly (match ?v with _ => _ end) => destruct v
      end ].

Ltac solve_readonly := repeat readonly_step.

Lemma readonly_np_dot a b : readonly (np_dot a b).
Proof. unfold np_dot. solve_readonly. Qed.

Lemma readonly_np_binop f a b : readonly (np_binop f a b).
Proof. unfold np_binop. solve_readonly. Qed.

Lemma readonly_np_map f a : readonly (np_map f a).
Proof. unfold np_map. solve_readonly. Qed.

Lemma readonly_np_mean a : readonly (np_mean a).
Proof. unfold np_mean. solve_readonly. Qed.

Lemma readonly_np_view o a : readonly (np_view o a).
Proof. unfold np_view. solve_readonly. Qed.

Lemma readonly_np_shape0 a : readonly (np_shape0 a).
Proof. unfold np_shape0. solve_readonly. Qed.

Lemma readonly_np_shape1 a : readonly (np_shape1 a).
Proof. unfold np_shape1. solve_readonly. Qed.

Lemma readonly_np_sum_axis1 a : readonly (np_sum_axis1 a).
Proof. unfold np_sum_axis1. solve_readonly. Qed.

Lemma readonly_global_arr x : readonly (global_arr x).
Proof. unfold global_arr. solve_readonly. Qed.

Lemma readonly_global_int x : readonly (global_int x).
Proof. unfold global_int. solve_readonly. Qed.

Lemma readonly_global_float x : readonly (global_float x).
Proof. unfold global_float. solve_readonly. Qed.

Ltac readonly_call :=
  repeat first
    [ apply readonly_np_dot | apply readonly_np_binop | apply readonly_np_map
    | apply readonly_np_mean | apply readonly_np_view | apply readonly_np_shape0
    | apply readonly_np_shape1 | apply readonly_np_sum_axis1
    | apply readonly_global_arr | apply readonly_global_int
    | apply readonly_global_float | readonly_step ].

Lemma readonly_linear_model W x : readonly (linear_model W x).
Proof. apply readonly_np_dot. Qed.

Lemma readonly_learn x y W eta : readonly (learn x y W eta).
Proof. unfold learn, linear_model. readonly_call. Qed.

Lemma readonly_evaluate W x y : readonly (evaluate W x y).
Proof. unfold evaluate, linear_model. readonly_call. Qed.

Lemma readonly_sigmoid x : readonly (sigmoid x).
Proof. unfold sigmoid. readonly_call. Qed.

Lemma readonly_softmax x : readonly (softmax x).
Proof. unfold softmax. readonly_call. Qed.

Lemma readonly_classification_model A b x : readonly (classification_model A b x).
Proof. unfold classification_model. readonly_call. Qed.

Lemma readonly_classification_model_softmax W b x :
  readonly (classification_model_softmax W b x).
Proof. unfold classification_model_softmax. readonly_call. Qed.

Lemma readonly_nonlinear_model W1 W2 b1 b2 x : readonly (nonlinear_model W1 W2 b1 b2 x).
Proof.
  unfold nonlinear_model.
  repeat first [apply readonly_sigmoid | readonly_call].
Qed.

Lemma readonly_nonlinear_model3 A1 A2 A3 b1 b2 b3 x :
  readonly (nonlinear_model3 A1 A2 A3 b1 b2 b3 x).
Proof.
  unfold nonlinear_model3.
  repeat first [apply readonly_sigmoid | readonly_call].
Qed.

(** ** Weakest preconditions for the cells *)

Lemma wp_ret {A} (a : A) s (Q : A → state → Prop) : Q a s → wp (mret a) s Q.
Proof. intros H. by exists a, s. Qed.

Lemma wp_bind {A B} (c : M A) (f : A → M B) s (Q : B → state → Prop) :
  wp c s (λ a s', wp (f a) s' Q) → wp (c ≫= f) s Q.
Proof.
  intros (a & s1 & H1 & b & s2 & H2 & HQ). exists b, s2. split; [|done].
  apply bind_Some. by exists a, s1.
Qed.

Lemma wp_computes {A} (c : M A) s (Q : A → state → Prop) :
  computes c s Q → wp c s Q.
Proof. intros (a & s' & H & _ & HQ). by exists a, s'. Qed.

Lemma wp_assign x v s (Q : unit → state → Prop) :
  Q tt (State (<[x := v]> (globals s)) (heap s)) → wp (assign x v) s Q.
Proof. intros H. by eexists _, _. Qed.

Lemma wp_global x v s (Q : value → state → Prop) :
  globals s !! x = Some v → Q v s → wp (global x) s Q.
Proof. intros H HQ. exists v, s. unfold global. by rewrite H. Qed.

Lemma wp_global_arr x a s (Q : ndref → state → Prop) :
  globals s !! x = Some (VArr a) → Q a s → wp (global_arr x) s Q.
Proof.
  intros H HQ. unfold global_arr. apply wp_bind, (wp_global _ (VArr a)); [done|].
  by apply wp_ret.
Qed.

Lemma wp_global_int x n s (Q : Z → state → Prop) :
  globals s !! x = Some (VInt n) → Q n s → wp (global_int x) s Q.
Proof.
  intros H HQ. unfold global_int. apply wp_bind, (wp_global _ (VInt n)); [done|].
  by apply wp_ret.
Qed.

Lemma wp_global_float x r s (Q : R → state → Prop) :
  globals s !! x = Some (VFloat r) → Q r s → wp (global_float x) s Q.
Proof.
  intros H HQ. unfold global_float. apply wp_bind, (wp_global _ (VFloat r)); [done|].
  by apply wp_ret.
Qed.

Lemma wp_alloc v s (Q : ndref → state → Prop) :
  (∀ l, heap s !! l = None →
     Q (whole l) (State (globals s) (<[l := v]> (heap s)))) →
  wp (alloc v) s Q.
Proof.
  intros H. eexists _, _. split; [done|]. apply H.
  apply not_elem_of_dom, is_fresh.
Qed.

Lemma wp_load a x s (Q : np.ndarray → state → Prop) :
  deref (heap s) a = Some x → Q x s → wp (load a) s Q.
Proof. intros H HQ. exists x, s. unfold load. by rewrite H. Qed.

Lemma wp_lift {A} (o : option A) a s (Q : A → state → Prop) :
  o = Some a → Q a s → wp (lift o) s Q.
Proof. intros -> HQ. by exists a, s. Qed.

Lemma wp_setitem a i x v s (Q : unit → state → Prop) :
  view a = [] → heap s !! buf a = Some (np.A1 v) → (i < length v)%nat →
  Q tt (State (globals s) (<[buf a := np.A1 (<[i := x]> v)]> (heap s))) →
  wp (np_setitem a i x) s Q.
Proof.
  intros Hv Hb Hi HQ. eexists _, _. split; [|exact HQ].
  unfold np_setitem. rewrite Hv, Hb. by rewrite decide_True.
Qed.

Lemma wp_imap f a x s (Q : unit → state → Prop) :
  view a = [] → heap s !! buf a = Some x →
  Q tt (State (globals s) (<[buf a := np.map_nd f x]> (heap s))) →
  wp (np_imap f a) s Q.
Proof.
  intros Hv Hb HQ. eexists _, _. split; [|exact HQ].
  unfold np_imap. by rewrite Hv, Hb.
Qed.

Lemma wp_mono {A} (c : M A) s (P Q : A → state → Prop) :
  wp c s P → (∀ a s', P a s' → Q a s') → wp c s Q.
Proof. intros (a & s' & H & HP) HPQ. exists a, s'. eauto. Qed.

(** The loop: an invariant indexed by the number of iterations done. *)
Lemma wp_for_each x body (I : nat → state → Prop) n : ∀ k s,
  I k s →
  (∀ j s, (k <= j < k + n)%nat → I j s →
     wp (assign x (VInt (Z.of_nat j));; body j) s (λ _ s', I (S j) s')) →
  wp (for_each x (seq k n) body) s (λ _ s', I (k + n)%nat s').
Proof.
  induction n as [|n IH]; intros k s HI Hstep.
  - cbn. apply wp_ret. by rewrite Nat.add_0_r.
  - cbn [seq for_each].
    destruct (Hstep k s ltac:(lia) HI) as ([] & s1 & H1 & HI1).
    apply bind_Some in H1 as ([] & s0 & Ha & Hb).
    apply wp_bind. exists tt, s0. split; [done|].
    apply wp_bind. exists tt, s1. split; [done|].
    replace (k + S n)%nat with (S k + n)%nat by lia.
    apply IH; [done|]. intros j s' Hj. apply Hstep. lia.
Qed.

Lemma deref_same_buf h h' a : h !! buf a = h' !! buf a → deref h a = deref h' a.
Proof. unfold deref. by intros ->. Qed.

Lemma deref_insert_ne h l v a : buf a ≠ l → deref (<[l := v]> h) a = deref h a.
Proof. intros H. apply deref_same_buf. by rewrite lookup_insert_ne. Qed.

(** ** The training loop *)

Lemma gradient_step_shape X y W eta f :
  (0 < f)%nat → has_shape f 1 W → has_shape f 1 (gradient_step X y W eta).
Proof.
  intros Hf HW. unfold gradient_step.
  pose proof (matrix_tabulate _ _ _ HW) as EW.
  assert (np.ncols W = 1%nat) as -> by (rewrite EW; by apply tabulate_ncols).
  destruct HW as [-> _]. apply has_shape_tabulate.
Qed.

Lemma weights_after_shape X y W0 eta f j :
  (0 < f)%nat → has_shape f 1 W0 → has_shape f 1 (weights_after X y W0 eta j).
Proof.
  intros Hf HW. induction j as [|j IH]; [done|].
  cbn. by apply gradient_step_shape.
Qed.

Lemma record_loss (L : nat → R) (N j : nat) :
  (j < N)%nat →
  <[j := L j]> (map L (seq 0 j) ++ replicate (N - j) 0)
  = map L (seq 0 (S j)) ++ replicate (N - S j) 0.
Proof.
  intros Hj. rewrite seq_S, map_app. cbn [map].
  replace (N - j)%nat with (S (N - S j)) by lia. cbn [replicate].
  rewrite <- (Nat.add_0_r j) at 1.
  replace j with (length (map L (seq 0 j))) at 1 by (by rewrite length_map, length_seq).
  rewrite insert_app_r. cbn. by rewrite <- app_assoc.
Qed.

Section training.

Context (X y W0 : np.matrix) (eta : R) (n f N : nat).
Context (xb yb : ndref) (ll : loc) (s1 : state).

Hypothesis (Hn : (0 < n)%nat) (Hf : (0 < f)%nat).
Hypothesis (HX : has_shape n f X) (Hy : has_shape n 1 y) (HW : has_shape f 1 W0).
Hypothesis (Gx : globals s1 !! "x_train_batch" = Some (VArr xb)).
Hypothesis (Gy : globals s1 !! "y_train_batch" = Some (VArr yb)).
Hypothesis (Gr : globals s1 !! "learning_rate" = Some (VFloat eta)).
Hypothesis (Gl : globals s1 !! "losses" = Some (VArr (whole ll))).
Hypothesis (Dx : deref (heap s1) xb = Some (np.A2 X)).
Hypothesis (Dy : deref (heap s1) yb = Some (np.A2 y)).
Hypothesis (Nx : buf xb ≠ ll) (Ny : buf yb ≠ ll).

Let Inv := after_iterations X y W0 eta N ll s1.

Lemma frame_deref s a v :
  (∀ l v, heap s1 !! l = Some v → l ≠ ll → heap s !! l = Some v) →
  buf a ≠ ll → deref (heap s1) a = Some v → deref (heap s) a = Some v.
Proof.
  intros F Ha Hd. destruct (deref_Some_buf _ _ _ Hd) as [b Hb].
  rewrite <- Hd. apply deref_same_buf. rewrite Hb. by apply F.
Qed.

Lemma training_step_spec j s :
  (j < N)%nat → Inv j s →
  wp (assign "i" (VInt (Z.of_nat j));; training_step j) s (λ _ s', Inv (S j) s').
Proof.
  intros Hj (F1 & F2 & (wr & Gw & Dw) & Hl & Hi).
  pose proof (frame_deref s xb _ F2 Nx Dx) as Dx'.
  pose proof (frame_deref s yb _ F2 Ny Dy) as Dy'.
  pose proof (weights_after_shape X y W0 eta f j Hf HW) as HWj.
  pose proof (weights_after_shape X y W0 eta f (S j) Hf HW) as HWj'.
  apply wp_bind, wp_assign. unfold training_step.
  apply wp_bind, (wp_global_arr _ xb); [cbn; rewrite lookup_insert_ne by done; by rewrite F1|].
  apply wp_bind, (wp_global_arr _ yb); [cbn; rewrite lookup_insert_ne by done; by rewrite F1|].
  apply wp_bind, (wp_global_arr _ wr); [cbn; by rewrite lookup_insert_ne|].
  apply wp_bind, (wp_global_float _ eta); [cbn; rewrite lookup_insert_ne by done; by rewrite F1|].
  apply wp_bind, wp_computes.
  apply (learn_spec X y (weights_after X y W0 eta j) n f 1 eta); try done.
  intros wr' sb Eb Fw Dw'. cbn [heap globals] in *.
  apply wp_bind, wp_assign.
  destruct Eb as [Eg Eh].
  apply wp_bind, (wp_global_arr _ wr'); [cbn; by rewrite lookup_insert_eq|].
  apply wp_bind, (wp_global_arr _ xb).
  { cbn. rewrite lookup_insert_ne by done. rewrite Eg. cbn.
    rewrite lookup_insert_ne by done. by rewrite F1. }
  apply wp_bind, (wp_global_arr _ yb).
  { cbn. rewrite lookup_insert_ne by done. rewrite Eg. cbn.
    rewrite lookup_insert_ne by done. by rewrite F1. }
  apply wp_bind, wp_computes.
  apply (evaluate_spec X y (weights_after X y W0 eta (S j)) n f); try done.
  { cbn. by eapply deref_weaken. }
  { cbn. by eapply deref_weaken. }
  intros sd [Eg' Eh']. cbn [heap globals] in *.
  apply wp_bind, (wp_global_arr _ (whole ll)).
  { rewrite Eg'. rewrite lookup_insert_ne by done. rewrite Eg. cbn.
    rewrite lookup_insert_ne by done. by rewrite F1. }
  assert (Hl' : heap sd !! ll = Some (np.A1 (map (loss_at X y W0 eta) (seq 0 j)
                                               ++ replicate (N - j) 0))).
  { eapply lookup_weaken; [|exact Eh']. eapply lookup_weaken; [|exact Eh]. done. }
  eapply wp_setitem; [done | exact Hl' | |].
  { rewrite length_app, length_map, length_seq, length_replicate. lia. }
  cbn [buf whole]. repeat split.
  - intros name H1 H2. cbn. rewrite Eg'. rewrite lookup_insert_ne by done.
    rewrite Eg. cbn. rewrite lookup_insert_ne by done. by apply F1.
  - intros l v Hv Hne. cbn. rewrite lookup_insert_ne by done.
    eapply lookup_weaken; [|exact Eh']. eapply lookup_weaken; [|exact Eh]. by apply F2.
  - exists wr'. cbn. split.
    + rewrite Eg'. by rewrite lookup_insert_eq.
    + rewrite deref_insert_ne.
      * eapply deref_weaken; [exact Eh'|]. exact Dw'.
      * intros E. rewrite E in Fw. by rewrite Hl in Fw.
  - cbn. rewrite lookup_insert_eq. do 2 f_equal.
    by apply (record_loss (loss_at X y W0 eta)).
  - intros j' [= <-]. cbn. rewrite Eg'. rewrite lookup_insert_ne by done.
    rewrite Eg. cbn. by rewrite lookup_insert_eq.
Qed.

Lemma training_loop_spec wr0 :
  globals s1 !! "num_iters" = Some (VInt (Z.of_nat N)) →
  globals s1 !! "W" = Some (VArr wr0) →
  deref (heap s1) wr0 = Some (np.A2 W0) →
  heap s1 !! ll = Some (np.A1 (replicate N 0)) →
  wp training_loop s1 (λ _ s', Inv N s').
Proof.
  intros Gn Gw Dw Hl. unfold training_loop.
  apply wp_bind, (wp_global_int _ (Z.of_nat N)); [done|].
  unfold for_range. rewrite Nat2Z.id, Nat.sub_0_r.
  apply (wp_for_each "i" training_step Inv N 0 s1).
  - repeat split; try done.
    + by exists wr0.
    + cbn. by rewrite Nat.sub_0_r.
  - intros j s [_ Hj] HI. apply training_step_spec; [lia | done].
Qed.

End training.

(** ** The batch cell and the training cell *)

Lemma bind_assoc {A B C} (c : M A) (f : A → M B) (g : B → M C) s :
  ((c ≫= f) ≫= g) s = (c ≫= (λ a, f a ≫= g)) s.
Proof. unfold mbind, M_bind. by destruct (c s) as [[a s']|]. Qed.

Lemma has_shape_take k r c (m : np.matrix) :
  has_shape r c m → has_shape (k `min` r) c (take k m).
Proof.
  intros [<- Hr]. split; [by rewrite length_take|].
  unfold np.rect. by apply Forall_take.
Qed.

Lemma has_shape_column (v : list R) : has_shape (length v) 1 (column v).
Proof.
  split; [by unfold column; rewrite length_map|].
  unfold np.rect, column. rewrite Forall_map. by apply Forall_forall.
Qed.

Lemma has_shape_rand2 draws r c : has_shape r c (rand2 draws r c).
Proof.
  split; [by unfold rand2; rewrite length_map, length_seq|].
  unfold np.rect, rand2. rewrite Forall_map. apply Forall_forall.
  intros i _. by rewrite length_map, length_seq.
Qed.

Lemma has_shape_map f r c (m : np.matrix) :
  has_shape r c m → has_shape r c (map (map f) m).
Proof.
  intros [<- Hr]. split; [by rewrite length_map|].
  unfold np.rect in *. rewrite Forall_map. eapply Forall_impl; [exact Hr|].
  intros u Hu. by rewrite length_map.
Qed.

Lemma has_shape_ncols r c (m : np.matrix) :
  (0 < r)%nat → has_shape r c m → np.ncols m = c.
Proof.
  intros Hr [Hl Hm]. destruct m as [|u m]; [cbn in Hl; lia|].
  cbn. by inversion Hm.
Qed.

Ltac names :=
  cbn [globals heap];
  repeat first [rewrite lookup_insert_eq | rewrite lookup_insert_ne by done].

Lemma cell_batch_spec s xr yr (Xfull : np.matrix) (yfull : list R)
    (Q : unit → state → Prop) :
  globals s !! "x_train" = Some (VArr xr) →
  globals s !! "y_train" = Some (VArr yr) →
  deref (heap s) xr = Some (np.A2 Xfull) →
  deref (heap s) yr = Some (np.A1 yfull) →
  (deref (heap s) (with_view (VRows 100) xr) = Some (np.A2 (take 100 Xfull)) →
   deref (heap s) (with_view (VRowsNew 100) yr) = Some (np.A2 (column (take 100 yfull))) →
   Q tt (State (<["y_train_batch" := VArr (with_view (VRowsNew 100) yr)]>
                 (<["x_train_batch" := VArr (with_view (VRows 100) xr)]>
                    (<["batch_size" := VInt 100]> (globals s))))
               (heap s))) →
  wp cell_batch s Q.
Proof.
  intros Gx Gy Dx Dy HQ. unfold cell_batch.
  apply wp_bind, wp_assign.
  apply wp_bind, (wp_global_int _ 100); [cbn; by rewrite lookup_insert_eq|].
  apply wp_bind, (wp_global_arr _ xr); [cbn; by rewrite lookup_insert_ne|].
  apply wp_bind, wp_computes.
  apply (np_view_spec _ _ (np.A2 Xfull) (np.A2 (take 100 Xfull))); [done | done |].
  intros Dxb. cbn [heap] in Dxb.
  apply wp_bind, wp_assign.
  apply wp_bind, (wp_global_int _ 100); [by names|].
  apply wp_bind, (wp_global_arr _ yr); [by names|].
  apply wp_bind, wp_computes.
  apply (np_view_spec _ _ (np.A1 yfull) (np.A2 (column (take 100 yfull)))); [done | done |].
  intros Dyb. cbn [heap] in Dyb.
  apply wp_assign. by apply HQ.
Qed.

Lemma train_setup_spec w s xr (Xfull : np.matrix) M f (Q : unit → state → Prop) :
  (0 < M)%nat → has_shape M f Xfull →
  globals s !! "x_train" = Some (VArr xr) →
  deref (heap s) xr = Some (np.A2 Xfull) →
  (∀ s1 wr0 ll,
     heap s ⊆ heap s1 → heap s !! ll = None →
     globals s1 = <["losses" := VArr (whole ll)]>
                    (<["num_iters" := VInt num_iters]>
                       (<["learning_rate" := VFloat (5 / 10000)]>
                          (<["W" := VArr wr0]>
                             (<["num_features" := VInt (Z.of_nat f)]> (globals s))))) →
     deref (heap s1) wr0 = Some (np.A2 (initial_weights w f)) →
     heap s1 !! ll = Some (np.A1 (replicate (Z.to_nat num_iters) 0)) →
     Q tt s1) →
  wp (train_setup w) s Q.
Proof.
  intros HM HX Gx Dx HQ. unfold train_setup.
  apply wp_bind, (wp_global_arr _ xr); [done|].
  apply wp_bind. unfold np_shape1.
  apply wp_bind, (wp_load _ (np.A2 Xfull)); [done|].
  apply (wp_lift _ f); [cbn; f_equal; by eapply has_shape_ncols|].
  apply wp_bind, wp_assign.
  apply wp_bind, (wp_global_int _ (Z.of_nat f)); [cbn; by rewrite lookup_insert_eq|].
  rewrite Nat2Z.id.
  apply wp_bind. unfold init_weights.
  apply wp_bind, wp_alloc. intros l0 Hl0. cbn [globals heap].
  apply wp_bind, wp_computes, (np_map_spec _ _ (np.A2 (rand2 (draws_W w) f 1))).
  { cbn. by rewrite lookup_insert_eq. }
  intros wr0 sa [Eg Eh] Fw Dw. cbn [globals heap] in *.
  apply wp_assign.
  apply wp_bind, wp_assign.
  apply wp_bind, wp_assign.
  apply wp_bind, (wp_global_int _ num_iters); [cbn; by rewrite lookup_insert_eq|].
  apply wp_bind. unfold np_zeros. rewrite decide_False by (unfold num_iters; lia).
  apply wp_alloc. intros ll Hll. cbn [globals heap] in *.
  apply wp_assign. cbn [globals heap].
  apply (HQ _ wr0 ll).
  - cbn. etrans; [|apply insert_subseteq; exact Hll].
    etrans; [|exact Eh]. by apply insert_subseteq.
  - destruct (heap s !! ll) as [v|] eqn:E; [|done].
    assert (heap sa !! ll = Some v); [|congruence].
    eapply lookup_weaken; [|exact Eh]. rewrite lookup_insert_ne; [done|].
    intros ->. congruence.
  - cbn. by rewrite Eg.
  - cbn. rewrite deref_insert_ne; [done|].
    intros E. destruct (deref_Some_buf _ _ _ Dw) as [v Hv]. rewrite E in Hv. congruence.
  - cbn. by rewrite lookup_insert_eq.
Qed.

Lemma training_run w s xr yr (Xfull : np.matrix) (yfull : list R) M f :
  (0 < M)%nat → (0 < f)%nat → has_shape M f Xfull → length yfull = M →
  globals s !! "x_train" = Some (VArr xr) →
  globals s !! "y_train" = Some (VArr yr) →
  deref (heap s) xr = Some (np.A2 Xfull) →
  deref (heap s) yr = Some (np.A1 yfull) →
  ∃ s1 s2 wr0 ll,
    (cell_batch;; train_setup w) s = Some (tt, s1) ∧
    training_loop s1 = Some (tt, s2) ∧
    heap s ⊆ heap s1 ∧ heap s !! ll = None ∧
    globals s1 =
      <["losses" := VArr (whole ll)]>
        (<["num_iters" := VInt num_iters]>
           (<["learning_rate" := VFloat (5 / 10000)]>
              (<["W" := VArr wr0]>
                 (<["num_features" := VInt (Z.of_nat f)]>
                    (<["y_train_batch" := VArr (with_view (VRowsNew 100) yr)]>
                       (<["x_train_batch" := VArr (with_view (VRows 100) xr)]>
                          (<["batch_size" := VInt 100]> (globals s)))))))) ∧
    deref (heap s1) wr0 = Some (np.A2 (initial_weights w f)) ∧
    heap s1 !! ll = Some (np.A1 (replicate (Z.to_nat num_iters) 0)) ∧
    after_iterations (take 100 Xfull) (column (take 100 yfull))
      (initial_weights w f) learning_rate (Z.to_nat num_iters) ll s1
      (Z.to_nat num_iters) s2.
Proof.
  intros HM Hf HX Hy Gx Gy Dx Dy.
  set (X := take 100 Xfull). set (y := column (take 100 yfull)).
  set (N := Z.to_nat num_iters).
  assert (wp (cell_batch;; train_setup w) s (λ _ s1,
    ∃ wr0 ll, heap s ⊆ heap s1 ∧ heap s !! ll = None ∧
      globals s1 =
        <["losses" := VArr (whole ll)]>
          (<["num_iters" := VInt num_iters]>
             (<["learning_rate" := VFloat (5 / 10000)]>
                (<["W" := VArr wr0]>
                   (<["num_features" := VInt (Z.of_nat f)]>
                      (<["y_train_batch" := VArr (with_view (VRowsNew 100) yr)]>
                         (<["x_train_batch" := VArr (with_view (VRows 100) xr)]>
                            (<["batch_size" := VInt 100]> (globals s)))))))) ∧
      deref (heap s1) wr0 = Some (np.A2 (initial_weights w f)) ∧
      heap s1 !! ll = Some (np.A1 (replicate N 0)) ∧
      deref (heap s) (with_view (VRows 100) xr) = Some (np.A2 X) ∧
      deref (heap s) (with_view (VRowsNew 100) yr) = Some (np.A2 y))) as Hsetup.
  { apply wp_bind. eapply cell_batch_spec; try done. intros Dxb Dyb.
    eapply (train_setup_spec w _ xr Xfull M f); [done | done | by names | done |].
    intros s1 wr0 ll Hsub Hfresh Hg Dw Hl. cbn [globals heap] in *.
    exists wr0, ll. by split_and!. }
  destruct Hsetup as ([] & s1 & Hrun1 & wr0 & ll & Hsub & Hfresh & Hg & Dw & Hl & Dxb & Dyb).
  assert (Hn : (0 < 100 `min` M)%nat) by lia.
  assert (HXb : has_shape (100 `min` M) f X) by (by apply has_shape_take).
  assert (Hyb : has_shape (100 `min` M) 1 y).
  { unfold y. replace (100 `min` M)%nat with (length (take 100 yfull)).
    - apply has_shape_column.
    - rewrite length_take. by rewrite Hy. }
  assert (HW0 : has_shape f 1 (initial_weights w f)).
  { apply has_shape_map, has_shape_rand2. }
  assert (Nx : buf (with_view (VRows 100) xr) ≠ ll).
  { intros E. destruct (deref_Some_buf _ _ _ Dxb) as [v Hv]. rewrite E in Hv. congruence. }
  assert (Ny : buf (with_view (VRowsNew 100) yr) ≠ ll).
  { intros E. destruct (deref_Some_buf _ _ _ Dyb) as [v Hv]. rewrite E in Hv. congruence. }
  destruct (training_loop_spec X y (initial_weights w f) learning_rate
              (100 `min` M) f N
              (with_view (VRows 100) xr) (with_view (VRowsNew 100) yr) ll s1)
    with (wr0 := wr0) as ([] & s2 & Hrun2 & Hinv); try done.
  - rewrite Hg. by names.
  - rewrite Hg. by names.
  - rewrite Hg. by names.
  - rewrite Hg. by names.
  - by eapply deref_weaken.
  - by eapply deref_weaken.
  - rewrite Hg. names. unfold N. rewrite Z2Nat.id; [done | unfold num_iters; lia].
  - rewrite Hg. by names.
  - exists s1, s2, wr0, ll. by split_and!.
Qed.

Lemma run_batch_then_train w s s1 s2 :
  (cell_batch;; train_setup w) s = Some (tt, s1) →
  training_loop s1 = Some (tt, s2) →
  (cell_batch;; cell_train w) s = Some (tt, s2).
Proof.
  intros H1 H2. unfold cell_train.
  rewrite <- (bind_assoc cell_batch (λ _, train_setup w) (λ _, training_loop)).
  apply bind_Some. by exists tt, s1.
Qed.

Lemma num_iters_pos : (0 < Z.to_nat num_iters)%nat.
Proof. unfold num_iters. lia. Qed.

Lemma example_state_ok :
  (0 < 1)%nat ∧ (0 < 1)%nat ∧ has_shape 1 1 [[1]] ∧ length [1] = 1%nat ∧
  globals example_state !! "x_train" = Some (VArr (whole 1%positive)) ∧
  globals example_state !! "y_train" = Some (VArr (whole 2%positive)) ∧
  deref (heap example_state) (whole 1%positive) = Some (np.A2 [[1]]) ∧
  deref (heap example_state) (whole 2%positive) = Some (np.A1 [1]).
Proof.
  split_and!; try done; try lia.
  split; [done|]. by repeat constructor.
Qed.

(** Claim C9.  When [x_train] is a matrix with at least one row and one
    column and [y_train] has one label per row, the batch cell followed by
    the training cell returns; [num_iters] is 5000; [W] then holds the
    weights after [num_iters] gradient steps from the initial weights, the
    loop variable is [num_iters - 1], and [losses] has [num_iters] entries,
    the entry [i] being the mean squared error on the batch of the weights
    after [i + 1] steps. *)
Theorem training_loop_runs_num_iters w s xr yr (Xfull : np.matrix)
    (yfull : list R) M f :
  (0 < M)%nat → (0 < f)%nat → has_shape M f Xfull → length yfull = M →
  globals s !! "x_train" = Some (VArr xr) →
  globals s !! "y_train" = Some (VArr yr) →
  deref (heap s) xr = Some (np.A2 Xfull) →
  deref (heap s) yr = Some (np.A1 yfull) →
  ∃ s' losses,
    (cell_batch;; cell_train w) s = Some (tt, s') ∧
    num_iters = 5000%Z ∧
    holds s' "W"
      (np.A2 (weights_after (take 100 Xfull) (column (take 100 yfull))
                (initial_weights w f) learning_rate (Z.to_nat num_iters))) ∧
    globals s' !! "i" = Some (VInt (num_iters - 1)) ∧
    holds s' "losses" (np.A1 losses) ∧
    length losses = Z.to_nat num_iters ∧
    ∀ i, (i < Z.to_nat num_iters)%nat →
      losses !! i =
      Some (mean_squared_error (take 100 Xfull) (column (take 100 yfull))
              (weights_after (take 100 Xfull) (column (take 100 yfull))
                 (initial_weights w f) learning_rate (S i))).
Proof.
  intros HM Hf HX Hy Gx Gy Dx Dy.
  destruct (training_run w s xr yr Xfull yfull M f)
    as (s1 & s2 & wr0 & ll & H1 & H2 & Hsub & Hfresh & Hg & Dw & Hl & Hinv); try done.
  pose proof num_iters_pos as HN.
  set (N := Z.to_nat num_iters) in *.
  destruct Hinv as (F1 & F2 & HW & Hlosses & Hi).
  exists s2, (map (loss_at (take 100 Xfull) (column (take 100 yfull))
                     (initial_weights w f) learning_rate) (seq 0 N)).
  split_and!.
  - by apply run_batch_then_train with s1.
  - done.
  - done.
  - rewrite (Hi (N - 1)%nat) by lia. do 2 f_equal; unfold N, num_iters; lia.
  - exists (whole ll). split.
    + rewrite F1 by done. rewrite Hg. by names.
    + rewrite deref_whole, Hlosses, Nat.sub_diag. cbn. by rewrite app_nil_r.
  - by rewrite length_map, length_seq.
  - intros i Hi'. rewrite list_lookup_fmap, lookup_seq_lt by done. done.
Qed.

(** Claim C9 for a training set of one example. *)
Lemma training_loop_runs_num_iters_witness :
  ∃ s' losses,
    (cell_batch;; cell_train example_world) example_state = Some (tt, s') ∧
    num_iters = 5000%Z ∧
    holds s' "W"
      (np.A2 (weights_after (take 100 [[1]]) (column (take 100 [1]))
                (initial_weights example_world 1) learning_rate (Z.to_nat num_iters))) ∧
    globals s' !! "i" = Some (VInt (num_iters - 1)) ∧
    holds s' "losses" (np.A1 losses) ∧
    length losses = Z.to_nat num_iters ∧
    ∀ i, (i < Z.to_nat num_iters)%nat →
      losses !! i =
      Some (mean_squared_error (take 100 [[1]]) (column (take 100 [1]))
              (weights_after (take 100 [[1]]) (column (take 100 [1]))
                 (initial_weights example_world 1) learning_rate (S i))).
Proof.
  apply (training_loop_runs_num_iters example_world example_state
           (whole 1%positive) (whole 2%positive) [[1]] [1] 1 1).
  - lia.
  - lia.
  - split; [reflexivity | repeat constructor].
  - reflexivity.
  - reflexivity.
  - reflexivity.
  - reflexivity.
  - reflexivity.
Defined.

(** Claim C8, as amended.  [learn] and [evaluate] bind no name and leave
    every existing array as it is.  When [x_train] is a matrix with at least
    one row and one column and [y_train] has one label per row, the batch
    cell and the training cell run; [x_train_batch] and [y_train_batch] hold
    the first 100 examples before the loop and after it; and the loop leaves
    every name other than [W] and the loop variable [i] bound as it was, and
    every array other than the one of [losses] with its contents. *)
Theorem training_loop_frame w s xr yr (Xfull : np.matrix) (yfull : list R) M f :
  (0 < M)%nat → (0 < f)%nat → has_shape M f Xfull → length yfull = M →
  globals s !! "x_train" = Some (VArr xr) →
  globals s !! "y_train" = Some (VArr yr) →
  deref (heap s) xr = Some (np.A2 Xfull) →
  deref (heap s) yr = Some (np.A1 yfull) →
  (∀ x y W eta, readonly (learn x y W eta)) ∧
  (∀ W x y, readonly (evaluate W x y)) ∧
  ∃ s1 s2 ll,
    (cell_batch;; train_setup w) s = Some (tt, s1) ∧
    training_loop s1 = Some (tt, s2) ∧
    holds s1 "x_train_batch" (np.A2 (take 100 Xfull)) ∧
    holds s1 "y_train_batch" (np.A2 (column (take 100 yfull))) ∧
    holds s2 "x_train_batch" (np.A2 (take 100 Xfull)) ∧
    holds s2 "y_train_batch" (np.A2 (column (take 100 yfull))) ∧
    globals s1 !! "losses" = Some (VArr (whole ll)) ∧
    (∀ name, name ≠ "W" → name ≠ "i" → globals s2 !! name = globals s1 !! name) ∧
    (∀ l v, heap s1 !! l = Some v → l ≠ ll → heap s2 !! l = Some v).
Proof.
  intros HM Hf HX Hy Gx Gy Dx Dy.
  split; [intros; apply readonly_learn|]. split; [intros; apply readonly_evaluate|].
  destruct (training_run w s xr yr Xfull yfull M f)
    as (s1 & s2 & wr0 & ll & H1 & H2 & Hsub & Hfresh & Hg & Dw & Hl & Hinv); try done.
  destruct Hinv as (F1 & F2 & _ & _ & _).
  assert (Dxb : deref (heap s1) (with_view (VRows 100) xr) = Some (np.A2 (take 100 Xfull))).
  { eapply deref_weaken; [exact Hsub|]. by rewrite deref_with_view, Dx. }
  assert (Dyb : deref (heap s1) (with_view (VRowsNew 100) yr)
                = Some (np.A2 (column (take 100 yfull)))).
  { eapply deref_weaken; [exact Hsub|]. by rewrite deref_with_view, Dy. }
  assert (Nx : buf (with_view (VRows 100) xr) ≠ ll).
  { intros E. destruct (deref_Some_buf _ _ _ Dx) as [v Hv]. cbn in E. rewrite E in Hv. congruence. }
  assert (Ny : buf (with_view (VRowsNew 100) yr) ≠ ll).
  { intros E. destruct (deref_Some_buf _ _ _ Dy) as [v Hv]. cbn in E. rewrite E in Hv. congruence. }
  exists s1, s2, ll. split_and!; try done.
  - exists (with_view (VRows 100) xr). split; [rewrite Hg; by names | done].
  - exists (with_view (VRowsNew 100) yr). split; [rewrite Hg; by names | done].
  - exists (with_view (VRows 100) xr). split.
    + rewrite F1 by done. rewrite Hg. by names.
    + by apply (frame_deref ll s1).
  - exists (with_view (VRowsNew 100) yr). split.
    + rewrite F1 by done. rewrite Hg. by names.
    + by apply (frame_deref ll s1).
  - rewrite Hg. by names.
Qed.

(** Claim C8, as amended, for a training set of one example. *)
Lemma training_loop_frame_witness :
  (∀ x y W eta, readonly (learn x y W eta)) ∧
  (∀ W x y, readonly (evaluate W x y)) ∧
  ∃ s1 s2 ll,
    (cell_batch;; train_setup example_world) example_state = Some (tt, s1) ∧
    training_loop s1 = Some (tt, s2) ∧
    holds s1 "x_train_batch" (np.A2 (take 100 [[1]])) ∧
    holds s1 "y_train_batch" (np.A2 (column (take 100 [1]))) ∧
    holds s2 "x_train_batch" (np.A2 (take 100 [[1]])) ∧
    holds s2 "y_train_batch" (np.A2 (column (take 100 [1]))) ∧
    globals s1 !! "losses" = Some (VArr (whole ll)) ∧
    (∀ name, name ≠ "W" → name ≠ "i" → globals s2 !! name = globals s1 !! name) ∧
    (∀ l v, heap s1 !! l = Some v → l ≠ ll → heap s2 !! l = Some v).
Proof.
  apply (training_loop_frame example_world example_state
           (whole 1%positive) (whole 2%positive) [[1]] [1] 1 1).
  - lia.
  - lia.
  - split; [reflexivity | repeat constructor].
  - reflexivity.
  - reflexivity.
  - reflexivity.
  - reflexivity.
  - reflexivity.
Defined.

(** Claim C8 fails as stated: the loop also binds the global name [i],
    unbound before it and 4999 after it. *)
Lemma loop_rebinds_its_counter :
  ∃ s1 s2,
    (cell_batch;; train_setup example_world) example_state = Some (tt, s1) ∧
    training_loop s1 = Some (tt, s2) ∧
    globals s1 !! "i" = None ∧
    globals s2 !! "i" = Some (VInt 4999) ∧
    ¬ only_W_and_losses_change s1 s2.
Proof.
  destruct (training_run example_world example_state
              (whole 1%positive) (whole 2%positive) [[1]] [1] 1 1)
    as (s1 & s2 & wr0 & ll & H1 & H2 & Hsub & Hfresh & Hg & Dw & Hl & Hinv);
    try apply example_state_ok.
  destruct Hinv as (_ & _ & _ & _ & Hi).
  pose proof num_iters_pos as HN.
  assert (G1 : globals s1 !! "i" = None) by (rewrite Hg; by names).
  assert (G2 : globals s2 !! "i" = Some (VInt 4999)).
  { rewrite (Hi (Z.to_nat num_iters - 1)%nat) by lia.
    do 2 f_equal; unfold num_iters; lia. }
  exists s1, s2. split_and!; try done.
  intros Hframe. specialize (Hframe "i"). rewrite G1, G2 in Hframe.
  by discriminate Hframe.
Qed.

(** ** Names a cell leaves alone *)

Lemma keeps_readonly {A} x (c : M A) : readonly c → keeps x c.
Proof. intros H s a s' Hc. destruct (H s a s' Hc) as [-> _]. done. Qed.

Lemma keeps_assign x y v : x ≠ y → keeps x (assign y v).
Proof. intros H s a s' [= _ <-]. cbn. by rewrite lookup_insert_ne. Qed.

Lemma keeps_bind {A B} x (c : M A) (f : A → M B) :
  keeps x c → (∀ a, keeps x (f a)) → keeps x (c ≫= f).
Proof.
  intros Hc Hf s b s' (a & s1 & H1 & H2)%bind_Some.
  rewrite (Hf a s1 b s' H2). by apply (Hc s a s1).
Qed.

Lemma keeps_imap x f a : keeps x (np_imap f a).
Proof.
  intros s u s'. unfold np_imap.
  destruct (view a); [|done]. destruct (heap s !! buf a); [|done]. by intros [= _ <-].
Qed.

Lemma keeps_setitem x a i r : keeps x (np_setitem a i r).
Proof.
  intros s u s'. unfold np_setitem.
  destruct (view a); [|done]. destruct (heap s !! buf a) as [[]|]; try done.
  case_decide; [|done]. by intros [= _ <-].
Qed.

Lemma keeps_for_each x y l body :
  x ≠ y → (∀ i, keeps x (body i)) → keeps x (for_each y l body).
Proof.
  intros Hxy Hbody. induction l as [|i l IH]; cbn [for_each].
  - apply keeps_readonly, readonly_ret.
  - apply keeps_bind; [by apply keeps_assign|]. intros _.
    apply keeps_bind; [apply Hbody|]. intros _. exact IH.
Qed.

Lemma readonly_np_zeros n : readonly (np_zeros n).
Proof. unfold np_zeros. solve_readonly. Qed.

Lemma readonly_to_categorical y nb : readonly (to_categorical y nb).
Proof. unfold to_categorical. solve_readonly. Qed.

Lemma readonly_np_item a i : readonly (np_item a i).
Proof. unfold np_item. readonly_call. Qed.

Lemma readonly_np_row a i : readonly (np_row a i).
Proof. unfold np_row. readonly_call. Qed.

Lemma readonly_show_digit i : readonly (show_digit i).
Proof. unfold show_digit. repeat first [apply readonly_np_row | apply readonly_np_item | readonly_call]. Qed.

Create HintDb readonly.

#[local] Hint Resolve readonly_ret readonly_raise readonly_lift readonly_load
  readonly_alloc readonly_global readonly_global_arr readonly_global_int
  readonly_global_float readonly_np_dot readonly_np_binop readonly_np_map
  readonly_np_mean readonly_np_view readonly_np_shape0 readonly_np_shape1
  readonly_np_sum_axis1 readonly_np_zeros readonly_to_categorical
  readonly_np_item readonly_np_row readonly_show_digit readonly_linear_model
  readonly_learn readonly_evaluate readonly_sigmoid readonly_softmax
  readonly_classification_model readonly_classification_model_softmax
  readonly_nonlinear_model readonly_nonlinear_model3 : readonly.

Ltac keeps_step :=
  lazymatch goal with
  | |- keeps _ (for_each _ _ _) => apply keeps_for_each; [done | intros ?]
  | |- keeps _ (_ ≫= _) => apply keeps_bind; [|intros ?]
  | |- keeps _ (assign _ _) => apply keeps_assign; done
  | |- keeps _ (np_imap _ _) => apply keeps_imap
  | |- keeps _ (np_setitem _ _ _) => apply keeps_setitem
  | |- keeps _ (if ?b then _ else _) => destruct b
  | |- keeps _ (astype _) => unfold astype
  | |- keeps _ (idiv255 _) => unfold idiv255
  | |- keeps _ (flatten _) => unfold flatten
  | |- keeps _ (init_weights _ _ _ _) => unfold init_weights
  | |- keeps _ (for_range _ _ _ _) => unfold for_range
  | |- keeps _ training_loop => unfold training_loop
  | |- keeps _ (train_setup _) => unfold train_setup
  | |- keeps _ (training_step _) => unfold training_step
  | |- keeps _ (show_prediction _) => unfold show_prediction
  | |- keeps _ (show_onehot _) => unfold show_onehot
  | |- keeps _ np_arange_sigmoid_plot => unfold np_arange_sigmoid_plot
  | |- keeps _ _ => apply keeps_readonly; solve [auto with readonly]
  end.

Ltac solve_keeps := repeat keeps_step.

Lemma training_step_keeps x i : x ≠ "W" → keeps x (training_step i).
Proof. intros H. unfold training_step. solve_keeps. Qed.

Lemma notebook_keeps w x c :
  x ∈ perceptron_parameters → c ∈ notebook w → keeps x c.
Proof.
  unfold perceptron_parameters, notebook. intros Hx Hc.
  repeat (apply elem_of_cons in Hx as [->|Hx]); [| | | |by apply elem_of_nil in Hx];
  repeat (apply elem_of_cons in Hc as [->|Hc]); try (by apply elem_of_nil in Hc);
  unfold cell_imports, cell_load_data, cell_normalize, cell_flatten,
    cell_labels, cell_show_digits, cell_def_linear_model, cell_def_evaluate,
    cell_def_learn, cell_batch, cell_train, cell_check_results,
    cell_def_sigmoid, cell_plot_sigmoid, cell_onehot, cell_show_onehot,
    cell_def_softmax, cell_init_classifier, cell_apply_classifier,
    cell_print_probabilities, cell_def_nonlinear_model,
    cell_def_nonlinear_model3;
  solve_keeps.
Qed.

Lemma run_keeps x (cells : list (M unit)) :
  (∀ c, c ∈ cells → keeps x c) → keeps x (run cells).
Proof.
  induction cells as [|c cells IH]; intros H; cbn.
  - apply keeps_readonly, readonly_ret.
  - apply keeps_bind; [apply H; by left|]. intros _.
    apply IH. intros c' Hc'. apply H. by right.
Qed.

Lemma global_arr_inv x s a t :
  global_arr x s = Some (a, t) → t = s ∧ globals s !! x = Some (VArr a).
Proof.
  unfold global_arr, global, lift, mbind, M_bind, mret, M_ret, raise.
  destruct (globals s !! x) as [[]|]; try done. by intros [= <- <-].
Qed.

Lemma global_float_inv x s r t : global_float x s = Some (r, t) → t = s.
Proof.
  unfold global_float, global, lift, mbind, M_bind, mret, M_ret, raise.
  destruct (globals s !! x) as [[]|]; try done; by intros [= _ <-].
Qed.

Lemma load_inv a x s t : load a s = Some (x, t) → t = s.
Proof. unfold load, lift. destruct (deref (heap s) a); [|done]. by intros [= _ <-]. Qed.

Lemma lift_inv {A} (o : option A) x s t : lift o s = Some (x, t) → t = s.
Proof. unfold lift. destruct o; [|done]. by intros [= _ <-]. Qed.

(** The array returned by a binary operation is a new one. *)
Lemma np_binop_new f a b s r s' :
  np_binop f a b s = Some (r, s') →
  heap s !! buf r = None ∧ is_Some (heap s' !! buf r).
Proof.
  unfold np_binop. intros H.
  apply bind_Some in H as (x & s1 & H1 & H). apply load_inv in H1 as ->.
  apply bind_Some in H as (y & s2 & H2 & H). apply load_inv in H2 as ->.
  apply bind_Some in H as (z & s3 & H3 & H). apply lift_inv in H3 as ->.
  unfold alloc in H. injection H as <- <-. cbn. split.
  - apply not_elem_of_dom, is_fresh.
  - rewrite lookup_insert_eq. by eexists.
Qed.

Lemma learn_new x y W eta s r s' :
  learn x y W eta s = Some (r, s') →
  heap s !! buf r = None ∧ is_Some (heap s' !! buf r) ∧ globals s' = globals s.
Proof.
  intros Hrun. pose proof (readonly_learn x y W eta s r s' Hrun) as [Eg _].
  unfold learn in Hrun.
  apply bind_Some in Hrun as (n & s1 & H1 & H).
  apply readonly_np_shape0 in H1.
  apply bind_Some in H as (p & s2 & H2 & H).
  apply readonly_linear_model in H2.
  apply bind_Some in H as (c & s3 & H3 & H).
  assert (E3 : s3 = s2).
  { destruct (decide (n = 0%nat)); [done|]. by injection H3 as _ <-. }
  subst s3. clear H3.
  apply bind_Some in H as (xt & s4 & H4 & H).
  apply readonly_np_view in H4.
  apply bind_Some in H as (d & s5 & H5 & H).
  apply readonly_np_binop in H5.
  apply bind_Some in H as (g & s6 & H6 & H).
  apply readonly_np_dot in H6.
  apply bind_Some in H as (g1 & s7 & H7 & H).
  apply readonly_np_map in H7.
  apply bind_Some in H as (g2 & s8 & H8 & H).
  apply readonly_np_map in H8.
  apply bind_Some in H as (nw & s9 & H9 & H).
  injection H as <- <-.
  destruct (np_binop_new _ _ _ _ _ _ H9) as [Hnew Hlive].
  split_and!; [|done|done].
  eapply fresh_extends; [|exact Hnew].
  repeat (eapply extends_trans; [eassumption|]). apply extends_refl.
Qed.

Lemma np_setitem_inv a i x s t :
  np_setitem a i x s = Some (tt, t) →
  ∃ v, globals t = globals s ∧ heap t = <[buf a := v]> (heap s).
Proof.
  unfold np_setitem. destruct (view a); [|done].
  destruct (heap s !! buf a) as [[]|]; try done.
  destruct (decide _); [|done]. intros [= <-]. by eexists.
Qed.

(** What an iteration of the loop does to [W]: it is bound to the new array
    that [learn] returns for the batch, the current [W] and the value of
    [learning_rate]; the iteration binds no other name, and leaves every
    array but the one of [losses] with the contents it has after [learn]. *)
Lemma training_step_updates_W i s s' :
  training_step i s = Some (tt, s') →
  ∃ xb yb W eta losses W' sm,
    globals s !! "x_train_batch" = Some (VArr xb) ∧
    globals s !! "y_train_batch" = Some (VArr yb) ∧
    globals s !! "W" = Some (VArr W) ∧
    global_float "learning_rate" s = Some (eta, s) ∧
    globals s !! "losses" = Some (VArr losses) ∧
    learn xb yb W eta s = Some (W', sm) ∧
    heap s !! buf W' = None ∧
    globals s' = <["W" := VArr W']> (globals s) ∧
    (∀ a v, buf a ≠ buf losses →
       deref (heap sm) a = Some v → deref (heap s') a = Some v) ∧
    (is_Some (heap s !! buf losses) →
     deref (heap s') W' = deref (heap sm) W').
Proof.
  unfold training_step. intros H.
  apply bind_Some in H as (xb & s1 & Hxb & H).
  destruct (global_arr_inv _ _ _ _ Hxb) as [-> Gxb].
  apply bind_Some in H as (yb & s2 & Hyb & H).
  destruct (global_arr_inv _ _ _ _ Hyb) as [-> Gyb].
  apply bind_Some in H as (W & s3 & HW & H).
  destruct (global_arr_inv _ _ _ _ HW) as [-> GW].
  apply bind_Some in H as (eta & s4 & Heta & H).
  pose proof (global_float_inv _ _ _ _ Heta) as ->.
  apply bind_Some in H as (W' & s5 & Hlearn & H).
  destruct (learn_new _ _ _ _ _ _ _ Hlearn) as (Hnew & Hlive & Eg5).
  apply bind_Some in H as ([] & s6 & Hassign & H).
  injection Hassign as <-.
  apply bind_Some in H as (W2 & s7 & HW2 & H).
  destruct (global_arr_inv _ _ _ _ HW2) as [-> _].
  apply bind_Some in H as (xb2 & s8 & Hxb2 & H).
  destruct (global_arr_inv _ _ _ _ Hxb2) as [-> _].
  apply bind_Some in H as (yb2 & s9 & Hyb2 & H).
  destruct (global_arr_inv _ _ _ _ Hyb2) as [-> _].
  apply bind_Some in H as (loss & s10 & Hev & H).
  apply readonly_evaluate in Hev as [Eg10 Eh10]. cbn [globals heap] in *.
  apply bind_Some in H as (l & s11 & Hl & H).
  destruct (global_arr_inv _ _ _ _ Hl) as [-> Gl].
  apply np_setitem_inv in H as (v & Eg & Eh).
  rewrite Eg10, Eg5, lookup_insert_ne in Gl by done.
  assert (Hframe : ∀ a, is_Some (heap s5 !! buf a) ∨ heap s10 !! buf a = None →
            buf a ≠ buf l → deref (heap s') a = deref (heap s5) a).
  { intros a Ha Hne. apply deref_same_buf. rewrite Eh, lookup_insert_ne by done.
    destruct Ha as [[z Hz]|Hz].
    - rewrite Hz. by eapply lookup_weaken.
    - rewrite Hz. destruct (heap s5 !! buf a) as [z|] eqn:E; [|done].
      by rewrite (lookup_weaken _ _ _ _ E Eh10) in Hz. }
  exists xb, yb, W, eta, l, W', s5. split_and!; try done.
  - by rewrite Eg, Eg10, Eg5.
  - intros a z Hne Hz. rewrite <- Hz. apply Hframe; [|done].
    left. by eapply deref_Some_buf.
  - intros [z Hz]. apply Hframe; [by left|].
    intros E. rewrite E in Hnew. congruence.
Qed.

(** Claim C1, as amended.  The notebook trains only the linear regressor:
    no cell binds or rebinds one of the names [W1], [b1], [W2], [b2]; both
    [nonlinear_model] functions are forward passes, which bind no name and
    leave every existing array as it is; the training cell is a cell of the
    notebook, and each iteration of its loop binds [W] to the array that
    [learn] returns for the batch, the current [W] and the learning rate:
    [learn] is run in the state before the iteration on the arrays bound to
    [x_train_batch], [y_train_batch] and [W] with the value of the global
    [learning_rate]; its result [W'] is a new array; the iteration binds
    [W] to [W'] and no other name; every array that does not share the
    buffer of [losses] has after the iteration the contents it has after
    [learn], and so has [W'] when [losses] is an array of the heap. *)
Theorem only_the_linear_model_is_trained :
  (∀ w c x, c ∈ notebook w → x ∈ perceptron_parameters → keeps x c) ∧
  (∀ W1 W2 b1 b2 x, readonly (nonlinear_model W1 W2 b1 b2 x)) ∧
  (∀ A1 A2 A3 b1 b2 b3 x, readonly (nonlinear_model3 A1 A2 A3 b1 b2 b3 x)) ∧
  (∀ w, cell_train w ∈ notebook w) ∧
  (∀ i s s', training_step i s = Some (tt, s') →
     ∃ xb yb W eta losses W' sm,
       globals s !! "x_train_batch" = Some (VArr xb) ∧
       globals s !! "y_train_batch" = Some (VArr yb) ∧
       globals s !! "W" = Some (VArr W) ∧
       global_float "learning_rate" s = Some (eta, s) ∧
       globals s !! "losses" = Some (VArr losses) ∧
       learn xb yb W eta s = Some (W', sm) ∧
       heap s !! buf W' = None ∧
       globals s' = <["W" := VArr W']> (globals s) ∧
       (∀ a v, buf a ≠ buf losses →
          deref (heap sm) a = Some v → deref (heap s') a = Some v) ∧
       (is_Some (heap s !! buf losses) →
        deref (heap s') W' = deref (heap sm) W')).
Proof.
  split_and!.
  - intros w c x Hc Hx. by apply (notebook_keeps w).
  - intros. apply readonly_nonlinear_model.
  - intros. apply readonly_nonlinear_model3.
  - intros w. unfold notebook. set_solver.
  - apply training_step_updates_W.
Qed.

Lemma example_step_runs : ∃ s', training_step 0 example_step = Some (tt, s').
Proof. eexists. vm_compute. reflexivity. Qed.

(** Claim C1, as amended: an iteration of the loop on a batch of one
    example. *)
Lemma only_the_linear_model_is_trained_witness :
  ∃ s' xb yb W eta losses W' sm,
    training_step 0 example_step = Some (tt, s') ∧
    globals example_step !! "x_train_batch" = Some (VArr xb) ∧
    globals example_step !! "y_train_batch" = Some (VArr yb) ∧
    globals example_step !! "W" = Some (VArr W) ∧
    global_float "learning_rate" example_step = Some (eta, example_step) ∧
    globals example_step !! "losses" = Some (VArr losses) ∧
    learn xb yb W eta example_step = Some (W', sm) ∧
    heap example_step !! buf W' = None ∧
    globals s' = <["W" := VArr W']> (globals example_step) ∧
    (∀ a v, buf a ≠ buf losses →
       deref (heap sm) a = Some v → deref (heap s') a = Some v) ∧
    (is_Some (heap example_step !! buf losses) →
     deref (heap s') W' = deref (heap sm) W').
Proof.
  destruct example_step_runs as [s' Hrun].
  destruct only_the_linear_model_is_trained as (_ & _ & _ & _ & Hstep).
  destruct (Hstep 0%nat example_step s' Hrun)
    as (xb & yb & W & eta & losses & W' & sm & H).
  exists s', xb, yb, W, eta, losses, W', sm. exact (conj Hrun H).
Defined.


(** Claim C1 fails as stated: there is no world and no parameter of the
    perceptron that some cell of the notebook updates; after a whole run in
    a fresh kernel the four names are still unbound. *)
Lemma perceptron_parameters_never_updated :
  (¬ ∃ w x, x ∈ perceptron_parameters ∧ updates x (notebook w)) ∧
  (∀ w x s', x ∈ perceptron_parameters →
     run (notebook w) fresh_kernel = Some (tt, s') → globals s' !! x = None).
Proof.
  split.
  - intros (w & x & Hx & c & s & s' & Hc & Hrun & Hne).
    apply Hne. by apply (notebook_keeps w x c Hx Hc s tt s').
  - intros w x s' Hx Hrun.
    rewrite (run_keeps x (notebook w) (λ c Hc, notebook_keeps w x c Hx Hc) _ _ _ Hrun).
    done.
Qed.

(** ** Normalisation and flattening *)

Lemma length_concat_rect {A} c (m : list (list A)) :
  Forall (λ r, length r = c) m → length (concat m) = (length m * c)%nat.
Proof.
  induction 1 as [|r m Hr _ IH]; [done|].
  cbn. rewrite length_app, IH, Hr. lia.
Qed.

Lemma chunks_concat k (rows : np.matrix) :
  Forall (λ r, length r = k) rows →
  np.chunks k (length rows) (concat rows) = rows.
Proof.
  induction 1 as [|r rows Hr _ IH]; [done|].
  cbn. rewrite take_app_length' by done. rewrite drop_app_length' by done.
  by rewrite IH.
Qed.

Lemma nth_concat_rect w (im : np.matrix) r c :
  Forall (λ u, length u = w) im → (r < length im)%nat → (c < w)%nat →
  nth (r * w + c) (concat im) 0 = nth c (nth r im []) 0.
Proof.
  intros H. revert r. induction H as [|u im Hu _ IH]; intros r Hr Hc; [cbn in Hr; lia|].
  destruct r as [|r]; cbn.
  - rewrite app_nth1 by lia. done.
  - rewrite app_nth2 by lia. rewrite <- IH by (cbn in Hr; lia).
    f_equal. lia.
Qed.

Lemma normalized_shape n h w t :
  images_shape n h w t → has_shape3 n h w (normalized t).
Proof.
  intros [Hn Ht]. split; [by unfold normalized; rewrite length_map|].
  unfold normalized. rewrite Forall_map. eapply Forall_impl; [exact Ht|].
  intros im [Hh Hw]. split; [by rewrite length_map|].
  unfold np.rect. rewrite Forall_map. eapply Forall_impl; [exact Hw|].
  intros r Hr. by rewrite length_map.
Qed.

Lemma normalized_range t :
  pixels_in_range t → Forall (Forall (Forall in_unit_interval)) (normalized t).
Proof.
  intros H. unfold normalized. rewrite Forall_map. eapply Forall_impl; [exact H|].
  intros im Him. rewrite Forall_map. eapply Forall_impl; [exact Him|].
  intros r Hr. rewrite Forall_map. eapply Forall_impl; [exact Hr|].
  intros p [H0 H255]. apply IZR_le in H0, H255. unfold in_unit_interval. lra.
Qed.

Lemma flat_shape n h w (t : list np.matrix) :
  has_shape3 n h w t → has_shape n (h * w) (map np.flat t).
Proof.
  intros [Hn Ht]. split; [by rewrite length_map|].
  unfold np.rect. rewrite Forall_map. eapply Forall_impl; [exact Ht|].
  intros im [Hh Hw]. unfold np.flat. rewrite (length_concat_rect w) by done. by rewrite Hh.
Qed.

Lemma reshape_images n h w (t : list np.matrix) :
  has_shape3 n h w t →
  np.reshape n (h * w) (np.A3 t) = Some (np.A2 (map np.flat t)).
Proof.
  intros Ht. destruct (flat_shape _ _ _ _ Ht) as [Hlen Hrect].
  unfold np.reshape. cbn [np.ravel].
  rewrite decide_True by (by rewrite (length_concat_rect (h * w)), Hlen).
  rewrite <- Hlen. by rewrite chunks_concat.
Qed.

Lemma prod_image_shape_images n h w (t : list np.matrix) :
  (0 < n)%nat → has_shape3 n h w t →
  np.prod_image_shape (np.A3 t) = Some (h * w)%nat.
Proof.
  intros Hn [Hlen Ht]. destruct t as [|im t]; [cbn in Hlen; lia|].
  cbn. f_equal. inversion Ht as [|? ? [Hh Hw] _]; subst.
  destruct im as [|u im]; [done|]. cbn. inversion Hw; subst. done.
Qed.

Lemma flat_entry n h w (t : list np.matrix) i r c :
  has_shape3 n h w t → (i < n)%nat → (r < h)%nat → (c < w)%nat →
  entry (map np.flat t) i (r * w + c) = pixel t i r c.
Proof.
  intros [Hn Ht] Hi Hr Hc. unfold entry, pixel.
  assert (E : nth i (map np.flat t) [] = np.flat (nth i t []))
    by apply (map_nth np.flat t [] i).
  rewrite E. unfold np.flat.
  assert (Him : has_shape h w (nth i t [])).
  { rewrite Forall_forall in Ht. apply Ht, list_elem_of_In, nth_In. lia. }
  destruct Him as [Hh Hw]. apply (nth_concat_rect w); [done | lia | done].
Qed.

Lemma flat_range (t : list np.matrix) :
  Forall (Forall (Forall in_unit_interval)) t →
  Forall (Forall in_unit_interval) (map np.flat t).
Proof.
  intros H. rewrite Forall_map. eapply Forall_impl; [exact H|].
  intros im Him. by apply Forall_concat.
Qed.

(** The statements of the pre-processing cells. *)

Lemma astype_spec x a v s (Q : unit → state → Prop) :
  globals s !! x = Some (VArr a) → deref (heap s) a = Some v →
  (∀ l, heap s !! l = None →
     Q tt (State (<[x := VArr (whole l)]> (globals s))
                 (<[l := np.map_nd (λ t, t) v]> (heap s)))) →
  wp (astype x) s Q.
Proof.
  intros G D HQ. unfold astype.
  apply wp_bind, (wp_global_arr _ a); [done|].
  apply wp_bind. unfold np_map.
  apply wp_bind, (wp_load _ v); [done|].
  apply wp_alloc. intros l Hl. apply wp_assign. by apply HQ.
Qed.

Lemma idiv255_spec x l v s (Q : unit → state → Prop) :
  globals s !! x = Some (VArr (whole l)) → heap s !! l = Some v →
  Q tt (State (globals s) (<[l := np.map_nd (λ t, t / 255) v]> (heap s))) →
  wp (idiv255 x) s Q.
Proof.
  intros G D HQ. unfold idiv255.
  apply wp_bind, (wp_global_arr _ (whole l)); [done|].
  by eapply wp_imap.
Qed.

Lemma flatten_spec x a (t : list np.matrix) n h w s (Q : unit → state → Prop) :
  (0 < n)%nat → has_shape3 n h w t →
  globals s !! x = Some (VArr a) → deref (heap s) a = Some (np.A3 t) →
  (deref (heap s) (with_view (VReshape n (h * w)) a)
     = Some (np.A2 (map np.flat t)) →
   Q tt (State (<[x := VArr (with_view (VReshape n (h * w)) a)]> (globals s)) (heap s))) →
  wp (flatten x) s Q.
Proof.
  intros Hn Ht G D HQ. unfold flatten.
  apply wp_bind, (wp_global_arr _ a); [done|].
  apply wp_bind, wp_computes, (np_shape0_spec _ (np.A3 t) n); [done | cbn; f_equal; apply Ht |].
  apply wp_bind, (wp_load _ (np.A3 t)); [done|].
  apply wp_bind, (wp_lift _ (h * w)%nat); [by eapply prod_image_shape_images|].
  apply wp_bind, wp_computes.
  eapply (np_view_spec _ _ (np.A3 t)); [done | cbn; by apply reshape_images |].
  intros Dv. apply wp_assign. by apply HQ.
Qed.

Lemma map_nd_normalize (t : list (list (list Z))) :
  np.map_nd (λ t, t / 255) (np.map_nd (λ t, t) (pixels t)) = np.A3 (normalized t).
Proof.
  unfold pixels, normalized. cbn. f_equal.
  rewrite !map_map. apply map_ext. intros im.
  rewrite !map_map. apply map_ext. intros r.
  rewrite !map_map. done.
Qed.

Ltac fresh_facts :=
  repeat match goal with
  | H : <[_ := _]> _ !! _ = None |- _ => apply lookup_insert_None in H as [H ?]
  end.

Ltac lookups :=
  cbn [globals heap];
  repeat first [rewrite lookup_insert_eq | rewrite lookup_insert_ne by done].

Lemma load_and_normalize w s (Q : unit → state → Prop) :
  (∀ s1 l1 l2,
     l1 ≠ l2 →
     globals s1 !! "x_train" = Some (VArr (whole l1)) →
     globals s1 !! "x_test" = Some (VArr (whole l2)) →
     heap s1 !! l1 = Some (np.A3 (normalized (mnist_x_train w))) →
     heap s1 !! l2 = Some (np.A3 (normalized (mnist_x_test w))) →
     Q tt s1) →
  wp (cell_load_data w;; cell_normalize) s Q.
Proof.
  intros HQ. apply wp_bind. unfold cell_load_data.
  apply wp_bind, wp_alloc. intros a1 F1.
  apply wp_bind, wp_alloc. intros a2 F2.
  apply wp_bind, wp_alloc. intros a3 F3.
  apply wp_bind, wp_alloc. intros a4 F4.
  cbn [globals heap] in *. fresh_facts.
  do 3 apply wp_bind, wp_assign. apply wp_assign.
  unfold cell_normalize.
  apply wp_bind.
  apply (astype_spec _ (whole a1) (pixels (mnist_x_train w))); [by lookups | rewrite deref_whole; by lookups |].
  intros l1 G1. cbn [globals heap] in *. fresh_facts.
  apply wp_bind.
  apply (astype_spec _ (whole a3) (pixels (mnist_x_test w))); [by lookups | rewrite deref_whole; by lookups |].
  intros l2 G2. cbn [globals heap] in *. fresh_facts.
  apply wp_bind.
  eapply (idiv255_spec _ l1); [by lookups | by lookups |].
  eapply (idiv255_spec _ l2); [by lookups | by lookups |].
  apply (HQ _ l1 l2); try done.
  - by lookups.
  - by lookups.
  - lookups. by rewrite map_nd_normalize.
  - lookups. by rewrite map_nd_normalize.
Qed.

(** Claim C7.  When the loaded images have shape [(n, h, w)] (training)
    and [(n', h', w')] (test), with at least one image each and pixels from
    0 to 255: after the normalisation cell every pixel of [x_train] and of
    [x_test] lies in [[0, 1]]; after the flattening cell [x_train] has shape
    [(n, h * w)], its entry [(i, r * w + c)] is the pixel [(i, r, c)] of the
    normalised image [i], and likewise for [x_test]. *)
Theorem preprocessing_normalizes_and_flattens w s n h wd n' h' wd' :
  (0 < n)%nat → (0 < n')%nat →
  images_shape n h wd (mnist_x_train w) →
  images_shape n' h' wd' (mnist_x_test w) →
  pixels_in_range (mnist_x_train w) →
  pixels_in_range (mnist_x_test w) →
  ∃ s1 s2 m mt,
    (cell_load_data w;; cell_normalize) s = Some (tt, s1) ∧
    cell_flatten s1 = Some (tt, s2) ∧
    holds s1 "x_train" (np.A3 (normalized (mnist_x_train w))) ∧
    holds s1 "x_test" (np.A3 (normalized (mnist_x_test w))) ∧
    Forall (Forall (Forall in_unit_interval)) (normalized (mnist_x_train w)) ∧
    Forall (Forall (Forall in_unit_interval)) (normalized (mnist_x_test w)) ∧
    holds s2 "x_train" (np.A2 m) ∧
    holds s2 "x_test" (np.A2 mt) ∧
    has_shape n (h * wd) m ∧
    has_shape n' (h' * wd') mt ∧
    (∀ i r c, (i < n)%nat → (r < h)%nat → (c < wd)%nat →
       entry m i (r * wd + c) = pixel (normalized (mnist_x_train w)) i r c) ∧
    (∀ i r c, (i < n')%nat → (r < h')%nat → (c < wd')%nat →
       entry mt i (r * wd' + c) = pixel (normalized (mnist_x_test w)) i r c) ∧
    Forall (Forall in_unit_interval) m ∧
    Forall (Forall in_unit_interval) mt.
Proof.
  intros Hn Hn' Hs Hs' Hr Hr'.
  pose proof (normalized_shape _ _ _ _ Hs) as Ht.
  pose proof (normalized_shape _ _ _ _ Hs') as Ht'.
  pose proof (normalized_range _ Hr) as Hu.
  pose proof (normalized_range _ Hr') as Hu'.
  destruct (load_and_normalize w s (λ _ s1,
      ∃ l1 l2, l1 ≠ l2 ∧
        globals s1 !! "x_train" = Some (VArr (whole l1)) ∧
        globals s1 !! "x_test" = Some (VArr (whole l2)) ∧
        heap s1 !! l1 = Some (np.A3 (normalized (mnist_x_train w))) ∧
        heap s1 !! l2 = Some (np.A3 (normalized (mnist_x_test w)))))
    as ([] & s1 & Hrun1 & l1 & l2 & Hne & G1 & G2 & D1 & D2).
  { intros s1 l1 l2 ? ? ? ? ?. by exists l1, l2. }
  assert (wp cell_flatten s1 (λ _ s2,
      holds s2 "x_train" (np.A2 (map np.flat (normalized (mnist_x_train w)))) ∧
      holds s2 "x_test" (np.A2 (map np.flat (normalized (mnist_x_test w))))))
    as ([] & s2 & Hrun2 & H1 & H2).
  { unfold cell_flatten. apply wp_bind.
    eapply (flatten_spec _ (whole l1) _ n h wd); [done | done | done | done |].
    intros Dv1.
    eapply (flatten_spec _ (whole l2) _ n' h' wd'); [done | done | by lookups | done |].
    intros Dv2. cbn [globals heap] in *. split.
    - eexists. split; [by lookups | done].
    - eexists. split; [by lookups | done]. }
  exists s1, s2, (map np.flat (normalized (mnist_x_train w))),
    (map np.flat (normalized (mnist_x_test w))).
  split_and!; try done.
  - by exists (whole l1).
  - by exists (whole l2).
  - by apply flat_shape.
  - by apply flat_shape.
  - intros i r c ? ? ?. by apply (flat_entry n h wd).
  - intros i r c ? ? ?. by apply (flat_entry n' h' wd').
  - by apply flat_range.
  - by apply flat_range.
Qed.

(** ** Labels and weights of one dimension *)

Lemma vector_tabulate n (v : list R) :
  length v = n → v = map (λ i, nth i v 0) (seq 0 n).
Proof. intros <-. apply list_tabulate. Qed.

Lemma matvec_tabulate r n F (v : list R) :
  length v = n →
  map (λ u, np.dotp u v) (tabulate r n F)
  = map (λ i, sum_upto n (λ k, F i k * nth k v 0)) (seq 0 r).
Proof.
  intros Hv. unfold tabulate. rewrite map_map. apply map_ext. intros i.
  rewrite (vector_tabulate n v Hv) at 1. apply dotp_map_seq.
Qed.

Lemma rows_have_length n (a : np.matrix) m :
  np.rect n a → m = n → forallb (λ r, Nat.eqb (length r) m) a = true.
Proof.
  intros Ha ->. apply forallb_forall. intros x Hx. apply Nat.eqb_eq.
  unfold np.rect in Ha. rewrite Forall_forall in Ha. by apply Ha, list_elem_of_In.
Qed.

Lemma dot_matrix_vector n (a : np.matrix) (v : list R) :
  np.rect n a → length v = n →
  np.dot (np.A2 a) (np.A1 v) = Some (np.A1 (map (λ u, np.dotp u v) a)).
Proof. intros Ha Hv. cbn. by rewrite (rows_have_length n). Qed.

Lemma broadcast_vectors f (u v : list R) :
  length u = length v →
  np.broadcast f (np.A1 u) (np.A1 v) = Some (np.A1 (zip_with f u v)).
Proof. intros H. cbn. by rewrite zip1_same. Qed.

Lemma mean_vector n (F : nat → R) :
  (0 < n)%nat →
  np.mean (np.A1 (map F (seq 0 n))) = Some (1 / INR n * sum_upto n F).
Proof.
  intros Hn. unfold np.mean. cbn [np.ravel].
  destruct n as [|n]; [lia|].
  remember (map F (seq 0 (S n))) as l eqn:El.
  assert (Hlen : length l = S n) by (by rewrite El, length_map, length_seq).
  assert (Hsum : np.sum l = sum_upto (S n) F) by (by rewrite El, sum_map_seq).
  destruct l as [|x l]; [done|].
  rewrite Hlen, Hsum. f_equal. unfold Rdiv. lra.
Qed.

Lemma learn_spec_1d (X : np.matrix) (y W : list R) (n f : nat) (eta : R)
    xr yr wr s (Q : ndref → state → Prop) :
  (0 < n)%nat → (0 < f)%nat →
  has_shape n f X → length y = n → length W = f →
  deref (heap s) xr = Some (np.A2 X) →
  deref (heap s) yr = Some (np.A1 y) →
  deref (heap s) wr = Some (np.A1 W) →
  (∀ r s', extends s s' → heap s !! buf r = None →
     deref (heap s') r = Some (np.A1 (gradient_step_1d X y W eta)) → Q r s') →
  computes (learn xr yr wr eta) s Q.
Proof.
  intros Hn Hf HX Hy HW Hxr Hyr Hwr HQ.
  pose proof (matrix_tabulate _ _ _ HX) as EX.
  pose proof (vector_tabulate _ _ Hy) as Ey.
  pose proof (vector_tabulate _ _ HW) as EW.
  set (P := λ i, sum_upto f (λ t, entry X i t * nth t W 0)).
  set (D := λ i, P i - nth i y 0).
  set (G := λ j, sum_upto n (λ i, entry X i j * D i)).
  unfold learn.
  apply computes_bind, (np_shape0_spec _ (np.A2 X) n); [done | cbn; f_equal; apply HX |].
  apply computes_bind. unfold linear_model.
  apply (np_dot_spec _ _ (np.A2 X) (np.A1 W) (np.A1 (map P (seq 0 n)))); [done | done | |].
  { rewrite (dot_matrix_vector f) by (by destruct HX).
    rewrite EX at 1. by rewrite matvec_tabulate. }
  intros pr s1 E1 _ Hpr. keep E1.
  apply computes_bind. rewrite decide_False by lia. apply computes_ret.
  apply computes_bind.
  apply (np_view_spec _ _ (np.A2 X) (np.A2 (tabulate f n (λ j i, entry X i j)))); [done | |].
  { cbn. rewrite EX at 1. by rewrite transpose_tabulate. }
  intros Hxt.
  apply computes_bind.
  apply (np_binop_spec _ _ _ (np.A1 (map P (seq 0 n))) (np.A1 y) (np.A1 (map D (seq 0 n)))); [done | done | |].
  { rewrite broadcast_vectors by (by rewrite length_map, length_seq).
    rewrite Ey at 1. by rewrite zip_with_map_seq. }
  intros dr s2 E2 _ Hdr. keep E2.
  apply computes_bind.
  apply (np_dot_spec _ _ _ _ (np.A1 (map G (seq 0 f))) _ _ Hxt Hdr).
  { rewrite (dot_matrix_vector n) by (apply tabulate_rect || by rewrite length_map, length_seq).
    rewrite matvec_tabulate by (by rewrite length_map, length_seq).
    do 2 f_equal. apply map_seq_ext. intros j Hj. apply sum_upto_ext. intros i Hi.
    unfold G. by rewrite nth_map_seq. }
  intros gr s3 E3 _ Hgr. keep E3.
  apply computes_bind, (np_map_spec _ _ _ _ _ Hgr).
  intros cr s4 E4 _ Hcr. keep E4.
  apply computes_bind, (np_map_spec _ _ _ _ _ Hcr).
  intros sr s5 E5 _ Hsr. keep E5.
  apply computes_bind.
  eapply (np_binop_spec _ _ _ _ _ _ _ _ Hwr Hsr).
  { cbn [np.map_nd]. rewrite !map_map.
    rewrite broadcast_vectors by (by rewrite length_map, length_seq).
    rewrite EW at 1. by rewrite zip_with_map_seq. }
  intros nr s6 E6 Fnr Hnr.
  apply computes_ret.
  assert (E : extends s s5).
  { repeat (eapply extends_trans; [|eassumption]). apply extends_refl. }
  apply HQ.
  { by eapply extends_trans. }
  { by eapply fresh_extends. }
  rewrite Hnr. do 2 f_equal. unfold gradient_step_1d.
  destruct HX as [-> _]. rewrite HW. apply map_seq_ext. intros j Hj. cbn beta.
  unfold G, D, P, prediction_1d. rewrite HW. lra.
Qed.

Lemma evaluate_spec_1d (X : np.matrix) (y W : list R) (n f : nat) xr yr wr s
    (Q : R → state → Prop) :
  (0 < n)%nat → (0 < f)%nat →
  has_shape n f X → length y = n → length W = f →
  deref (heap s) xr = Some (np.A2 X) →
  deref (heap s) yr = Some (np.A1 y) →
  deref (heap s) wr = Some (np.A1 W) →
  (∀ s', extends s s' → Q (mean_squared_error_1d X y W) s') →
  computes (evaluate wr xr yr) s Q.
Proof.
  intros Hn Hf HX Hy HW Hxr Hyr Hwr HQ.
  pose proof (matrix_tabulate _ _ _ HX) as EX.
  pose proof (vector_tabulate _ _ Hy) as Ey.
  pose proof (vector_tabulate _ _ HW) as EW.
  set (P := λ i, sum_upto f (λ t, entry X i t * nth t W 0)).
  set (D := λ i, nth i y 0 - P i).
  unfold evaluate.
  apply computes_bind. unfold linear_model.
  apply (np_dot_spec _ _ (np.A2 X) (np.A1 W) (np.A1 (map P (seq 0 n)))); [done | done | |].
  { rewrite (dot_matrix_vector f) by (by destruct HX).
    rewrite EX at 1. by rewrite matvec_tabulate. }
  intros pr s1 E1 _ Hpr. keep E1.
  apply computes_bind.
  apply (np_binop_spec _ _ _ (np.A1 y) (np.A1 (map P (seq 0 n))) (np.A1 (map D (seq 0 n)))); [done | done | |].
  { rewrite broadcast_vectors by (by rewrite length_map, length_seq).
    rewrite Ey at 1. by rewrite zip_with_map_seq. }
  intros dr s2 E2 _ Hdr. keep E2.
  apply computes_bind, (np_map_spec _ _ _ _ _ Hdr).
  intros qr s3 E3 _ Hqr.
  eapply np_mean_spec; [exact Hqr | |].
  { cbn [np.map_nd]. rewrite map_map. by apply mean_vector. }
  replace (1 / INR n * _) with (mean_squared_error_1d X y W).
  { apply HQ. repeat (eapply extends_trans; [|eassumption]). apply extends_refl. }
  unfold mean_squared_error_1d. destruct HX as [-> _]. f_equal.
  apply sum_upto_ext. intros i Hi. unfold D, P, prediction_1d. by rewrite HW.
Qed.

(** Claim C7 for two training images and one test image of 2 by 2 pixels. *)
Lemma preprocessing_normalizes_and_flattens_witness :
  ∃ s1 s2 m mt,
    (cell_load_data example_mnist;; cell_normalize) fresh_kernel = Some (tt, s1) ∧
    cell_flatten s1 = Some (tt, s2) ∧
    holds s1 "x_train" (np.A3 (normalized (mnist_x_train example_mnist))) ∧
    holds s1 "x_test" (np.A3 (normalized (mnist_x_test example_mnist))) ∧
    Forall (Forall (Forall in_unit_interval)) (normalized (mnist_x_train example_mnist)) ∧
    Forall (Forall (Forall in_unit_interval)) (normalized (mnist_x_test example_mnist)) ∧
    holds s2 "x_train" (np.A2 m) ∧
    holds s2 "x_test" (np.A2 mt) ∧
    has_shape 2 (2 * 2) m ∧
    has_shape 1 (2 * 2) mt ∧
    (∀ i r c, (i < 2)%nat → (r < 2)%nat → (c < 2)%nat →
       entry m i (r * 2 + c) = pixel (normalized (mnist_x_train example_mnist)) i r c) ∧
    (∀ i r c, (i < 1)%nat → (r < 2)%nat → (c < 2)%nat →
       entry mt i (r * 2 + c) = pixel (normalized (mnist_x_test example_mnist)) i r c) ∧
    Forall (Forall in_unit_interval) m ∧
    Forall (Forall in_unit_interval) mt.
Proof.
  apply (preprocessing_normalizes_and_flattens example_mnist fresh_kernel 2 2 2 1 2 2).
  - lia.
  - lia.
  - split; [reflexivity|]. repeat constructor.
  - split; [reflexivity|]. repeat constructor.
  - repeat constructor; cbn; lia.
  - repeat constructor; cbn; lia.
Defined.

(** Claim C2, as amended.  For a batch [X] of [n >= 1] rows and [f >= 1]
    columns, a learning rate [eta], and labels and weights in one layout,
    [learn(X, y, W, eta)] returns an array whose contents are exactly
    [W - eta * (2/n) * X^T (X W - y)]: for labels and weights given as
    matrices of shapes [(n, k)] and [(f, k)] (columns when [k = 1], as in
    the training cell), and for labels and weights given as arrays of one
    dimension of lengths [n] and [f]. *)
Theorem learn_is_gradient_step (X : np.matrix) (n f : nat) (eta : R)
    (xr : ndref) (s : state) :
  (0 < n)%nat → (0 < f)%nat → has_shape n f X →
  deref (heap s) xr = Some (np.A2 X) →
  (∀ k (y W : np.matrix) yr wr,
     has_shape n k y → has_shape f k W →
     deref (heap s) yr = Some (np.A2 y) →
     deref (heap s) wr = Some (np.A2 W) →
     ∃ r s', learn xr yr wr eta s = Some (r, s') ∧
             deref (heap s') r = Some (np.A2 (gradient_step X y W eta))) ∧
  (∀ (y W : list R) yr wr,
     length y = n → length W = f →
     deref (heap s) yr = Some (np.A1 y) →
     deref (heap s) wr = Some (np.A1 W) →
     ∃ r s', learn xr yr wr eta s = Some (r, s') ∧
             deref (heap s') r = Some (np.A1 (gradient_step_1d X y W eta))).
Proof.
  intros Hn Hf HX Dx. split.
  - intros k y W yr wr Hy HW Dy Dw.
    destruct (learn_spec X y W n f k eta xr yr wr s
                (λ r s', deref (heap s') r = Some (np.A2 (gradient_step X y W eta))))
      as (r & s' & Hrun & _ & Hr); try done.
    by exists r, s'.
  - intros y W yr wr Hy HW Dy Dw.
    destruct (learn_spec_1d X y W n f eta xr yr wr s
                (λ r s', deref (heap s') r = Some (np.A1 (gradient_step_1d X y W eta))))
      as (r & s' & Hrun & _ & Hr); try done.
    by exists r, s'.
Qed.

(** Claim C2, as amended, at [X = [[2]]], [y = 1], [W = 0], [eta = 1/2],
    in both layouts. *)
Lemma learn_is_gradient_step_witness :
  (∃ r s', learn (whole 1%positive) (whole 2%positive) (whole 3%positive) (1 / 2)
             example_arrays = Some (r, s') ∧
           deref (heap s') r = Some (np.A2 (gradient_step [[2]] [[1]] [[0]] (1 / 2)))) ∧
  (∃ r s', learn (whole 1%positive) (whole 4%positive) (whole 5%positive) (1 / 2)
             example_arrays = Some (r, s') ∧
           deref (heap s') r = Some (np.A1 (gradient_step_1d [[2]] [1] [0] (1 / 2)))).
Proof.
  destruct (learn_is_gradient_step [[2]] 1 1 (1 / 2) (whole 1%positive) example_arrays)
    as [H2 H1].
  - lia.
  - lia.
  - split; [reflexivity | repeat constructor].
  - reflexivity.
  - split.
    + apply (H2 1%nat [[1]] [[0]]).
      * split; [reflexivity | repeat constructor].
      * split; [reflexivity | repeat constructor].
      * reflexivity.
      * reflexivity.
    + apply (H1 [1] [0]); reflexivity.
Defined.

(** Claim C5, as amended.  For a batch [X] of [n >= 1] rows and [f >= 1]
    columns and labels and weights in one layout, [evaluate(W, X, y)]
    returns [(1/n) * sum_i (y_i - (X W)_i)^2]: for labels and weights given
    as columns of shapes [(n, 1)] and [(f, 1)], as in the training cell, and
    for labels and weights given as arrays of one dimension of lengths [n]
    and [f]. *)
Theorem evaluate_is_mean_squared_error (X : np.matrix) (n f : nat)
    (xr : ndref) (s : state) :
  (0 < n)%nat → (0 < f)%nat → has_shape n f X →
  deref (heap s) xr = Some (np.A2 X) →
  (∀ (y W : np.matrix) yr wr,
     has_shape n 1 y → has_shape f 1 W →
     deref (heap s) yr = Some (np.A2 y) →
     deref (heap s) wr = Some (np.A2 W) →
     ∃ s', evaluate wr xr yr s = Some (mean_squared_error X y W, s')) ∧
  (∀ (y W : list R) yr wr,
     length y = n → length W = f →
     deref (heap s) yr = Some (np.A1 y) →
     deref (heap s) wr = Some (np.A1 W) →
     ∃ s', evaluate wr xr yr s = Some (mean_squared_error_1d X y W, s')).
Proof.
  intros Hn Hf HX Dx. split.
  - intros y W yr wr Hy HW Dy Dw.
    destruct (evaluate_spec X y W n f xr yr wr s
                (λ r s', r = mean_squared_error X y W))
      as (r & s' & Hrun & _ & ->); try done.
    by exists s'.
  - intros y W yr wr Hy HW Dy Dw.
    destruct (evaluate_spec_1d X y W n f xr yr wr s
                (λ r s', r = mean_squared_error_1d X y W))
      as (r & s' & Hrun & _ & ->); try done.
    by exists s'.
Qed.

(** Claim C5, as amended, at [X = [[2]]], [y = 1], [W = 0], in both
    layouts. *)
Lemma evaluate_is_mean_squared_error_witness :
  (∃ s', evaluate (whole 3%positive) (whole 1%positive) (whole 2%positive)
           example_arrays = Some (mean_squared_error [[2]] [[1]] [[0]], s')) ∧
  (∃ s', evaluate (whole 5%positive) (whole 1%positive) (whole 4%positive)
           example_arrays = Some (mean_squared_error_1d [[2]] [1] [0], s')).
Proof.
  destruct (evaluate_is_mean_squared_error [[2]] 1 1 (whole 1%positive) example_arrays)
    as [H2 H1].
  - lia.
  - lia.
  - split; [reflexivity | repeat constructor].
  - reflexivity.
  - split.
    + apply (H2 [[1]] [[0]]).
      * split; [reflexivity | repeat constructor].
      * split; [reflexivity | repeat constructor].
      * reflexivity.
      * reflexivity.
    + apply (H1 [1] [0]); reflexivity.
Defined.

Lemma ravel_map_nd f a : np.ravel (np.map_nd f a) = map f (np.ravel a).
Proof.
  destruct a as [x|v|m|t]; cbn; try done.
  - unfold np.flat. induction m as [|r m IH]; [done|]. cbn. by rewrite map_app, IH.
  - induction t as [|im t IH]; [done|]. cbn. rewrite map_app, <- IH. f_equal.
    unfold np.flat. clear. induction im as [|r m IH]; [done|]. cbn. by rewrite map_app, IH.
Qed.

(** Claim C6, as amended.  Over the real numbers, that is for the
    formulas of the code evaluated in exact arithmetic: for a matrix [x]
    with at least one column, [softmax(x)] has the shape of [x] and each of
    its rows has positive entries that sum to 1; [1/(1 + exp(-t))] lies
    strictly between 0 and 1 for every real [t], and so does every entry of
    [sigmoid(a)] for an array [a].  (In [float64] the bounds are not strict
    and the sum is 1 only up to rounding.) *)
Theorem softmax_rows_are_distributions (x : ndref) (m : np.matrix) (c : nat)
    (s : state) :
  (0 < c)%nat → np.rect c m → deref (heap s) x = Some (np.A2 m) →
  (∃ r s' z, softmax x s = Some (r, s') ∧
             deref (heap s') r = Some (np.A2 z) ∧
             length z = length m ∧ np.rect c z ∧ Forall distribution z) ∧
  (∀ t, 0 < sigmoid1 t < 1) ∧
  (∀ a v s0, deref (heap s0) a = Some v →
     ∃ r s', sigmoid a s0 = Some (r, s') ∧
             deref (heap s') r = Some (np.map_nd sigmoid1 v) ∧
             Forall (λ t, 0 < t < 1) (np.ravel (np.map_nd sigmoid1 v))).
Proof.
  intros Hc Hm Dx. split_and!.
  - destruct (softmax_spec x m s
                (λ r s', deref (heap s') r = Some (np.A2 (map softmax_row m))))
      as (r & s' & Hrun & _ & Hr); try done.
    exists r, s', (map softmax_row m). split_and!; try done.
    + by rewrite length_map.
    + unfold np.rect in *. rewrite Forall_map. eapply Forall_impl; [exact Hm|].
      intros u Hu. unfold softmax_row. by rewrite !length_map.
    + rewrite Forall_map. eapply Forall_impl; [exact Hm|].
      intros u Hu. apply softmax_row_distribution. intros ->. cbn in Hu. lia.
  - apply sigmoid1_range.
  - intros a v s0 Da.
    destruct (sigmoid_spec a v s0
                (λ r s', deref (heap s') r = Some (np.map_nd sigmoid1 v)))
      as (r & s' & Hrun & _ & Hr); try done.
    exists r, s'. split_and!; try done.
    rewrite ravel_map_nd, Forall_map. apply Forall_forall. intros t _.
    apply sigmoid1_range.
Qed.

(** Claim C6, as amended, at the one-entry matrix [[[2]]], over the real
    numbers. *)
Lemma softmax_rows_are_distributions_witness :
  (∃ r s' z, softmax (whole 1%positive) example_arrays = Some (r, s') ∧
             deref (heap s') r = Some (np.A2 z) ∧
             length z = length [[2]] ∧ np.rect 1 z ∧ Forall distribution z) ∧
  (∀ t, 0 < sigmoid1 t < 1) ∧
  (∀ a v s0, deref (heap s0) a = Some v →
     ∃ r s', sigmoid a s0 = Some (r, s') ∧
             deref (heap s') r = Some (np.map_nd sigmoid1 v) ∧
             Forall (λ t, 0 < t < 1) (np.ravel (np.map_nd sigmoid1 v))).
Proof.
  apply (softmax_rows_are_distributions (whole 1%positive) [[2]] 1 example_arrays).
  - lia.
  - repeat constructor.
  - reflexivity.
Defined.

(** Claim C6 fails as stated: for the matrix of one row and no column,
    [softmax] returns that same matrix, whose row sums to 0. *)
Lemma softmax_row_without_columns :
  ∃ r s', deref (heap no_scores) (whole 1%positive) = Some (np.A2 [[]]) ∧
          softmax (whole 1%positive) no_scores = Some (r, s') ∧
          deref (heap s') r = Some (np.A2 [[]]) ∧
          ¬ distribution [].
Proof.
  destruct (softmax_spec (whole 1%positive) [[]] no_scores
              (λ r s', deref (heap s') r = Some (np.A2 [[]])))
    as (r & s' & Hrun & _ & Hr); try done.
  exists r, s'. split_and!; try done.
  intros [_ H]. cbn in H. lra.
Qed.

Lemma global_arr_bind {B} x a s (f : ndref → M B) :
  globals s !! x = Some (VArr a) → (global_arr x ≫= f) s = f a s.
Proof.
  intros H. unfold global_arr, global, lift, mbind, M_bind, mret, M_ret.
  by rewrite H.
Qed.

(** Claim C10.  The first [classification_model] returns the same result
    (or fails alike) for any two weight arguments [A] and [A']: it fails
    when the global [W] is unbound, and otherwise computes
    [sigmoid(numpy.dot(x, W) + b)] with the global [W]. *)
Theorem classification_model_ignores_A (A A' b x : ndref) (s : state) :
  classification_model A b x s = classification_model A' b x s ∧
  (globals s !! "W" = None → classification_model A b x s = None) ∧
  (∀ W, globals s !! "W" = Some (VArr W) →
     classification_model A b x s
     = (xw ← np_dot x W; z ← np_binop Rplus xw b; sigmoid z) s).
Proof.
  split_and!.
  - reflexivity.
  - intros H. unfold classification_model, global_arr, global, lift, mbind, M_bind.
    by rewrite H.
  - intros W H. unfold classification_model.
    exact (global_arr_bind "W" W s
             (λ W, xw ← np_dot x W; z ← np_binop Rplus xw b; sigmoid z) H).
Qed.

(** ** The dataset notebook *)

Lemma mapM_total {A B} (f : A → option B) (g : A → B) (l : list A) :
  Forall (λ x, f x = Some (g x)) l → mapM f l = Some (map g l).
Proof.
  induction 1 as [|x l Hx _ IH]; [done|].
  cbn. rewrite Hx. cbn. by rewrite IH.
Qed.

Lemma filter_by_mask {A} (b : A → bool) (l : list A) :
  (filter (λ rb, rb.2 = true) (zip l (map b l))).*1 = filter (λ r, b r = true) l.
Proof.
  induction l as [|x l IH]; [done|].
  cbn [map zip zip_with]. rewrite !filter_cons. cbn [snd].
  destruct (decide (b x = true)); cbn; by rewrite IH.
Qed.

Lemma df2_rows (df : pd.DataFrame) :
  numeric_column df "OverallCond" →
  df2 df = Some (pd.Frame (pd.columns df)
                   (filter (λ r, rated_above_5 df r = true) (pd.rows df))).
Proof.
  intros (p & Hp & Hall). unfold df2, pd.getitem. rewrite Hp. cbn.
  set (c := λ r : Z * list pd.cell, default pd.NaN (r.2 !! p)).
  rewrite (mapM_total _ (λ r, (r.1, c r))); cycle 1.
  { eapply Forall_impl; [exact Hall|]. intros r (x & Hx & _). unfold c. by rewrite Hx. }
  cbn. unfold pd.series_gt.
  set (b := λ r : Z * list pd.cell, rated_above_5 df r).
  rewrite (mapM_total _ (λ ic, (ic.1, default false (pd.gt_cell 5 ic.2)))); cycle 1.
  { rewrite Forall_map. eapply Forall_impl; [exact Hall|].
    intros r (x & Hx & Hne). unfold c. cbn. rewrite Hx. cbn.
    destruct x; cbn; try done; by destruct (Hne s). }
  cbn. unfold pd.getitem_mask.
  rewrite <- !list_fmap_compose.
  rewrite decide_True; cycle 1.
  { apply list_fmap_ext. done. }
  do 2 f_equal.
  transitivity ((filter (λ rb : (Z * list pd.cell) * bool, rb.2 = true)
                   (zip (pd.rows df) (map b (pd.rows df)))).*1).
  - do 3 f_equal. apply Forall_fmap_ext_1. eapply Forall_impl; [exact Hall|].
    intros r (x & Hx & Hne). unfold b, rated_above_5, cell_at, c. cbn.
    rewrite Hp. cbn. rewrite Hx. cbn. destruct x; cbn; try done; by destruct (Hne s).
  - apply filter_by_mask.
Qed.

(** Claim C4.  When [OverallCond] is a column without text, [df2] has the
    columns of [df] and exactly its rows whose rating is greater than 5, in
    the order of [df]; a row rated 5 is not among them. *)
Theorem df2_rows_rated_above_5 (df : pd.DataFrame) :
  numeric_column df "OverallCond" →
  ∃ d, df2 df = Some d ∧
       pd.columns d = pd.columns df ∧
       pd.rows d = filter (λ r, rated_above_5 df r = true) (pd.rows df) ∧
       (∀ r, r ∈ pd.rows d ↔
             r ∈ pd.rows df ∧
             ∃ z, cell_at df "OverallCond" r = Some (pd.Num z) ∧ (5 < z)%Z) ∧
       (∀ r, cell_at df "OverallCond" r = Some (pd.Num 5) → r ∉ pd.rows d).
Proof.
  intros H. eexists. split; [by apply df2_rows|]. cbn.
  assert (Hin : ∀ r, r ∈ filter (λ r, rated_above_5 df r = true) (pd.rows df) ↔
                     r ∈ pd.rows df ∧
                     ∃ z, cell_at df "OverallCond" r = Some (pd.Num z) ∧ (5 < z)%Z).
  { intros r. rewrite list_elem_of_filter. unfold rated_above_5. split.
    - intros [Hr Hin]. split; [done|].
      destruct (cell_at df "OverallCond" r) as [[z| |]|]; try done.
      exists z. split; [done|]. by apply bool_decide_eq_true in Hr.
    - intros [Hin (z & -> & Hz)]. split; [|done]. by apply bool_decide_eq_true. }
  split_and!; try done.
  intros r Hr [_ (z & Hz & Hlt)]%Hin. rewrite Hr in Hz. injection Hz as <-. lia.
Qed.

(** Claim C4 at the example table. *)
Lemma df2_rows_rated_above_5_witness :
  ∃ d, df2 example_df = Some d ∧
       pd.columns d = pd.columns example_df ∧
       pd.rows d = filter (λ r, rated_above_5 example_df r = true) (pd.rows example_df) ∧
       (∀ r, r ∈ pd.rows d ↔
             r ∈ pd.rows example_df ∧
             ∃ z, cell_at example_df "OverallCond" r = Some (pd.Num z) ∧ (5 < z)%Z) ∧
       (∀ r, cell_at example_df "OverallCond" r = Some (pd.Num 5) → r ∉ pd.rows d).
Proof.
  apply (df2_rows_rated_above_5 example_df).
  exists 1%nat. split; [reflexivity|].
  repeat constructor; eexists; (split; [reflexivity|]); discriminate.
Defined.

(** The file in terms of the table of its fields. *)
Lemma slimmed_file_indexed (df : pd.DataFrame) :
  numeric_column df "OverallCond" →
  has_column df "SalePrice" → has_column df "GrLivArea" →
  slimmed_realestate_data df = Some (indexed_file df).
Proof.
  intros Hc (p & Hp & Hprice) (a & Ha & Harea).
  unfold slimmed_realestate_data, slim_df. rewrite (df2_rows df Hc).
  cbn [mbind option_bind]. unfold pd.getitem_cols. cbn [pd.columns pd.rows].
  rewrite (mapM_Some_2 _ _ [p; a]) by (by repeat constructor).
  cbn [mbind option_bind].
  set (keep := filter (λ r, rated_above_5 df r = true) (pd.rows df)).
  rewrite (mapM_total _ (λ r, (r.1, [default pd.NaN (cell_at df "SalePrice" r);
                                     default pd.NaN (cell_at df "GrLivArea" r)]))); cycle 1.
  { apply Forall_forall. intros r Hr.
    apply list_elem_of_filter in Hr as [_ Hr].
    rewrite Forall_forall in Hprice, Harea.
    destruct (Hprice r Hr) as [x Hx]. destruct (Harea r Hr) as [y Hy].
    unfold cell_at. rewrite Hp, Ha. cbn. rewrite Hx, Hy. done. }
  cbn [mbind option_bind fmap option_fmap option_map].
  unfold pd.to_csv, indexed_file, pd.csv_table. cbn [pd.columns pd.rows].
  rewrite map_map. by do 2 f_equal.
Qed.

Lemma app_empty_r (s : string) : s +:+ "" = s.
Proof.
  induction s as [|c s IH]; [done|].
  change (String c (s +:+ "") = String c s). by rewrite IH.
Qed.

Lemma app_assoc' (a b c : string) : (a +:+ b) +:+ c = a +:+ (b +:+ c).
Proof.
  induction a as [|x a IH]; [done|].
  change (String x ((a +:+ b) +:+ c) = String x (a +:+ (b +:+ c))). by rewrite IH.
Qed.

Lemma concat_lines (x : string) (xs : list string) :
  String.concat "" (x :: xs) = x +:+ String.concat "" xs.
Proof. destruct xs; [symmetry; apply app_empty_r | done]. Qed.

Lemma integer_column_has_column df name : integer_column df name → has_column df name.
Proof.
  intros (p & Hp & H). exists p. split; [done|].
  eapply Forall_impl; [exact H|]. intros r [z Hz]. by eexists.
Qed.

Lemma indexed_file_integers df :
  integer_column df "SalePrice" → integer_column df "GrLivArea" →
  indexed_file df = integer_file df.
Proof.
  intros (p & Hp & Hprice) (a & Ha & Harea).
  unfold indexed_file, integer_file, pd.csv_text.
  cbn [map]. rewrite concat_lines, app_assoc'.
  change (String.concat "," [""; "SalePrice"; "GrLivArea"]) with ",SalePrice,GrLivArea".
  do 3 f_equal. rewrite map_map.
  apply map_ext_in. intros r Hr%list_elem_of_In%list_elem_of_filter.
  destruct Hr as [_ Hr].
  rewrite Forall_forall in Hprice, Harea.
  destruct (Hprice r Hr) as [x Hx]. destruct (Harea r Hr) as [y Hy].
  unfold integer_at, cell_at. rewrite Hp, Ha. cbn [mbind option_bind].
  rewrite Hx, Hy. cbn. unfold record_line.
  by rewrite !app_assoc'.
Qed.

(** Claim C3, as amended.  When the rating column holds no text and the
    sale price and the living area are columns of integers (no missing
    value and no text in any row of the table), the file written is,
    character by character, the line [,SalePrice,GrLivArea] followed, for
    each row rated above 5 and in the order of the table, by one line with
    the index label of the row, its sale price and its living area in
    decimal, separated by commas. *)
Theorem slimmed_file_has_index_column (df : pd.DataFrame) :
  numeric_column df "OverallCond" →
  integer_column df "SalePrice" → integer_column df "GrLivArea" →
  slimmed_realestate_data df = Some (integer_file df).
Proof.
  intros Hc Hprice Harea.
  rewrite (slimmed_file_indexed df Hc) by (by apply integer_column_has_column).
  f_equal. by apply indexed_file_integers.
Qed.

(** Claim C3, as amended, at the example table. *)
Lemma slimmed_file_has_index_column_witness :
  slimmed_realestate_data example_df = Some (integer_file example_df).
Proof.
  apply (slimmed_file_has_index_column example_df).
  - exists 1%nat. split; [reflexivity|].
    repeat constructor; eexists; (split; [reflexivity|]); discriminate.
  - exists 3%nat. split; [reflexivity|]. repeat constructor; by eexists.
  - exists 2%nat. split; [reflexivity|]. repeat constructor; by eexists.
Defined.

(** Claim C3 fails as stated: for the example table every line of the file
    has three fields, the first being the index label of the row, and the
    file differs from the two-column file of the specification. *)
Lemma slimmed_file_is_not_two_columns :
  slimmed_realestate_data example_df
  = Some ",SalePrice,GrLivArea
1,181500,1262
2,223500,1786
" ∧
  two_column_file example_df
  = "SalePrice,GrLivArea
181500,1262
223500,1786
" ∧
  slimmed_realestate_data example_df ≠ Some (two_column_file example_df).
Proof. split_and!; [by vm_compute | by vm_compute | by vm_compute]. Qed.

(** ** Edge cases of [learn] and [linear_model] *)

Lemma load_run a x s : deref (heap s) a = Some x → load a s = Some (x, s).
Proof. intros H. unfold load, lift. by rewrite H. Qed.

Lemma bind_run {A B} (c : M A) (f : A → M B) s a s' :
  c s = Some (a, s') → (c ≫= f) s = f a s'.
Proof. intros H. unfold mbind, M_bind. by rewrite H. Qed.

Lemma bind_fail {A B} (c : M A) (f : A → M B) s :
  c s = None → (c ≫= f) s = None.
Proof. intros H. unfold mbind, M_bind. by rewrite H. Qed.

Lemma np_shape0_run a x n s :
  deref (heap s) a = Some x → np.shape0 x = Some n → np_shape0 a s = Some (n, s).
Proof.
  intros Ha Hn. unfold np_shape0. rewrite (bind_run _ _ _ _ _ (load_run _ _ _ Ha)).
  unfold lift. by rewrite Hn.
Qed.

(** Property X1.  [learn] fails on a batch without examples: when the
    first dimension of [input_images] is 0, [2./n] divides by zero and no
    weights are returned, whatever the labels, the weights and the learning
    rate. *)
Theorem learn_fails_on_empty_batch (xr yr wr : ndref) (eta : R) (s : state)
    (x : np.ndarray) :
  deref (heap s) xr = Some x → np.shape0 x = Some 0%nat →
  learn xr yr wr eta s = None.
Proof.
  intros Hx H0. unfold learn.
  rewrite (bind_run _ _ _ _ _ (np_shape0_run _ _ _ _ Hx H0)).
  destruct (linear_model wr xr s) as [[lp s1]|] eqn:E.
  - rewrite (bind_run _ _ _ _ _ E). by apply bind_fail.
  - by apply bind_fail.
Qed.

(** Property X1 at the empty matrix. *)
Lemma learn_fails_on_empty_batch_witness :
  learn (whole 1%positive) (whole 1%positive) (whole 1%positive) 1 empty_batch = None.
Proof.
  apply (learn_fails_on_empty_batch _ _ _ _ _ (np.A2 [])); reflexivity.
Defined.

(** Property X2.  [linear_model] fails when the weights do not fit the
    images: for a non-empty matrix of images with [f] columns and a matrix
    of weights whose number of rows is not [f], [numpy.dot] raises and no
    prediction is returned. *)
Theorem linear_model_fails_on_mismatch (W x : ndref) (s : state)
    (X Wm : np.matrix) (f : nat) :
  deref (heap s) x = Some (np.A2 X) → deref (heap s) W = Some (np.A2 Wm) →
  X ≠ [] → np.rect f X → length Wm ≠ f →
  linear_model W x s = None.
Proof.
  intros Hx HW Hne HX Hf. unfold linear_model, np_dot.
  rewrite (bind_run _ _ _ _ _ (load_run _ _ _ Hx)).
  rewrite (bind_run _ _ _ _ _ (load_run _ _ _ HW)).
  apply bind_fail. unfold lift. cbn.
  destruct X as [|u X]; [done|]. cbn.
  inversion HX as [|? ? Hu _]; subst.
  destruct (Nat.eqb_spec (length u) (length Wm)); [congruence | done].
Qed.

(** Property X2 for one image of one feature and weights for two. *)
Lemma linear_model_fails_on_mismatch_witness :
  linear_model (whole 2%positive) (whole 1%positive) mismatched = None.
Proof.
  apply (linear_model_fails_on_mismatch _ _ _ [[2]] [[1]; [1]] 1).
  - reflexivity.
  - reflexivity.
  - discriminate.
  - repeat constructor.
  - cbn. lia.
Defined.

(** ** The loss and its gradient *)

Lemma sum_upto_zero n (F : nat → R) :
  (∀ i, (i < n)%nat → F i = 0) → sum_upto n F = 0.
Proof.
  induction n as [|n IH]; intros H; [done|].
  cbn. rewrite IH by (intros; apply H; lia). rewrite H by lia. lra.
Qed.

Lemma sum_upto_nonneg n (F : nat → R) :
  (∀ i, (i < n)%nat → 0 <= F i) → 0 <= sum_upto n F.
Proof.
  induction n as [|n IH]; intros H; cbn; [lra|].
  pose proof (IH (λ i Hi, H i ltac:(lia))). pose proof (H n ltac:(lia)). lra.
Qed.

Lemma sum_upto_zero_inv n (F : nat → R) :
  (∀ i, (i < n)%nat → 0 <= F i) → sum_upto n F = 0 →
  ∀ i, (i < n)%nat → F i = 0.
Proof.
  induction n as [|n IH]; intros H H0 i Hi; [lia|].
  cbn in H0.
  pose proof (sum_upto_nonneg n F (λ i Hi, H i ltac:(lia))).
  pose proof (H n ltac:(lia)).
  destruct (decide (i = n)) as [->|]; [lra|].
  apply IH; [intros; apply H; lia | lra | lia].
Qed.

Lemma mean_squared_error_nonneg (X y W : np.matrix) :
  (0 < length X)%nat → 0 <= mean_squared_error X y W.
Proof.
  intros Hn. unfold mean_squared_error.
  apply Rmult_le_pos.
  - apply Rlt_le, Rdiv_lt_0_compat; [lra | by apply lt_0_INR].
  - apply sum_upto_nonneg. intros i _. apply pow2_ge_0.
Qed.

Lemma mean_squared_error_zero (X y W : np.matrix) :
  (0 < length X)%nat →
  mean_squared_error X y W = 0 ↔
  ∀ i, (i < length X)%nat → prediction X W i 0 = entry y i 0.
Proof.
  intros Hn. unfold mean_squared_error.
  assert (Hpos : 0 < 1 / INR (length X))
    by (apply Rdiv_lt_0_compat; [lra | by apply lt_0_INR]).
  split.
  - intros H i Hi.
    assert (Hs : sum_upto (length X)
                   (λ i, (entry y i 0 - prediction X W i 0) ^ 2) = 0) by nra.
    pose proof (sum_upto_zero_inv _ _ (λ i _, pow2_ge_0 _) Hs i Hi) as Hsq.
    cbn beta in Hsq. nra.
  - intros H. rewrite sum_upto_zero; [lra|].
    intros i Hi. rewrite H by done. lra.
Qed.

(** Property X3.  Over the real numbers: for a batch of [n >= 1] rows and
    [f >= 1] columns with labels and weights as columns, the loss returned
    by [evaluate] is never negative, and it is 0 exactly when the linear
    model predicts every label of the batch.  (In [float64] the square of a
    small residual rounds to 0.) *)
Theorem evaluate_is_zero_only_on_exact_fit (X y W : np.matrix) (n f : nat)
    (xr yr wr : ndref) (s : state) :
  (0 < n)%nat → (0 < f)%nat →
  has_shape n f X → has_shape n 1 y → has_shape f 1 W →
  deref (heap s) xr = Some (np.A2 X) →
  deref (heap s) yr = Some (np.A2 y) →
  deref (heap s) wr = Some (np.A2 W) →
  ∃ v s', evaluate wr xr yr s = Some (v, s') ∧ 0 <= v ∧
          (v = 0 ↔ ∀ i, (i < n)%nat → prediction X W i 0 = entry y i 0).
Proof.
  intros Hn Hf HX Hy HW Dx Dy Dw.
  destruct (evaluate_spec X y W n f xr yr wr s
              (λ r s', r = mean_squared_error X y W))
    as (r & s' & Hrun & _ & ->); try done.
  exists (mean_squared_error X y W), s'. destruct HX as [<- HX].
  split_and!; [done | by apply mean_squared_error_nonneg | by apply mean_squared_error_zero].
Qed.



(** Property X3 at [X = [[2]]], [y = 1], [W = 0]. *)
Lemma evaluate_is_zero_only_on_exact_fit_witness :
  ∃ v s', evaluate (whole 3%positive) (whole 1%positive) (whole 2%positive)
            example_arrays = Some (v, s') ∧ 0 <= v ∧
          (v = 0 ↔ ∀ i, (i < 1)%nat → prediction [[2]] [[0]] i 0 = entry [[1]] i 0).
Proof.
  apply (evaluate_is_zero_only_on_exact_fit [[2]] [[1]] [[0]] 1 1
           (whole 1%positive) (whole 2%positive) (whole 3%positive) example_arrays).
  - lia.
  - lia.
  - split; [reflexivity | repeat constructor].
  - split; [reflexivity | repeat constructor].
  - split; [reflexivity | repeat constructor].
  - reflexivity.
  - reflexivity.
  - reflexivity.
Defined.


Lemma sum_upto_plus n (F G : nat → R) :
  sum_upto n (λ i, F i + G i) = sum_upto n F + sum_upto n G.
Proof. induction n as [|n IH]; cbn; [lra|]. rewrite IH. lra. Qed.

Lemma sum_upto_scal n (F : nat → R) a :
  sum_upto n (λ i, a * F i) = a * sum_upto n F.
Proof. induction n as [|n IH]; cbn; [lra|]. rewrite IH. lra. Qed.

Lemma sum_upto_single n (F : nat → R) j :
  (j < n)%nat →
  sum_upto n (λ k, if decide (k = j) then F k else 0) = F j.
Proof.
  induction n as [|n IH]; intros Hj; [lia|]. cbn.
  destruct (decide (n = j)) as [->|Hne].
  - rewrite sum_upto_zero; [lra|]. intros i Hi. rewrite decide_False by lia. done.
  - rewrite IH by lia. lra.
Qed.

Lemma entry_insert (W : list (list R)) j k t :
  (j < length W)%nat →
  entry (<[j := [t]]> W) k 0 = if decide (k = j) then t else entry W k 0.
Proof.
  intros Hj. unfold entry.
  rewrite (nth_lookup (<[j := [t]]> W)), (nth_lookup W).
  destruct (decide (k = j)) as [->|Hne].
  - by rewrite list_lookup_insert_eq.
  - by rewrite list_lookup_insert_ne.
Qed.

Lemma prediction_insert (X : np.matrix) (W : list (list R)) i j t :
  (j < length W)%nat →
  prediction X (<[j := [t]]> W) i 0
  = prediction X W i 0 + entry X i j * (t - entry W j 0).
Proof.
  intros Hj. unfold prediction. rewrite length_insert.
  rewrite <- (sum_upto_single (length W)
                (λ k, entry X i k * (t - entry W k 0)) j Hj).
  rewrite <- sum_upto_plus. apply sum_upto_ext. intros k Hk.
  rewrite entry_insert by done. destruct (decide (k = j)); lra.
Qed.

Lemma derivable_sum_upto n (F : nat → R → R) (D : nat → R) t0 :
  (∀ i, (i < n)%nat → derivable_pt_lim (F i) t0 (D i)) →
  derivable_pt_lim (λ t, sum_upto n (λ i, F i t)) t0 (sum_upto n D).
Proof.
  induction n as [|n IH]; intros H; cbn.
  - apply (derivable_pt_lim_const 0).
  - apply (derivable_pt_lim_plus (λ t, sum_upto n (λ i, F i t)) (F n)).
    + apply IH. intros i Hi. apply H. lia.
    + apply H. lia.
Qed.

Lemma derivable_square_residual a b w t0 :
  derivable_pt_lim (λ t, (a - b * (t - w)) ^ 2) t0 (2 * (a - b * (t0 - w)) * (- b)).
Proof.
  assert (H1 : derivable_pt_lim (λ t, a - b * (t - w)) t0 (- b)).
  { replace (- b) with (0 - b * (1 - 0)) by lra.
    apply (derivable_pt_lim_minus (fct_cte a) (mult_real_fct b (id - fct_cte w))).
    - apply derivable_pt_lim_const.
    - apply derivable_pt_lim_scal.
      apply derivable_pt_lim_minus; [apply derivable_pt_lim_id | apply derivable_pt_lim_const]. }
  pose proof (derivable_pt_lim_comp (λ t, a - b * (t - w)) (λ u, u ^ 2) t0 _ _
                H1 (derivable_pt_lim_pow _ 2)) as H2.
  cbn [Init.Nat.pred INR] in H2.
  replace (2 * (a - b * (t0 - w)) * - b)
    with ((1 + 1) * (a - b * (t0 - w)) ^ 1 * - b) by (cbn; lra).
  exact H2.
Qed.

Lemma mean_squared_error_derivative (X y : np.matrix) (W : list (list R)) (j : nat) :
  (j < length W)%nat →
  derivable_pt_lim (λ t, mean_squared_error X y (<[j := [t]]> W)) (entry W j 0)
    (2 / INR (length X)
     * sum_upto (length X) (λ i, entry X i j * (prediction X W i 0 - entry y i 0))).
Proof.
  intros Hj.
  set (a := λ i, entry y i 0 - prediction X W i 0).
  set (b := λ i, entry X i j).
  set (w := entry W j 0).
  apply (derivable_pt_lim_ext
           (mult_real_fct (1 / INR (length X))
              (λ t, sum_upto (length X) (λ i, (a i - b i * (t - w)) ^ 2)))).
  { intros t. unfold mult_real_fct, mean_squared_error. f_equal.
    apply sum_upto_ext. intros i Hi. rewrite prediction_insert by done.
    unfold a, b, w. f_equal. lra. }
  replace (2 / INR (length X) * _)
    with (1 / INR (length X)
          * sum_upto (length X) (λ i, 2 * (a i - b i * (w - w)) * (- b i))).
  - apply derivable_pt_lim_scal.
    apply (derivable_sum_upto _ (λ i t, (a i - b i * (t - w)) ^ 2)).
    intros i _. apply derivable_square_residual.
  - assert (E : sum_upto (length X) (λ i, 2 * (a i - b i * (w - w)) * - b i)
                = 2 * sum_upto (length X)
                        (λ i, entry X i j * (prediction X W i 0 - entry y i 0))).
    { rewrite <- sum_upto_scal. apply sum_upto_ext. intros i Hi. unfold a, b. lra. }
    rewrite E. unfold Rdiv. lra.
Qed.

Lemma has_shape_insert f (W : list (list R)) j t :
  has_shape f 1 W → has_shape f 1 (<[j := [t]]> W).
Proof.
  intros [Hl Hr]. split; [by rewrite length_insert|].
  unfold np.rect in *. by apply Forall_insert.
Qed.

(** Property X5.  [learn] descends the loss that [evaluate] computes: for
    labels and weights as columns and every weight index [j], the loss of
    [evaluate] as a function [loss] of the weight [j] alone (the other
    weights, the images and the labels fixed) has a derivative [g] at
    [W[j]], and the weight [j] returned by [learn] is [W[j] - eta * g]. *)
Theorem learn_steps_along_gradient_of_evaluate (X y : np.matrix)
    (W : list (list R)) (n f : nat) (eta : R) (j : nat)
    (xr yr wr : ndref) (s : state) :
  (0 < n)%nat → (0 < f)%nat →
  has_shape n f X → has_shape n 1 y → has_shape f 1 W → (j < f)%nat →
  deref (heap s) xr = Some (np.A2 X) →
  deref (heap s) yr = Some (np.A2 y) →
  deref (heap s) wr = Some (np.A2 W) →
  ∃ (loss : R → R) (g : R) r s' Wn,
    (∀ t s0 xr0 yr0 wr0,
       deref (heap s0) xr0 = Some (np.A2 X) →
       deref (heap s0) yr0 = Some (np.A2 y) →
       deref (heap s0) wr0 = Some (np.A2 (<[j := [t]]> W)) →
       ∃ s0', evaluate wr0 xr0 yr0 s0 = Some (loss t, s0')) ∧
    derivable_pt_lim loss (entry W j 0) g ∧
    learn xr yr wr eta s = Some (r, s') ∧
    deref (heap s') r = Some (np.A2 Wn) ∧
    entry Wn j 0 = entry W j 0 - eta * g.
Proof.
  intros Hn Hf HX Hy HW Hj Dx Dy Dw.
  destruct (learn_spec X y W n f 1 eta xr yr wr s
              (λ r s', deref (heap s') r = Some (np.A2 (gradient_step X y W eta))))
    as (r & s' & Hrun & _ & Hr); try done.
  exists (λ t, mean_squared_error X y (<[j := [t]]> W)),
    (2 / INR (length X)
     * sum_upto (length X) (λ i, entry X i j * (prediction X W i 0 - entry y i 0))),
    r, s', (gradient_step X y W eta).
  split_and!; try done.
  - intros t s0 xr0 yr0 wr0 D1 D2 D3.
    destruct (evaluate_spec X y (<[j := [t]]> W) n f xr0 yr0 wr0 s0
                (λ v s', v = mean_squared_error X y (<[j := [t]]> W)))
      as (v & s0' & Hev & _ & ->); try done.
    + by apply has_shape_insert.
    + by exists s0'.
  - apply mean_squared_error_derivative. destruct HW as [-> _]. done.
  - unfold gradient_step. rewrite (has_shape_ncols f 1 W Hf HW).
    destruct HW as [-> _]. rewrite tabulate_entry by (done || lia). lra.
Qed.

(** Property X5 at [X = [[2]]], [y = 1], [W = 0], [eta = 1]. *)
Lemma learn_steps_along_gradient_of_evaluate_witness :
  ∃ (loss : R → R) (g : R) r s' Wn,
    (∀ t s0 xr0 yr0 wr0,
       deref (heap s0) xr0 = Some (np.A2 [[2]]) →
       deref (heap s0) yr0 = Some (np.A2 [[1]]) →
       deref (heap s0) wr0 = Some (np.A2 (<[0%nat := [t]]> [[0]])) →
       ∃ s0', evaluate wr0 xr0 yr0 s0 = Some (loss t, s0')) ∧
    derivable_pt_lim loss (entry [[0]] 0 0) g ∧
    learn (whole 1%positive) (whole 2%positive) (whole 3%positive) 1
      example_arrays = Some (r, s') ∧
    deref (heap s') r = Some (np.A2 Wn) ∧
    entry Wn 0 0 = entry [[0]] 0 0 - 1 * g.
Proof.
  apply (learn_steps_along_gradient_of_evaluate [[2]] [[1]] [[0]] 1 1 1 0
           (whole 1%positive) (whole 2%positive) (whole 3%positive) example_arrays).
  - lia.
  - lia.
  - split; [reflexivity | repeat constructor].
  - split; [reflexivity | repeat constructor].
  - split; [reflexivity | repeat constructor].
  - lia.
  - reflexivity.
  - reflexivity.
  - reflexivity.
Defined.

(** ** Shape of the sigmoid and of softmax *)

Lemma sigmoid1_increasing t u : t < u → sigmoid1 t < sigmoid1 u.
Proof.
  intros H. unfold sigmoid1.
  pose proof (exp_pos (- t)). pose proof (exp_pos (- u)).
  assert (exp (- u) < exp (- t)) by (apply exp_increasing; lra).
  unfold Rdiv. rewrite !Rmult_1_l. apply Rinv_lt_contravar; [nra | lra].
Qed.

Lemma sigmoid1_order t u : t < u ↔ sigmoid1 t < sigmoid1 u.
Proof.
  split; [apply sigmoid1_increasing|]. intros H.
  destruct (Rtotal_order t u) as [Hlt|[->|Hgt]]; [done | lra |].
  apply sigmoid1_increasing in Hgt. lra.
Qed.

Lemma sigmoid1_symmetric t : sigmoid1 (- t) = 1 - sigmoid1 t.
Proof.
  unfold sigmoid1. rewrite Ropp_involutive, exp_Ropp.
  pose proof (exp_pos t). field. split; lra.
Qed.

Lemma sigmoid1_zero : sigmoid1 0 = 1 / 2.
Proof. unfold sigmoid1. rewrite Ropp_0, exp_0. lra. Qed.

(** Property X6.  [sigmoid] returns an array with as many entries as its
    argument; it keeps the order of the entries (a score is smaller than
    another exactly when its image is), maps opposite scores [t] and [-t] to
    values that sum to 1, and maps the score 0 to 1/2. *)
Theorem sigmoid_is_increasing_and_symmetric (a : ndref) (v : np.ndarray)
    (s : state) :
  deref (heap s) a = Some v →
  ∃ r s' z, sigmoid a s = Some (r, s') ∧ deref (heap s') r = Some z ∧
    length (np.ravel z) = length (np.ravel v) ∧
    ∀ i j t u t' u',
      np.ravel v !! i = Some t → np.ravel v !! j = Some u →
      np.ravel z !! i = Some t' → np.ravel z !! j = Some u' →
      (t < u ↔ t' < u') ∧ (u = - t → u' = 1 - t') ∧ (t = 0 → t' = 1 / 2).
Proof.
  intros Da.
  destruct (sigmoid_spec a v s
              (λ r s', deref (heap s') r = Some (np.map_nd sigmoid1 v)))
    as (r & s' & Hrun & _ & Hr); try done.
  exists r, s', (np.map_nd sigmoid1 v). split_and!; try done.
  - by rewrite ravel_map_nd, length_map.
  - intros i j t u t' u' Hi Hj. rewrite ravel_map_nd, !list_lookup_fmap, Hi, Hj.
    intros [= <-] [= <-]. split_and!.
    + apply sigmoid1_order.
    + intros ->. apply sigmoid1_symmetric.
    + intros ->. apply sigmoid1_zero.
Qed.

Lemma softmax_row_shift (u : list R) c :
  softmax_row (map (λ t, t + c) u) = softmax_row u.
Proof.
  unfold softmax_row. rewrite !map_map.
  assert (E : np.sum (map (λ t, exp (t + c)) u) = exp c * np.sum (map exp u)).
  { unfold np.sum. induction u as [|t u IH]; cbn; [lra|].
    rewrite IH, exp_plus. lra. }
  rewrite E. destruct u as [|t0 u']; [done|].
  assert (Hs : 0 < np.sum (map exp (t0 :: u'))) by (by apply sum_exp_pos).
  apply map_ext. intros t. rewrite exp_plus. pose proof (exp_pos c). field.
  split; lra.
Qed.

(** Property X7.  Adding one constant [c] to every score does not change
    the result of [softmax]. *)
Theorem softmax_ignores_a_shift_of_the_scores (x x' : ndref) (m : np.matrix)
    (c : R) (s : state) :
  deref (heap s) x = Some (np.A2 m) →
  deref (heap s) x' = Some (np.A2 (map (map (λ t, t + c)) m)) →
  ∃ r r' s1 s2 z,
    softmax x s = Some (r, s1) ∧ softmax x' s = Some (r', s2) ∧
    deref (heap s1) r = Some (np.A2 z) ∧ deref (heap s2) r' = Some (np.A2 z).
Proof.
  intros D D'.
  destruct (softmax_spec x m s
              (λ r s', deref (heap s') r = Some (np.A2 (map softmax_row m))))
    as (r & s1 & Hrun & _ & Hr); try done.
  destruct (softmax_spec x' _ s
              (λ r s', deref (heap s') r
                       = Some (np.A2 (map softmax_row (map (map (λ t, t + c)) m)))) D')
    as (r' & s2 & Hrun' & _ & Hr'); try done.
  exists r, r', s1, s2, (map softmax_row m). split_and!; try done.
  rewrite Hr'. do 2 f_equal. rewrite map_map. apply map_ext. intros u.
  apply softmax_row_shift.
Qed.

(** Property X8.  Over the real numbers, [softmax] keeps the order of the
    scores within each row: the result has the rows of its argument, each
    with as many entries, and a score is smaller than another score of its
    row exactly when its probability is smaller.  (In [float64] close
    scores can get equal probabilities.) *)
Theorem softmax_keeps_the_order_of_scores (x : ndref) (m : list (list R))
    (s : state) :
  deref (heap s) x = Some (np.A2 m) →
  ∃ r s' (z : list (list R)), softmax x s = Some (r, s') ∧ deref (heap s') r = Some (np.A2 z) ∧
    length z = length m ∧
    ∀ i (row zrow : list R),
      m !! i = Some row → z !! i = Some zrow →
      length zrow = length row ∧
      ∀ j k t u t' u',
        row !! j = Some t → row !! k = Some u →
        zrow !! j = Some t' → zrow !! k = Some u' →
        (t < u ↔ t' < u').
Proof.
  intros D.
  destruct (softmax_spec x m s
              (λ r s', deref (heap s') r = Some (np.A2 (map softmax_row m))))
    as (r & s' & Hrun & _ & Hr); try done.
  exists r, s', (map softmax_row m). split_and!; try done.
  - by rewrite length_map.
  - intros i row zrow Hrow. rewrite list_lookup_fmap, Hrow. intros [= <-].
    split; [by unfold softmax_row; rewrite !length_map|].
    intros j k t u t' u' Hj Hk. unfold softmax_row.
    rewrite !list_lookup_fmap, Hj, Hk. intros [= <-] [= <-].
    assert (Hs : 0 < np.sum (map exp row)).
    { apply sum_exp_pos. intros ->. done. }
    split.
    + intros Hlt. apply exp_increasing in Hlt.
      unfold Rdiv. apply Rmult_lt_compat_r; [by apply Rinv_0_lt_compat | done].
    + intros Hlt. apply exp_lt_inv.
      unfold Rdiv in Hlt. apply Rmult_lt_reg_r in Hlt; [done | by apply Rinv_0_lt_compat].
Qed.

(** Property X6 at the one-entry matrix [[[2]]]. *)
Lemma sigmoid_is_increasing_and_symmetric_witness :
  ∃ r s' z, sigmoid (whole 1%positive) example_arrays = Some (r, s') ∧
    deref (heap s') r = Some z ∧
    length (np.ravel z) = length (np.ravel (np.A2 [[2]])) ∧
    ∀ i j t u t' u',
      np.ravel (np.A2 [[2]]) !! i = Some t → np.ravel (np.A2 [[2]]) !! j = Some u →
      np.ravel z !! i = Some t' → np.ravel z !! j = Some u' →
      (t < u ↔ t' < u') ∧ (u = - t → u' = 1 - t') ∧ (t = 0 → t' = 1 / 2).
Proof.
  apply (sigmoid_is_increasing_and_symmetric (whole 1%positive) (np.A2 [[2]])
           example_arrays).
  reflexivity.
Defined.

(** Property X7 for the scores [[[1]]] shifted by 1. *)
Lemma softmax_ignores_a_shift_of_the_scores_witness :
  ∃ r r' s1 s2 z,
    softmax (whole 2%positive) example_arrays = Some (r, s1) ∧
    softmax (whole 1%positive) example_arrays = Some (r', s2) ∧
    deref (heap s1) r = Some (np.A2 z) ∧ deref (heap s2) r' = Some (np.A2 z).
Proof.
  apply (softmax_ignores_a_shift_of_the_scores (whole 2%positive) (whole 1%positive)
           [[1]] 1 example_arrays).
  - reflexivity.
  - reflexivity.
Defined.

(** Property X8 at the one-entry matrix [[[2]]]. *)
Lemma softmax_keeps_the_order_of_scores_witness :
  ∃ r s' (z : list (list R)),
    softmax (whole 1%positive) example_arrays = Some (r, s') ∧
    deref (heap s') r = Some (np.A2 z) ∧
    length z = length [[2]] ∧
    ∀ i (row zrow : list R),
      [[2]] !! i = Some row → z !! i = Some zrow →
      length zrow = length row ∧
      ∀ j k t u t' u',
        row !! j = Some t → row !! k = Some u →
        zrow !! j = Some t' → zrow !! k = Some u' →
        (t < u ↔ t' < u').
Proof.
  apply (softmax_keeps_the_order_of_scores (whole 1%positive) [[2]] example_arrays).
  reflexivity.
Defined.

(** ** Layers: [numpy.dot(x, W) + b] followed by an activation *)

Lemma zip2_row f (m : np.matrix) (b : list R) c :
  np.rect c m → length b = c →
  np.zip2 f m [b] = Some (map (λ r, zip_with f r b) m).
Proof.
  intros Hm Hb.
  assert (Hall : mapM (λ r, np.zip1 f r b) m = Some (map (λ r, zip_with f r b) m)).
  { apply mapM_total. eapply Forall_impl; [exact Hm|].
    intros r Hr. apply zip1_same. congruence. }
  unfold np.zip2. destruct (decide (length m = length [b])) as [H1|H1].
  - rewrite <- Hall. by destruct m as [|r [|? ?]].
  - destruct m as [|r [|r' m']]; [done | done | exact Hall].
Qed.

Lemma affine_value (xv Wv : np.matrix) (bv : list R) m f h :
  (0 < f)%nat → has_shape m f xv → has_shape f h Wv → length bv = h →
  np.dot (np.A2 xv) (np.A2 Wv) ≫= (λ d, np.broadcast Rplus d (np.A1 bv))
  = Some (np.A2 (dense (λ t, t) xv Wv bv)).
Proof.
  intros Hf Hx HW Hb.
  rewrite (dot_matrices f) by (by destruct Hx, HW). cbn [mbind option_bind].
  rewrite (matrix_tabulate _ _ _ Hx), (matrix_tabulate _ _ _ HW) at 1.
  rewrite matmul_tabulate by done. cbn [np.broadcast].
  rewrite (zip2_row _ _ _ h) by (apply tabulate_rect || done). cbn.
  do 2 f_equal. unfold dense, tabulate. rewrite map_map.
  destruct Hx as [-> _]. rewrite Hb. apply map_seq_ext. intros i Hi.
  rewrite (vector_tabulate h bv Hb) at 1. rewrite zip_with_map_seq.
  apply map_seq_ext. intros l Hl. unfold prediction. by destruct HW as [-> _].
Qed.

Lemma dense_act act (xv Wv : np.matrix) (bv : list R) :
  np.map_nd act (np.A2 (dense (λ t, t) xv Wv bv)) = np.A2 (dense act xv Wv bv).
Proof. cbn. unfold dense. by rewrite map_tabulate. Qed.

Lemma dense_shape act (xv Wv : np.matrix) (bv : list R) :
  has_shape (length xv) (length bv) (dense act xv Wv bv).
Proof. apply has_shape_tabulate. Qed.

Lemma dense_sigmoid_range (xv Wv : np.matrix) (bv : list R) i c :
  (i < length xv)%nat → (c < length bv)%nat →
  0 < entry (dense sigmoid1 xv Wv bv) i c < 1.
Proof.
  intros Hi Hc. unfold dense. rewrite tabulate_entry by done.
  apply sigmoid1_range.
Qed.

(** One layer, with what follows it. *)
Lemma affine_spec {B} (x W b : ndref) (xv Wv : np.matrix) (bv : list R)
    m f h s (K : ndref → M B) (Q : B → state → Prop) :
  (0 < f)%nat → has_shape m f xv → has_shape f h Wv → length bv = h →
  deref (heap s) x = Some (np.A2 xv) →
  deref (heap s) W = Some (np.A2 Wv) →
  deref (heap s) b = Some (np.A1 bv) →
  (∀ r s', extends s s' →
     deref (heap s') r = Some (np.A2 (dense (λ t, t) xv Wv bv)) →
     computes (K r) s' Q) →
  computes (xw ← np_dot x W; z ← np_binop Rplus xw b; K z) s Q.
Proof.
  intros Hf Hx HW Hb Dx DW Db HK.
  pose proof (affine_value xv Wv bv m f h Hf Hx HW Hb) as Hv.
  destruct (np.dot (np.A2 xv) (np.A2 Wv)) as [d|] eqn:Hd; [|done].
  cbn in Hv.
  apply computes_bind, (np_dot_spec _ _ _ _ d _ _ Dx DW Hd).
  intros r1 s1 E1 _ D1. keep E1.
  apply computes_bind, (np_binop_spec _ _ _ _ _ _ _ _ D1 Db Hv).
  intros r2 s2 E2 _ D2.
  eapply computes_mono; [apply HK; [by eapply extends_trans | done]|].
  intros; done.
Qed.

Lemma softmax_dense_rows (xv Wv : np.matrix) (bv : list R) :
  (0 < length bv)%nat →
  has_shape (length xv) (length bv) (map softmax_row (dense (λ t, t) xv Wv bv)) ∧
  Forall distribution (map softmax_row (dense (λ t, t) xv Wv bv)).
Proof.
  intros Hc. destruct (dense_shape (λ t, t) xv Wv bv) as [Hl Hrect].
  split; [split|].
  - by rewrite length_map.
  - unfold np.rect in *. rewrite Forall_map. eapply Forall_impl; [exact Hrect|].
    intros u Hu. unfold softmax_row. by rewrite !length_map.
  - rewrite Forall_map. eapply Forall_impl; [exact Hrect|].
    intros u Hu. apply softmax_row_distribution. intros ->. cbn in Hu. lia.
Qed.

Lemma classification_model_softmax_spec (Wr br xr : ndref) (xv Wv : np.matrix)
    (bv : list R) m f c s (Q : ndref → state → Prop) :
  (0 < f)%nat → has_shape m f xv → has_shape f c Wv → length bv = c →
  deref (heap s) xr = Some (np.A2 xv) →
  deref (heap s) Wr = Some (np.A2 Wv) →
  deref (heap s) br = Some (np.A1 bv) →
  (∀ r s', extends s s' →
     deref (heap s') r = Some (np.A2 (map softmax_row (dense (λ t, t) xv Wv bv))) →
     Q r s') →
  computes (classification_model_softmax Wr br xr) s Q.
Proof.
  intros Hf Hx HW Hb Dx DW Db HQ. unfold classification_model_softmax.
  apply (affine_spec xr Wr br xv Wv bv m f c); try done.
  intros r1 s1 E1 D1.
  apply (softmax_spec r1 (dense (λ t, t) xv Wv bv) s1); [done|].
  intros r2 s2 E2 D2. apply HQ; [by eapply extends_trans | done].
Qed.

(** Property X9.  The second [classification_model], of [m] images with
    [f >= 1] features, weights of shape [(f, c)] and a bias of [c >= 1]
    entries, returns the matrix of shape [(m, c)] whose row [i] is the
    softmax of the scores [(x W)[i, l] + b[l]]; over the real numbers, each
    row has positive entries that sum to 1. *)
Theorem classification_model_softmax_gives_distributions
    (Wr br xr : ndref) (xv Wv : np.matrix) (bv : list R) (m f c : nat)
    (s : state) :
  (0 < f)%nat → (0 < c)%nat →
  has_shape m f xv → has_shape f c Wv → length bv = c →
  deref (heap s) xr = Some (np.A2 xv) →
  deref (heap s) Wr = Some (np.A2 Wv) →
  deref (heap s) br = Some (np.A1 bv) →
  ∃ r s' z, classification_model_softmax Wr br xr s = Some (r, s') ∧
    deref (heap s') r = Some (np.A2 z) ∧
    z = map softmax_row (dense (λ t, t) xv Wv bv) ∧
    has_shape m c z ∧ Forall distribution z.
Proof.
  intros Hf Hc Hx HW Hb Dx DW Db.
  destruct (classification_model_softmax_spec Wr br xr xv Wv bv m f c s
              (λ r s', deref (heap s') r
                       = Some (np.A2 (map softmax_row (dense (λ t, t) xv Wv bv)))))
    as (r & s' & Hrun & _ & Hr); try done.
  exists r, s', (map softmax_row (dense (λ t, t) xv Wv bv)).
  destruct (softmax_dense_rows xv Wv bv) as [Hs Hd]; [lia|].
  destruct Hx as [Hm _]. rewrite Hm, Hb in Hs. done.
Qed.

(** Property X10.  The first [nonlinear_model], of [m] images with
    [f >= 1] features, a hidden layer of [h >= 1] units and [k] outputs,
    returns the composition of two sigmoid layers,
    [sigmoid(sigmoid(x W1 + b1) W2 + b2)], of shape [(m, k)]; over the real
    numbers, every entry of it lies strictly between 0 and 1. *)
Theorem nonlinear_model_is_two_sigmoid_layers
    (W1 W2 b1 b2 x : ndref) (xv W1v W2v : np.matrix) (b1v b2v : list R)
    (m f h k : nat) (s : state) :
  (0 < f)%nat → (0 < h)%nat →
  has_shape m f xv → has_shape f h W1v → length b1v = h →
  has_shape h k W2v → length b2v = k →
  deref (heap s) x = Some (np.A2 xv) →
  deref (heap s) W1 = Some (np.A2 W1v) →
  deref (heap s) b1 = Some (np.A1 b1v) →
  deref (heap s) W2 = Some (np.A2 W2v) →
  deref (heap s) b2 = Some (np.A1 b2v) →
  ∃ r s' z, nonlinear_model W1 W2 b1 b2 x s = Some (r, s') ∧
    deref (heap s') r = Some (np.A2 z) ∧
    z = dense sigmoid1 (dense sigmoid1 xv W1v b1v) W2v b2v ∧
    has_shape m k z ∧
    ∀ i c, (i < m)%nat → (c < k)%nat → 0 < entry z i c < 1.
Proof.
  intros Hf Hh Hx HW1 Hb1 HW2 Hb2 Dx DW1 Db1 DW2 Db2.
  set (h1 := dense sigmoid1 xv W1v b1v).
  assert (Hh1 : has_shape m h h1).
  { destruct Hx as [<- _]. rewrite <- Hb1. apply dense_shape. }
  destruct (affine_spec x W1 b1 xv W1v b1v m f h s
              (λ s1, h1 ← sigmoid s1; x2 ← np_dot h1 W2;
                     s2 ← np_binop Rplus x2 b2; sigmoid s2)
              (λ r s', deref (heap s') r = Some (np.A2 (dense sigmoid1 h1 W2v b2v))))
    as (r & s' & Hrun & _ & Hr); try done.
  { intros r1 s1 E1 D1. keep E1.
    apply computes_bind, (sigmoid_spec _ _ _ _ D1).
    intros r2 s2 E2 D2. rewrite dense_act in D2. keep E2.
    apply (affine_spec r2 W2 b2 h1 W2v b2v m h k); try done.
    intros r3 s3 E3 D3.
    apply (sigmoid_spec _ _ _ _ D3). intros r4 s4 E4 D4.
    by rewrite dense_act in D4. }
  exists r, s', (dense sigmoid1 h1 W2v b2v).
  assert (Hz : has_shape m k (dense sigmoid1 h1 W2v b2v)).
  { destruct Hh1 as [<- _]. rewrite <- Hb2. apply dense_shape. }
  split_and!; try done.
  intros i c Hi Hc. apply dense_sigmoid_range.
  - by destruct Hh1 as [-> _].
  - by rewrite Hb2.
Qed.

(** Property X11.  The second [nonlinear_model], with hidden layers of
    [h1 >= 1] and [h2 >= 1] units, returns the composition of three sigmoid
    layers, of shape [(m, k)]; over the real numbers, every entry of it
    lies strictly between 0 and 1. *)
Theorem nonlinear_model3_is_three_sigmoid_layers
    (A1 A2 A3 b1 b2 b3 x : ndref) (xv A1v A2v A3v : np.matrix)
    (b1v b2v b3v : list R) (m f h1 h2 k : nat) (s : state) :
  (0 < f)%nat → (0 < h1)%nat → (0 < h2)%nat →
  has_shape m f xv →
  has_shape f h1 A1v → length b1v = h1 →
  has_shape h1 h2 A2v → length b2v = h2 →
  has_shape h2 k A3v → length b3v = k →
  deref (heap s) x = Some (np.A2 xv) →
  deref (heap s) A1 = Some (np.A2 A1v) →
  deref (heap s) b1 = Some (np.A1 b1v) →
  deref (heap s) A2 = Some (np.A2 A2v) →
  deref (heap s) b2 = Some (np.A1 b2v) →
  deref (heap s) A3 = Some (np.A2 A3v) →
  deref (heap s) b3 = Some (np.A1 b3v) →
  ∃ r s' z, nonlinear_model3 A1 A2 A3 b1 b2 b3 x s = Some (r, s') ∧
    deref (heap s') r = Some (np.A2 z) ∧
    z = dense sigmoid1
          (dense sigmoid1 (dense sigmoid1 xv A1v b1v) A2v b2v) A3v b3v ∧
    has_shape m k z ∧
    ∀ i c, (i < m)%nat → (c < k)%nat → 0 < entry z i c < 1.
Proof.
  intros Hf Hh1 Hh2 Hx HA1 Hb1 HA2 Hb2 HA3 Hb3 Dx DA1 Db1 DA2 Db2 DA3 Db3.
  set (l1 := dense sigmoid1 xv A1v b1v).
  set (l2 := dense sigmoid1 l1 A2v b2v).
  assert (Hl1 : has_shape m h1 l1).
  { destruct Hx as [<- _]. rewrite <- Hb1. apply dense_shape. }
  assert (Hl2 : has_shape m h2 l2).
  { destruct Hl1 as [<- _]. rewrite <- Hb2. apply dense_shape. }
  destruct (affine_spec x A1 b1 xv A1v b1v m f h1 s
              (λ s1, h1 ← sigmoid s1; x2 ← np_dot h1 A2;
                     s2 ← np_binop Rplus x2 b2; h2 ← sigmoid s2;
                     x3 ← np_dot h2 A3; s3 ← np_binop Rplus x3 b3; sigmoid s3)
              (λ r s', deref (heap s') r = Some (np.A2 (dense sigmoid1 l2 A3v b3v))))
    as (r & s' & Hrun & _ & Hr); try done.
  { intros r1 s1 E1 D1. keep E1.
    apply computes_bind, (sigmoid_spec _ _ _ _ D1).
    intros r2 s2 E2 D2. rewrite dense_act in D2. keep E2.
    apply (affine_spec r2 A2 b2 l1 A2v b2v m h1 h2); try done.
    intros r3 s3 E3 D3. keep E3.
    apply computes_bind, (sigmoid_spec _ _ _ _ D3).
    intros r4 s4 E4 D4. rewrite dense_act in D4. keep E4.
    apply (affine_spec r4 A3 b3 l2 A3v b3v m h2 k); try done.
    intros r5 s5 E5 D5.
    apply (sigmoid_spec _ _ _ _ D5). intros r6 s6 E6 D6.
    by rewrite dense_act in D6. }
  exists r, s', (dense sigmoid1 l2 A3v b3v).
  assert (Hz : has_shape m k (dense sigmoid1 l2 A3v b3v)).
  { destruct Hl2 as [<- _]. rewrite <- Hb3. apply dense_shape. }
  split_and!; try done.
  intros i c Hi Hc. apply dense_sigmoid_range.
  - by destruct Hl2 as [-> _].
  - by rewrite Hb3.
Qed.

(** Property X9 for one image of one feature and one class. *)
Lemma classification_model_softmax_gives_distributions_witness :
  ∃ r s' z,
    classification_model_softmax (whole 2%positive) (whole 4%positive)
      (whole 1%positive) example_arrays = Some (r, s') ∧
    deref (heap s') r = Some (np.A2 z) ∧
    z = map softmax_row (dense (λ t, t) [[2]] [[1]] [1]) ∧
    has_shape 1 1 z ∧ Forall distribution z.
Proof.
  apply (classification_model_softmax_gives_distributions
           (whole 2%positive) (whole 4%positive) (whole 1%positive)
           [[2]] [[1]] [1] 1 1 1 example_arrays).
  - lia.
  - lia.
  - split; [reflexivity | repeat constructor].
  - split; [reflexivity | repeat constructor].
  - reflexivity.
  - reflexivity.
  - reflexivity.
  - reflexivity.
Defined.

(** Property X10 for one image, one feature, one hidden unit and one
    output. *)
Lemma nonlinear_model_is_two_sigmoid_layers_witness :
  ∃ r s' z,
    nonlinear_model (whole 2%positive) (whole 3%positive) (whole 4%positive)
      (whole 5%positive) (whole 1%positive) example_arrays = Some (r, s') ∧
    deref (heap s') r = Some (np.A2 z) ∧
    z = dense sigmoid1 (dense sigmoid1 [[2]] [[1]] [1]) [[0]] [0] ∧
    has_shape 1 1 z ∧
    ∀ i c, (i < 1)%nat → (c < 1)%nat → 0 < entry z i c < 1.
Proof.
  apply (nonlinear_model_is_two_sigmoid_layers
           (whole 2%positive) (whole 3%positive) (whole 4%positive)
           (whole 5%positive) (whole 1%positive)
           [[2]] [[1]] [[0]] [1] [0] 1 1 1 1 example_arrays).
  - lia.
  - lia.
  - split; [reflexivity | repeat constructor].
  - split; [reflexivity | repeat constructor].
  - reflexivity.
  - split; [reflexivity | repeat constructor].
  - reflexivity.
  - reflexivity.
  - reflexivity.
  - reflexivity.
  - reflexivity.
  - reflexivity.
Defined.

(** Property X11 for one image and layers of one unit. *)
Lemma nonlinear_model3_is_three_sigmoid_layers_witness :
  ∃ r s' z,
    nonlinear_model3 (whole 2%positive) (whole 3%positive) (whole 2%positive)
      (whole 4%positive) (whole 5%positive) (whole 4%positive)
      (whole 1%positive) example_arrays = Some (r, s') ∧
    deref (heap s') r = Some (np.A2 z) ∧
    z = dense sigmoid1
          (dense sigmoid1 (dense sigmoid1 [[2]] [[1]] [1]) [[0]] [0]) [[1]] [1] ∧
    has_shape 1 1 z ∧
    ∀ i c, (i < 1)%nat → (c < 1)%nat → 0 < entry z i c < 1.
Proof.
  apply (nonlinear_model3_is_three_sigmoid_layers
           (whole 2%positive) (whole 3%positive) (whole 2%positive)
           (whole 4%positive) (whole 5%positive) (whole 4%positive)
           (whole 1%positive)
           [[2]] [[1]] [[0]] [[1]] [1] [0] [1] 1 1 1 1 1 example_arrays).
  - lia.
  - lia.
  - lia.
  - split; [reflexivity | repeat constructor].
  - split; [reflexivity | repeat constructor].
  - reflexivity.
  - split; [reflexivity | repeat constructor].
  - reflexivity.
  - split; [reflexivity | repeat constructor].
  - reflexivity.
  - reflexivity.
  - reflexivity.
  - reflexivity.
  - reflexivity.
  - reflexivity.
  - reflexivity.
  - reflexivity.
Defined.

(** ** One-hot labels *)

Lemma IZR_eq_INR (l : Z) (j : nat) : IZR l = INR j ↔ l = Z.of_nat j.
Proof.
  rewrite INR_IZR_INZ. split; [apply eq_IZR | by intros ->].
Qed.

Lemma one_hot_entries (nb : nat) (l : Z) :
  one_hot nb (IZR l)
  = map (λ j, if decide (Z.of_nat j = l) then 1 else 0) (seq 0 nb).
Proof.
  unfold one_hot. apply map_ext. intros j.
  destruct (Req_dec_T (IZR l) (INR j)) as [E|E]; rewrite IZR_eq_INR in E.
  - by rewrite decide_True.
  - by rewrite decide_False.
Qed.

Lemma one_hot_sum (nb : nat) (l : Z) :
  (0 ≤ l < Z.of_nat nb)%Z → np.sum (one_hot nb (IZR l)) = 1.
Proof.
  intros Hl. rewrite one_hot_entries, sum_map_seq.
  etrans; [|apply (sum_upto_single nb (λ _, 1) (Z.to_nat l)); lia].
  apply sum_upto_ext. intros j Hj.
  destruct (decide (Z.of_nat j = l)), (decide (j = Z.to_nat l)); first [done | exfalso; lia].
Qed.

Lemma one_hot_rows (ls : list Z) (nb : nat) :
  Forall (λ l, (0 ≤ l < Z.of_nat nb)%Z) ls →
  encodes ls nb (map (one_hot nb) (map IZR ls)).
Proof.
  intros Hls. split.
  - split; [by rewrite !length_map|].
    unfold np.rect. rewrite !Forall_map. apply Forall_forall. intros l _.
    unfold one_hot. by rewrite length_map, length_seq.
  - intros i l row Hi. rewrite !list_lookup_fmap, Hi. intros [= <-].
    rewrite Forall_forall in Hls.
    assert (Hl : (0 ≤ l < Z.of_nat nb)%Z)
      by (eapply Hls, list_elem_of_lookup_2; done).
    split; [by apply one_hot_sum|].
    intros j Hj. rewrite one_hot_entries.
    by rewrite (nth_map_seq 0 (λ j, if decide (Z.of_nat j = l) then 1 else 0)).
Qed.

Lemma to_categorical_spec (y : ndref) (ls : list Z) (nb : Z) s
    (Q : ndref → state → Prop) :
  Forall (λ l, (0 ≤ l < nb)%Z) ls →
  deref (heap s) y = Some (labels ls) →
  (∀ r s', extends s s' →
     deref (heap s') r
     = Some (np.A2 (map (one_hot (Z.to_nat nb)) (map IZR ls))) → Q r s') →
  computes (to_categorical y nb) s Q.
Proof.
  intros Hls Dy HQ.
  assert (Hcheck : forallb (λ t, if Rlt_dec t (IZR nb) then true else false)
                     (map IZR ls) = true).
  { apply forallb_forall. intros t Ht. apply in_map_iff in Ht as (l & <- & Hl).
    rewrite Forall_forall in Hls. apply list_elem_of_In, Hls in Hl.
    destruct (Rlt_dec (IZR l) (IZR nb)) as [|Hn]; [done|].
    destruct Hn. apply IZR_lt. lia. }
  unfold to_categorical.
  apply computes_bind, (computes_load _ (labels ls)); [done|].
  unfold labels. rewrite Hcheck.
  apply computes_alloc. intros r s' E _ D. by apply HQ.
Qed.

(** Property X12.  When [y_train] and [y_test] hold labels from 0 to 9, the
    one-hot cell returns; [y_train_onehot] and [y_test_onehot] then hold one
    row of 10 entries per label, with 1 at the position of the label and 0
    elsewhere, so that each row sums to 1; the labels themselves are left
    as they were. *)
Theorem cell_onehot_encodes_labels (s : state) (ytr yte : ndref)
    (ls lt : list Z) :
  Forall (λ l, (0 ≤ l < 10)%Z) ls → Forall (λ l, (0 ≤ l < 10)%Z) lt →
  globals s !! "y_train" = Some (VArr ytr) →
  globals s !! "y_test" = Some (VArr yte) →
  deref (heap s) ytr = Some (labels ls) →
  deref (heap s) yte = Some (labels lt) →
  ∃ s' z zt,
    cell_onehot s = Some (tt, s') ∧
    holds s' "y_train_onehot" (np.A2 z) ∧
    holds s' "y_test_onehot" (np.A2 zt) ∧
    holds s' "y_train" (labels ls) ∧
    holds s' "y_test" (labels lt) ∧
    encodes ls 10 z ∧ encodes lt 10 zt.
Proof.
  intros Hls Hlt Gtr Gte Dtr Dte.
  set (z := map (one_hot 10) (map IZR ls)).
  set (zt := map (one_hot 10) (map IZR lt)).
  assert (wp cell_onehot s (λ _ s',
            holds s' "y_train_onehot" (np.A2 z) ∧
            holds s' "y_test_onehot" (np.A2 zt) ∧
            holds s' "y_train" (labels ls) ∧
            holds s' "y_test" (labels lt)))
    as ([] & s' & Hrun & H1 & H2 & H3 & H4).
  { unfold cell_onehot.
    apply wp_bind, wp_assign.
    apply wp_bind, (wp_global_arr _ ytr); [by names|].
    apply wp_bind, (wp_global_int _ 10); [by names|].
    apply wp_bind, wp_computes, (to_categorical_spec _ ls); [done | done |].
    intros r1 s1 [Eg1 Eh1] D1. cbn [globals heap] in *.
    pose proof (deref_weaken _ _ _ _ Eh1 Dtr) as Dtr1.
    pose proof (deref_weaken _ _ _ _ Eh1 Dte) as Dte1.
    apply wp_bind, wp_assign.
    apply wp_bind, (wp_global_arr _ yte); [cbn; rewrite Eg1; by names|].
    apply wp_bind, (wp_global_int _ 10); [cbn; rewrite Eg1; by names|].
    apply wp_bind, wp_computes, (to_categorical_spec _ lt); [done | done |].
    intros r2 s2 [Eg2 Eh2] D2. cbn [globals heap] in *.
    apply wp_assign. cbn [globals heap].
    split_and!.
    - exists r1. split; [rewrite Eg2; by names | by eapply deref_weaken].
    - exists r2. split; [by names | done].
    - exists ytr. split; [rewrite Eg2, Eg1; by names | by eapply deref_weaken].
    - exists yte. split; [rewrite Eg2, Eg1; by names | by eapply deref_weaken]. }
  exists s', z, zt. split_and!; try done.
  - apply (one_hot_rows ls 10). eapply Forall_impl; [exact Hls|]. intros l; cbn; lia.
  - apply (one_hot_rows lt 10). eapply Forall_impl; [exact Hlt|]. intros l; cbn; lia.
Qed.

(** Property X12 for the training labels 2 and 0 and the test label 9. *)
Lemma cell_onehot_encodes_labels_witness :
  ∃ s' z zt,
    cell_onehot example_labels = Some (tt, s') ∧
    holds s' "y_train_onehot" (np.A2 z) ∧
    holds s' "y_test_onehot" (np.A2 zt) ∧
    holds s' "y_train" (labels [2; 0]%Z) ∧
    holds s' "y_test" (labels [9]%Z) ∧
    encodes [2; 0]%Z 10 z ∧ encodes [9]%Z 10 zt.
Proof.
  apply (cell_onehot_encodes_labels example_labels
           (whole 1%positive) (whole 2%positive) [2; 0]%Z [9]%Z).
  - repeat constructor; lia.
  - repeat constructor; lia.
  - reflexivity.
  - reflexivity.
  - reflexivity.
  - reflexivity.
Defined.

(** ** The digits the cells display *)

Lemma global_arr_run x a s :
  globals s !! x = Some (VArr a) → global_arr x s = Some (a, s).
Proof. intros H. unfold global_arr, global, mbind, M_bind, lift. by rewrite H. Qed.

Lemma reshape_flat h w (im : np.matrix) :
  has_shape h w im → np.reshape h w (np.A1 (np.flat im)) = Some (np.A2 im).
Proof.
  intros [Hh Hw]. unfold np.reshape, np.flat. cbn [np.ravel].
  rewrite decide_True by (by rewrite (length_concat_rect w), Hh).
  rewrite <- Hh. by rewrite chunks_concat.
Qed.

Lemma displayed_digit_run s a (t : list np.matrix) n i im :
  has_shape3 n 28 28 t →
  globals s !! "x_train" = Some (VArr a) →
  deref (heap s) a = Some (np.A2 (map np.flat t)) →
  t !! i = Some im →
  displayed_digit i s = Some (np.A2 im, s).
Proof.
  intros [_ Ht] G D Hi. unfold displayed_digit.
  rewrite (bind_run _ _ _ _ _ (global_arr_run _ _ _ G)).
  rewrite (bind_run (np_row a i) _ s (np.flat im) s).
  - unfold lift. rewrite (reshape_flat 28 28); [done|].
    rewrite Forall_forall in Ht. by eapply Ht, list_elem_of_lookup_2.
  - unfold np_row. rewrite (bind_run _ _ _ _ _ (load_run _ _ _ D)).
    unfold lift, np.matrix in *. by rewrite list_lookup_fmap, Hi.
Qed.

(** Property X13.  Flattening and reshaping are inverse to each other:
    after the load, normalisation and flattening cells, for training images
    of 28 by 28 pixels (and at least one test image), the array
    [numpy.reshape(x_train[i,:], (28, 28))] that the display cells draw is
    the image [i] as loaded, each pixel divided by 255; the expression
    changes no state. *)
Theorem displayed_digit_is_the_normalized_image (w : world) (s : state)
    (n n' h' wd' i : nat) (im : list (list Z)) :
  (0 < n')%nat →
  images_shape n 28 28 (mnist_x_train w) →
  images_shape n' h' wd' (mnist_x_test w) →
  mnist_x_train w !! i = Some im →
  ∃ s1 s2,
    (cell_load_data w;; cell_normalize) s = Some (tt, s1) ∧
    cell_flatten s1 = Some (tt, s2) ∧
    displayed_digit i s2 = Some (np.A2 (map (map (λ p, IZR p / 255)) im), s2).
Proof.
  intros Hn' Hs Hs' Hi.
  assert (Hn : (0 < n)%nat).
  { destruct Hs as [<- _]. apply lookup_lt_Some in Hi. lia. }
  pose proof (normalized_shape _ _ _ _ Hs) as Ht.
  pose proof (normalized_shape _ _ _ _ Hs') as Ht'.
  destruct (load_and_normalize w s (λ _ s1,
      ∃ l1 l2, l1 ≠ l2 ∧
        globals s1 !! "x_train" = Some (VArr (whole l1)) ∧
        globals s1 !! "x_test" = Some (VArr (whole l2)) ∧
        heap s1 !! l1 = Some (np.A3 (normalized (mnist_x_train w))) ∧
        heap s1 !! l2 = Some (np.A3 (normalized (mnist_x_test w)))))
    as ([] & s1 & Hrun1 & l1 & l2 & Hne & G1 & G2 & D1 & D2).
  { intros s1 l1 l2 ? ? ? ? ?. by exists l1, l2. }
  assert (wp cell_flatten s1 (λ _ s2,
      holds s2 "x_train" (np.A2 (map np.flat (normalized (mnist_x_train w))))))
    as ([] & s2 & Hrun2 & a & Ga & Da).
  { unfold cell_flatten. apply wp_bind.
    eapply (flatten_spec _ (whole l1) _ n 28 28); [done | done | done | done |].
    intros Dv1.
    eapply (flatten_spec _ (whole l2) _ n' h' wd'); [done | done | by lookups | done |].
    intros Dv2. cbn [globals heap] in *.
    eexists. split; [by lookups | done]. }
  exists s1, s2. split_and!; [done | done |].
  apply (displayed_digit_run s2 a (normalized (mnist_x_train w)) n); try done.
  unfold normalized. by rewrite list_lookup_fmap, Hi.
Qed.

(** Property X13 for two blank training images, at the second one. *)
Lemma displayed_digit_is_the_normalized_image_witness :
  ∃ s1 s2,
    (cell_load_data example_digits;; cell_normalize) fresh_kernel = Some (tt, s1) ∧
    cell_flatten s1 = Some (tt, s2) ∧
    displayed_digit 1 s2
    = Some (np.A2 (map (map (λ p, IZR p / 255)) blank_image), s2).
Proof.
  apply (displayed_digit_is_the_normalized_image example_digits fresh_kernel
           2 1 28 28 1 blank_image).
  - lia.
  - split; [reflexivity|].
    repeat constructor; try reflexivity; apply Forall_replicate; reflexivity.
  - split; [reflexivity|].
    repeat constructor; try reflexivity; apply Forall_replicate; reflexivity.
  - reflexivity.
Defined.

(** The display cells read the first ten rows. *)

Lemma show_digit_out_of_range i s xr (m : list (list R)) :
  globals s !! "x_train" = Some (VArr xr) →
  deref (heap s) xr = Some (np.A2 m) →
  (length m ≤ i)%nat →
  show_digit i s = None.
Proof.
  intros G D Hi. unfold show_digit.
  rewrite (bind_run _ _ _ _ _ (global_arr_run _ _ _ G)).
  apply bind_fail. unfold np_row.
  rewrite (bind_run _ _ _ _ _ (load_run _ _ _ D)).
  unfold lift, np.matrix. by rewrite lookup_ge_None_2.
Qed.

Lemma for_each_fails x (body : nat → M unit) (P : state → Prop) j l :
  j ∈ l →
  (∀ s, P s → body j s = None) →
  (∀ i s s', P s → body i s = Some (tt, s') → P s') →
  (∀ i s, P s → P (State (<[x := VInt i]> (globals s)) (heap s))) →
  ∀ s, P s → for_each x l body s = None.
Proof.
  intros Hj Hfail Hbody Hassign.
  induction l as [|i l IH]; intros s HP; [by apply elem_of_nil in Hj|].
  cbn [for_each].
  rewrite (bind_run (assign x (VInt (Z.of_nat i))) _ s tt
             (State (<[x := VInt (Z.of_nat i)]> (globals s)) (heap s))) by done.
  specialize (Hassign (Z.of_nat i) s HP).
  destruct (decide (i = j)) as [->|Hne].
  - apply bind_fail. by apply Hfail.
  - destruct (body i (State (<[x := VInt (Z.of_nat i)]> (globals s)) (heap s)))
      as [[[] s']|] eqn:E.
    + rewrite (bind_run _ _ _ _ _ E). apply IH.
      * destruct (proj1 (elem_of_cons l j i) Hj) as [Ej|Ej]; [congruence | exact Ej].
      * exact (Hbody _ _ _ Hassign E).
    + by apply bind_fail.
Qed.

(** Property X14.  The cell that draws the first ten digits fails when
    [x_train] is a matrix of fewer than ten rows: [x_train[i,:]] is out of
    range for some [i] below 10. *)
Theorem cell_show_digits_needs_ten_rows (s : state) (xr : ndref)
    (m : list (list R)) :
  globals s !! "x_train" = Some (VArr xr) →
  deref (heap s) xr = Some (np.A2 m) →
  (length m < 10)%nat →
  cell_show_digits s = None.
Proof.
  intros G D Hm. unfold cell_show_digits.
  rewrite (bind_run (assign "pltsize" (VInt 1)) _ s tt
             (State (<["pltsize" := VInt 1]> (globals s)) (heap s))) by done.
  unfold for_range.
  apply (for_each_fails "i" show_digit
           (λ s0, globals s0 !! "x_train" = Some (VArr xr) ∧
                  deref (heap s0) xr = Some (np.A2 m)) (length m)).
  - apply elem_of_seq. lia.
  - intros s0 [G0 D0]. by apply (show_digit_out_of_range _ _ xr m).
  - intros i s0 s' [G0 D0] Hrun.
    pose proof (readonly_show_digit i s0 tt s' Hrun) as E.
    split; [destruct E as [-> _]; done | by apply (deref_extends s0)].
  - intros i s0 [G0 D0]. cbn. by rewrite lookup_insert_ne.
  - cbn. by rewrite lookup_insert_ne.
Qed.

(** Property X14 for a training set of one example. *)
Lemma cell_show_digits_needs_ten_rows_witness :
  cell_show_digits example_state = None.
Proof.
  apply (cell_show_digits_needs_ten_rows example_state (whole 1%positive) [[1]]).
  - reflexivity.
  - reflexivity.
  - cbn. lia.
Defined.

(** ** The classifier applied to five training images *)

(** Property X15.  When [x_train] is a matrix of [n] rows and [f >= 1]
    columns and [num_features] is [f], the cell that draws [W] and [b] and
    the cell that applies the classifier return, whatever the random draws;
    [predicted_labels] then holds the softmax of [x W + b] for the first 5
    training examples (for all of them when [n < 5]), the drawn weights [W]
    and the drawn bias [b], one row of 10 entries for each example; over
    the real numbers, every row has positive entries that sum to 1 (in
    [float64] the sum that the notebook prints is 1 up to rounding). *)
Theorem predicted_labels_are_distributions (w : world) (s : state) (xr : ndref)
    (X : np.matrix) (n f : nat) :
  (0 < f)%nat → has_shape n f X →
  globals s !! "num_features" = Some (VInt (Z.of_nat f)) →
  globals s !! "x_train" = Some (VArr xr) →
  deref (heap s) xr = Some (np.A2 X) →
  ∃ s' z,
    (cell_init_classifier w;; cell_apply_classifier) s = Some (tt, s') ∧
    holds s' "predicted_labels" (np.A2 z) ∧
    z = map softmax_row
          (dense (λ t, t) (take 5 X)
             (map (map (Rmult (1 / 100))) (rand2 (draws_W10 w) f 10))
             (map (Rmult (1 / 100)) (rand1 (draws_b w) 10))) ∧
    has_shape (5 `min` n) 10 z ∧ Forall distribution z.
Proof.
  intros Hf HX Gf Gx Dx.
  set (Wv := map (map (Rmult (1 / 100))) (rand2 (draws_W10 w) f 10)).
  set (bv := map (Rmult (1 / 100)) (rand1 (draws_b w) 10)).
  set (z := map softmax_row (dense (λ t, t) (take 5 X) Wv bv)).
  assert (Hbv : length bv = 10%nat)
    by (unfold bv, rand1; by rewrite !length_map, length_seq).
  assert (wp (cell_init_classifier w;; cell_apply_classifier) s
            (λ _ s', holds s' "predicted_labels" (np.A2 z)))
    as ([] & s' & Hrun & Hz).
  { apply wp_bind. unfold cell_init_classifier.
    apply wp_bind, (wp_global_int _ (Z.of_nat f)); [done|].
    rewrite Nat2Z.id.
    apply wp_bind. unfold init_weights.
    apply wp_bind, wp_alloc. intros l0 Hl0. cbn [globals heap].
    apply wp_bind, wp_computes,
      (np_map_spec _ _ (np.A2 (rand2 (draws_W10 w) f 10))).
    { cbn. by rewrite lookup_insert_eq. }
    intros wr sa [Eg Eh] Fw Dw. cbn [globals heap] in *.
    apply wp_assign.
    apply wp_bind, wp_alloc. intros lb Hlb. cbn [globals heap] in *.
    apply wp_bind, wp_computes, (np_map_spec _ _ (np.A1 (rand1 (draws_b w) 10))).
    { cbn. by rewrite lookup_insert_eq. }
    intros br sb [Eg' Eh'] Fb Db. cbn [globals heap] in *.
    apply wp_bind, wp_assign. apply wp_assign.
    assert (Hsub : heap s ⊆ heap sb).
    { etrans; [|exact Eh']. etrans; [|apply insert_subseteq; exact Hlb].
      etrans; [|exact Eh]. by apply insert_subseteq. }
    assert (Dw' : deref (heap sb) wr = Some (np.A2 Wv)).
    { eapply deref_weaken; [|exact Dw].
      etrans; [|exact Eh']. by apply insert_subseteq. }
    assert (Dx' : deref (heap sb) xr = Some (np.A2 X))
      by (by eapply deref_weaken).
    unfold cell_apply_classifier.
    apply wp_bind, (wp_global_arr _ wr); [cbn; rewrite Eg', Eg; by names|].
    apply wp_bind, (wp_global_arr _ br); [by names|].
    apply wp_bind, (wp_global_arr _ xr); [cbn; rewrite Eg', Eg; by names|].
    apply wp_bind, wp_computes.
    apply (np_view_spec _ _ (np.A2 X) (np.A2 (take 5 X))); [done | done |].
    intros Dv. cbn [heap] in Dv.
    apply wp_bind, wp_computes.
    apply (classification_model_softmax_spec wr br _ (take 5 X) Wv bv
             (5 `min` n) f 10); try done.
    - by apply has_shape_take.
    - unfold Wv. apply has_shape_map, has_shape_rand2.
    - intros r s2 E2 D2. apply wp_assign.
      exists r. split; [by names | done]. }
  exists s', z. split_and!; [done | done | done | |].
  - destruct (softmax_dense_rows (take 5 X) Wv bv) as [Hs _]; [lia|].
    rewrite Hbv in Hs. rewrite length_take in Hs. destruct HX as [<- _]. done.
  - destruct (softmax_dense_rows (take 5 X) Wv bv) as [_ Hd]; [lia | done].
Qed.

(** Property X15 for a training set of one example. *)
Lemma predicted_labels_are_distributions_witness :
  ∃ s' z,
    (cell_init_classifier example_world;; cell_apply_classifier) example_features
    = Some (tt, s') ∧
    holds s' "predicted_labels" (np.A2 z) ∧
    z = map softmax_row
          (dense (λ t, t) (take 5 [[1]])
             (map (map (Rmult (1 / 100))) (rand2 (draws_W10 example_world) 1 10))
             (map (Rmult (1 / 100)) (rand1 (draws_b example_world) 10))) ∧
    has_shape (5 `min` 1) 10 z ∧ Forall distribution z.
Proof.
  apply (predicted_labels_are_distributions example_world example_features
           (whole 1%positive) [[1]] 1 1).
  - lia.
  - split; [reflexivity | repeat constructor].
  - reflexivity.
  - reflexivity.
  - reflexivity.
Defined.

(** ** Labels of one dimension against a column of weights *)

Lemma zip2_vector_against_column f (y : list R) (P : np.matrix) :
  np.rect 1 P →
  np.zip2 f [y] P = Some (map (λ r, map (λ t, f t (nth 0 r 0)) y) P).
Proof.
  intros HP.
  assert (Hrow : ∀ r, length r = 1%nat →
            np.zip1 f y r = Some (map (λ t, f t (nth 0 r 0)) y)).
  { intros [|b [|? ?]] Hr; try done. apply zip1_column. }
  assert (Hall : mapM (np.zip1 f y) P
                 = Some (map (λ r, map (λ t, f t (nth 0 r 0)) y) P)).
  { apply mapM_total. eapply Forall_impl; [exact HP|]. exact Hrow. }
  unfold np.zip2. destruct (decide (length [y] = length P)) as [H1|H1].
  - by destruct P as [|r [|? ?]].
  - done.
Qed.

Lemma sum_app (u v : list R) : np.sum (u ++ v) = np.sum u + np.sum v.
Proof. unfold np.sum. induction u as [|x u IH]; cbn; [lra|]. rewrite IH. lra. Qed.

Lemma sum_concat (m : np.matrix) : np.sum (concat m) = np.sum (map np.sum m).
Proof.
  induction m as [|r m IH]; [done|].
  cbn [concat map]. rewrite sum_app, IH. done.
Qed.

Lemma mean_tabulate r c (F : nat → nat → R) :
  (0 < r)%nat → (0 < c)%nat →
  np.mean (np.A2 (tabulate r c F))
  = Some (1 / INR (r * c) * sum_upto r (λ i, sum_upto c (F i))).
Proof.
  intros Hr Hc. unfold np.mean. cbn [np.ravel]. unfold np.flat.
  destruct (has_shape_tabulate r c F) as [Hl Hrect].
  assert (Hlen : length (concat (tabulate r c F)) = (r * c)%nat)
    by (by rewrite (length_concat_rect c), Hl).
  assert (Hsum : np.sum (concat (tabulate r c F))
                 = sum_upto r (λ i, sum_upto c (F i))).
  { rewrite sum_concat. unfold tabulate. rewrite map_map.
    rewrite <- sum_map_seq. f_equal. apply map_ext. intros i. apply sum_map_seq. }
  destruct (concat (tabulate r c F)) as [|x l]; [cbn in Hlen; nia|].
  rewrite Hlen, Hsum. f_equal. unfold Rdiv. lra.
Qed.

Lemma evaluate_flat_labels_spec (X W : np.matrix) (y : list R) (n f : nat)
    xr yr wr s (Q : R → state → Prop) :
  (0 < n)%nat → (0 < f)%nat →
  has_shape n f X → length y = n → has_shape f 1 W →
  deref (heap s) xr = Some (np.A2 X) →
  deref (heap s) yr = Some (np.A1 y) →
  deref (heap s) wr = Some (np.A2 W) →
  (∀ s', extends s s' →
     Q (1 / INR (n * n)
        * sum_upto n (λ i, sum_upto n (λ j,
            (nth j y 0 - prediction X W i 0) ^ 2))) s') →
  computes (evaluate wr xr yr) s Q.
Proof.
  intros Hn Hf HX Hy HW Hxr Hyr Hwr HQ.
  pose proof (matrix_tabulate _ _ _ HX) as EX.
  pose proof (matrix_tabulate _ _ _ HW) as EW.
  set (P := λ i c, sum_upto f (λ t, entry X i t * entry W t c)).
  set (D := λ i j, nth j y 0 - P i 0%nat).
  unfold evaluate.
  apply computes_bind. unfold linear_model.
  apply (np_dot_spec _ _ (np.A2 X) (np.A2 W) (np.A2 (tabulate n 1 P)));
    [done | done | |].
  { rewrite (dot_matrices f) by (by destruct HX, HW).
    rewrite EX, EW at 1. by rewrite matmul_tabulate. }
  intros pr s1 E1 _ Hpr. keep E1.
  apply computes_bind.
  apply (np_binop_spec _ _ _ (np.A1 y) (np.A2 (tabulate n 1 P))
           (np.A2 (tabulate n n D))); [done | done | |].
  { cbn [np.broadcast].
    rewrite zip2_vector_against_column by apply has_shape_tabulate.
    cbn. do 2 f_equal. unfold tabulate. rewrite map_map.
    apply map_ext. intros i. cbn.
    rewrite (vector_tabulate n y Hy) at 1. rewrite map_map. done. }
  intros dr s2 E2 _ Hdr. keep E2.
  apply computes_bind, (np_map_spec _ _ _ _ _ Hdr).
  intros qr s3 E3 _ Hqr.
  eapply np_mean_spec; [exact Hqr | |].
  { cbn [np.map_nd]. rewrite map_tabulate. by apply mean_tabulate. }
  replace (1 / INR (n * n) * _)
    with (1 / INR (n * n)
          * sum_upto n (λ i, sum_upto n (λ j,
              (nth j y 0 - prediction X W i 0) ^ 2))).
  { apply HQ. repeat (eapply extends_trans; [|eassumption]). apply extends_refl. }
  f_equal. apply sum_upto_ext. intros i Hi. apply sum_upto_ext. intros j Hj.
  unfold D, P, prediction. by destruct HW as [-> _].
Qed.

(** Property X16.  With the labels as an array of one dimension and the
    weights as a column, [evaluate] does not return the mean squared error:
    the subtraction broadcasts to an [n] by [n] array, and the result is the
    mean over all pairs [(i, j)] of [(y_j - (X W)_i)^2]. *)
Theorem evaluate_pairs_every_label_with_every_prediction
    (X W : np.matrix) (y : list R) (n f : nat) (xr yr wr : ndref) (s : state) :
  (0 < n)%nat → (0 < f)%nat →
  has_shape n f X → length y = n → has_shape f 1 W →
  deref (heap s) xr = Some (np.A2 X) →
  deref (heap s) yr = Some (np.A1 y) →
  deref (heap s) wr = Some (np.A2 W) →
  ∃ s', evaluate wr xr yr s
        = Some (1 / INR (n * n)
                * sum_upto n (λ i, sum_upto n (λ j,
                    (nth j y 0 - prediction X W i 0) ^ 2)), s').
Proof.
  intros Hn Hf HX Hy HW Hxr Hyr Hwr.
  destruct (evaluate_flat_labels_spec X W y n f xr yr wr s
              (λ v _, v = 1 / INR (n * n)
                          * sum_upto n (λ i, sum_upto n (λ j,
                              (nth j y 0 - prediction X W i 0) ^ 2))))
    as (v & s' & Hrun & _ & ->); try done.
  by exists s'.
Qed.

(** Property X16 at [X = [[2]]], [y = [1]], [W = [[0]]]. *)
Lemma evaluate_pairs_every_label_with_every_prediction_witness :
  ∃ s', evaluate (whole 3%positive) (whole 1%positive) (whole 4%positive)
          example_arrays
        = Some (1 / INR (1 * 1)
                * sum_upto 1 (λ i, sum_upto 1 (λ j,
                    (nth j [1] 0 - prediction [[2]] [[0]] i 0) ^ 2)), s').
Proof.
  apply (evaluate_pairs_every_label_with_every_prediction [[2]] [[0]] [1] 1 1
           (whole 1%positive) (whole 4%positive) (whole 3%positive) example_arrays).
  - lia.
  - lia.
  - split; [reflexivity | repeat constructor].
  - reflexivity.
  - split; [reflexivity | repeat constructor].
  - reflexivity.
  - reflexivity.
  - reflexivity.
Defined.

Lemma zip1_single f a (v : list R) : np.zip1 f [a] v = Some (map (f a) v).
Proof.
  unfold np.zip1. destruct (decide (length [a] = length v)) as [H|H]; [|done].
  by destruct v as [|b [|? ?]].
Qed.

Lemma zip2_column_against_vector f (P : np.matrix) (y : list R) :
  np.rect 1 P →
  np.zip2 f P [y] = Some (map (λ r, map (f (nth 0 r 0)) y) P).
Proof.
  intros HP.
  assert (Hrow : ∀ r, length r = 1%nat →
            np.zip1 f r y = Some (map (f (nth 0 r 0)) y)).
  { intros [|b [|? ?]] Hr; try done. apply zip1_single. }
  assert (Hall : mapM (λ r, np.zip1 f r y) P
                 = Some (map (λ r, map (f (nth 0 r 0)) y) P)).
  { apply mapM_total. eapply Forall_impl; [exact HP|]. exact Hrow. }
  unfold np.zip2. destruct (decide (length P = length [y])) as [H1|H1].
  - by destruct P as [|r [|? ?]].
  - destruct P as [|r [|r' P]]; [done | done |].
    by destruct (r' :: P).
Qed.

Lemma mapM_zip1_map {I} f (A B C : I → list R) (l : list I) :
  (∀ i, np.zip1 f (A i) (B i) = Some (C i)) →
  mapM (λ p, np.zip1 f p.1 p.2) (zip (map A l) (map B l)) = Some (map C l).
Proof.
  intros H. induction l as [|i l IH]; [done|].
  cbn. rewrite H. cbn. cbn in IH. by rewrite IH.
Qed.

Lemma zip2_column_against_matrix f r c (F : nat → nat → R) (G : nat → nat → R) :
  np.zip2 f (tabulate r 1 F) (tabulate r c G)
  = Some (tabulate r c (λ i j, f (F i 0%nat) (G i j))).
Proof.
  unfold np.zip2. rewrite decide_True by (by rewrite !tabulate_length).
  unfold tabulate.
  apply (mapM_zip1_map f (λ i, map (F i) (seq 0 1)) (λ i, map (G i) (seq 0 c))
           (λ i, map (λ j, f (F i 0%nat) (G i j)) (seq 0 c))).
  intros i. cbn. rewrite zip1_single. by rewrite map_map.
Qed.

Lemma learn_flat_labels_spec (X W : np.matrix) (y : list R) (n f : nat)
    (eta : R) xr yr wr s (Q : ndref → state → Prop) :
  (0 < n)%nat → (0 < f)%nat →
  has_shape n f X → length y = n → has_shape f 1 W →
  deref (heap s) xr = Some (np.A2 X) →
  deref (heap s) yr = Some (np.A1 y) →
  deref (heap s) wr = Some (np.A2 W) →
  (∀ r s', extends s s' →
     deref (heap s') r
     = Some (np.A2 (tabulate f n (λ j c,
         entry W j 0
         - eta * (2 / INR n)
           * sum_upto n (λ i, entry X i j
                              * (prediction X W i 0 - nth c y 0))))) →
     Q r s') →
  computes (learn xr yr wr eta) s Q.
Proof.
  intros Hn Hf HX Hy HW Hxr Hyr Hwr HQ.
  pose proof (matrix_tabulate _ _ _ HX) as EX.
  pose proof (matrix_tabulate _ _ _ HW) as EW.
  set (P := λ i c, sum_upto f (λ t, entry X i t * entry W t c)).
  set (D := λ i c, P i 0%nat - nth c y 0).
  set (G := λ j c, sum_upto n (λ i, entry X i j * D i c)).
  unfold learn.
  apply computes_bind, (np_shape0_spec _ (np.A2 X) n);
    [done | cbn; f_equal; apply HX |].
  apply computes_bind. unfold linear_model.
  apply (np_dot_spec _ _ (np.A2 X) (np.A2 W) (np.A2 (tabulate n 1 P)));
    [done | done | |].
  { rewrite (dot_matrices f) by (by destruct HX, HW).
    rewrite EX, EW at 1. by rewrite matmul_tabulate. }
  intros pr s1 E1 _ Hpr. keep E1.
  apply computes_bind. rewrite decide_False by lia. apply computes_ret.
  apply computes_bind.
  apply (np_view_spec _ _ (np.A2 X)
           (np.A2 (tabulate f n (λ j i, entry X i j)))); [done | |].
  { cbn. rewrite EX at 1. by rewrite transpose_tabulate. }
  intros Hxt.
  apply computes_bind.
  apply (np_binop_spec _ _ _ (np.A2 (tabulate n 1 P)) (np.A1 y)
           (np.A2 (tabulate n n D))); [done | done | |].
  { cbn [np.broadcast].
    rewrite zip2_column_against_vector by apply has_shape_tabulate.
    cbn. do 2 f_equal. unfold tabulate. rewrite map_map.
    apply map_ext. intros i. cbn.
    rewrite (vector_tabulate n y Hy) at 1. rewrite map_map. done. }
  intros dr s2 E2 _ Hdr. keep E2.
  apply computes_bind.
  apply (np_dot_spec _ _ _ _ (np.A2 (tabulate f n G)) _ _ Hxt Hdr).
  { rewrite (dot_matrices n) by (apply tabulate_rect || apply tabulate_length).
    by rewrite matmul_tabulate. }
  intros gr s3 E3 _ Hgr. keep E3.
  apply computes_bind, (np_map_spec _ _ _ _ _ Hgr).
  intros cr s4 E4 _ Hcr. keep E4.
  apply computes_bind, (np_map_spec _ _ _ _ _ Hcr).
  intros sr s5 E5 _ Hsr. keep E5.
  apply computes_bind.
  eapply (np_binop_spec _ _ _ _ _ _ _ _ Hwr Hsr).
  { cbn [np.map_nd]. rewrite !map_tabulate. cbn [np.broadcast].
    rewrite EW at 1. rewrite zip2_column_against_matrix. done. }
  intros nr s6 E6 Fnr Hnr.
  apply computes_ret. apply HQ.
  { repeat (eapply extends_trans; [|eassumption]). apply extends_refl. }
  rewrite Hnr. do 2 f_equal. apply tabulate_ext. intros j c Hj Hc. cbn beta.
  unfold G, D, P, prediction. destruct HW as [-> _]. lra.
Qed.

(** Property X17.  With the labels as an array of one dimension and the
    weights as a column of [f] entries, [learn] returns an array of shape
    [(f, n)] and not a column: its column [c] is the gradient step taken as
    if every label of the batch were [y_c]. *)
Theorem learn_spreads_flat_labels_over_columns
    (X W : np.matrix) (y : list R) (n f : nat) (eta : R)
    (xr yr wr : ndref) (s : state) :
  (0 < n)%nat → (0 < f)%nat →
  has_shape n f X → length y = n → has_shape f 1 W →
  deref (heap s) xr = Some (np.A2 X) →
  deref (heap s) yr = Some (np.A1 y) →
  deref (heap s) wr = Some (np.A2 W) →
  ∃ r s' Wn,
    learn xr yr wr eta s = Some (r, s') ∧
    deref (heap s') r = Some (np.A2 Wn) ∧
    has_shape f n Wn ∧
    ∀ j c, (j < f)%nat → (c < n)%nat →
      entry Wn j c
      = entry W j 0
        - eta * (2 / INR n)
          * sum_upto n (λ i, entry X i j * (prediction X W i 0 - nth c y 0)).
Proof.
  intros Hn Hf HX Hy HW Hxr Hyr Hwr.
  set (Wn := tabulate f n (λ j c,
         entry W j 0
         - eta * (2 / INR n)
           * sum_upto n (λ i, entry X i j
                              * (prediction X W i 0 - nth c y 0)))).
  destruct (learn_flat_labels_spec X W y n f eta xr yr wr s
              (λ r s', deref (heap s') r = Some (np.A2 Wn)))
    as (r & s' & Hrun & _ & Hr); try done.
  exists r, s', Wn. split_and!; [done | done | apply has_shape_tabulate |].
  intros j c Hj Hc. unfold Wn. by rewrite tabulate_entry.
Qed.

(** Property X17 at [X = [[2]]], [y = [1]], [W = [[0]]], [eta = 1]. *)
Lemma learn_spreads_flat_labels_over_columns_witness :
  ∃ r s' Wn,
    learn (whole 1%positive) (whole 4%positive) (whole 3%positive) 1
      example_arrays = Some (r, s') ∧
    deref (heap s') r = Some (np.A2 Wn) ∧
    has_shape 1 1 Wn ∧
    ∀ j c, (j < 1)%nat → (c < 1)%nat →
      entry Wn j c
      = entry [[0]] j 0
        - 1 * (2 / INR 1)
          * sum_upto 1 (λ i, entry [[2]] i j
                             * (prediction [[2]] [[0]] i 0 - nth c [1] 0)).
Proof.
  apply (learn_spreads_flat_labels_over_columns [[2]] [[0]] [1] 1 1 1
           (whole 1%positive) (whole 4%positive) (whole 3%positive) example_arrays).
  - lia.
  - lia.
  - split; [reflexivity | repeat constructor].
  - reflexivity.
  - split; [reflexivity | repeat constructor].
  - reflexivity.
  - reflexivity.
  - reflexivity.
Defined.

(** ** The formulas of the specification and labels of one dimension *)

(** Claim C2 fails as stated, for a label vector of one dimension against
    a column of weights and for a batch without rows: with [X = [[1]; [2]]],
    [y = [1; 2]], [W = [[1]]] and [eta = 1], [learn] returns the matrix
    [[[-1; 2]]] of shape [(1, 2)], where [W - eta * (2/n) * X^T (X W - y)]
    is [W = [[1]]], the weight fitting the labels; and for the batch of no
    row [learn] returns nothing. *)
Lemma learn_with_flat_labels_is_no_gradient_step :
  (∃ r s' Wn,
     learn (whole 1%positive) (whole 2%positive) (whole 3%positive) 1
       flat_labels = Some (r, s') ∧
     deref (heap s') r = Some (np.A2 Wn) ∧
     has_shape 1 2 Wn ∧ entry Wn 0 0 = -1 ∧ entry Wn 0 1 = 2) ∧
  gradient_step [[1]; [2]] (column [1; 2]) [[1]] 1 = [[1]] ∧
  learn (whole 1%positive) (whole 1%positive) (whole 1%positive) 1
    empty_batch = None.
Proof.
  split_and!.
  - destruct (learn_flat_labels_spec [[1]; [2]] [[1]] [1; 2] 2 1 1
                (whole 1%positive) (whole 2%positive) (whole 3%positive)
                flat_labels
                (λ r s', ∃ Wn, deref (heap s') r = Some (np.A2 Wn) ∧
                   has_shape 1 2 Wn ∧ entry Wn 0 0 = -1 ∧ entry Wn 0 1 = 2))
      as (r & s' & Hrun & _ & Wn & HWn); try done; try lia.
    + split; [reflexivity | repeat constructor].
    + split; [reflexivity | repeat constructor].
    + intros r s' _ Hr. eexists. split; [exact Hr|].
      split; [apply has_shape_tabulate|].
      rewrite !tabulate_entry by lia.
      unfold prediction, entry. cbn. split; lra.
    + by exists r, s', Wn.
  - unfold gradient_step, tabulate, prediction, entry. cbn.
    do 2 f_equal. lra.
  - reflexivity.
Qed.

(** Claim C5 fails as stated, for a label vector of one dimension against
    a column of weights: with [X = [[1]; [2]]], [y = [1; 2]] and
    [W = [[1]]], [evaluate] returns 1/2, where the mean squared error is 0
    in either layout of the reference. *)
Lemma evaluate_with_flat_labels_is_no_mean_squared_error :
  (∃ s', evaluate (whole 3%positive) (whole 1%positive) (whole 2%positive)
           flat_labels = Some (1 / 2, s')) ∧
  mean_squared_error [[1]; [2]] (column [1; 2]) [[1]] = 0 ∧
  mean_squared_error_1d [[1]; [2]] [1; 2] [1] = 0.
Proof.
  split_and!.
  - destruct (evaluate_flat_labels_spec [[1]; [2]] [[1]] [1; 2] 2 1
                (whole 1%positive) (whole 2%positive) (whole 3%positive)
                flat_labels (λ v _, v = 1 / 2))
      as (v & s' & Hrun & _ & ->); try done; try lia.
    + split; [reflexivity | repeat constructor].
    + split; [reflexivity | repeat constructor].
    + intros s' _. unfold prediction, entry. cbn. lra.
    + by exists s'.
  - unfold mean_squared_error, prediction, entry. cbn. lra.
  - unfold mean_squared_error_1d, prediction_1d, entry. cbn. lra.
Qed.

(** ** What the dataset notebook needs of its table *)

Lemma position_None name (cols : list string) :
  name ∉ cols → pd.position name cols = None.
Proof.
  intros H. unfold pd.position.
  destruct (list_find (λ c, c = name) cols) as [[i c]|] eqn:E; [|done].
  apply list_find_Some in E as (Hc & -> & _).
  destruct H. by eapply list_elem_of_lookup_2.
Qed.

Lemma df2_columns df d : df2 df = Some d → pd.columns d = pd.columns df.
Proof.
  unfold df2. intros H.
  destruct (pd.getitem df "OverallCond") as [s|]; [|done]. cbn in H.
  destruct (pd.series_gt s 5) as [mask|]; [|done]. cbn in H.
  unfold pd.getitem_mask in H. destruct (decide _); [|done].
  by injection H as <-.
Qed.

(** Property X18.  No file is written when the table lacks one of the
    columns [OverallCond], [SalePrice] and [GrLivArea]: the selection of the
    column raises. *)
Theorem slimmed_file_needs_its_columns (df : pd.DataFrame) (name : string) :
  name ∈ ["OverallCond"; "SalePrice"; "GrLivArea"] →
  name ∉ pd.columns df →
  slimmed_realestate_data df = None.
Proof.
  intros Hname Hcol. unfold slimmed_realestate_data, slim_df.
  destruct (df2 df) as [d|] eqn:Ed; [|done]. cbn.
  pose proof (df2_columns df d Ed) as Hd.
  pose proof (position_None name _ Hcol) as Hp.
  assert (Hcases : name = "OverallCond" ∨ name = "SalePrice" ∨ name = "GrLivArea").
  { repeat (apply elem_of_cons in Hname as [->|Hname]; [by auto|]).
    by apply elem_of_nil in Hname. }
  destruct Hcases as [-> | [-> | ->]].
  - unfold df2, pd.getitem in Ed. by rewrite Hp in Ed.
  - unfold pd.getitem_cols. rewrite Hd. cbn. by rewrite Hp.
  - unfold pd.getitem_cols. rewrite Hd. cbn. rewrite Hp.
    by destruct (pd.position "SalePrice" (pd.columns df)).
Qed.

(** Property X18 for a table without the column [OverallCond]. *)
Lemma slimmed_file_needs_its_columns_witness :
  slimmed_realestate_data unrated_df = None.
Proof.
  apply (slimmed_file_needs_its_columns unrated_df "OverallCond").
  - repeat constructor.
  - intros H. repeat (apply elem_of_cons in H as [H|H]; [discriminate H|]).
    by apply elem_of_nil in H.
Defined.

Lemma mapM_fails {A B} (f : A → option B) (l : list A) x :
  x ∈ l → f x = None → mapM f l = None.
Proof.
  intros Hx Hf. destruct (mapM f l) as [k|] eqn:E; [|done].
  assert (Hs : is_Some (mapM f l)) by (by eexists).
  apply mapM_is_Some in Hs. rewrite Forall_forall in Hs.
  destruct (Hs x Hx) as [y Hy]. congruence.
Qed.

(** Property X19.  When some row of the table has a text in the column
    [OverallCond], the comparison with 5 raises: [df2] is not computed and
    no file is written, whatever the other rows hold. *)
Theorem df2_rejects_a_text_rating (df : pd.DataFrame) (r : Z * list pd.cell)
    (t : string) :
  r ∈ pd.rows df →
  cell_at df "OverallCond" r = Some (pd.Text t) →
  df2 df = None ∧ slimmed_realestate_data df = None.
Proof.
  intros Hr Hc.
  assert (H : df2 df = None).
  { unfold df2, pd.getitem. unfold cell_at in Hc.
    destruct (pd.position "OverallCond" (pd.columns df)) as [p|]; [|done].
    cbn in Hc |- *.
    destruct (mapM (λ r0 : Z * list pd.cell, r0.2 !! p ≫= λ c, Some (r0.1, c))
                (pd.rows df)) as [s|] eqn:Es; [|done].
    cbn. unfold pd.series_gt. rewrite (mapM_fails _ s (r.1, pd.Text t)); [done | | done].
    apply mapM_Some in Es.
    apply list_elem_of_lookup in Hr as [i Hi].
    destruct (Forall2_lookup_l _ _ _ _ _ Es Hi) as (ic & Hic & Hf).
    rewrite Hc in Hf. cbn in Hf. injection Hf as <-.
    by eapply list_elem_of_lookup_2. }
  split; [done|]. unfold slimmed_realestate_data, slim_df. by rewrite H.
Qed.

(** Property X19 for a table of two rows, the second rated ["good"]. *)
Lemma df2_rejects_a_text_rating_witness :
  df2 text_rated_df = None ∧ slimmed_realestate_data text_rated_df = None.
Proof.
  apply (df2_rejects_a_text_rating text_rated_df
           (1%Z, [pd.Num 2; pd.Text "good"; pd.Num 1262; pd.Num 181500]) "good").
  - apply elem_of_cons. right. apply elem_of_cons. by left.
  - reflexivity.
Defined.
